(** * useRetry: the retry scheduler of react-error-utils (hooks package)

    A shallow embedding of [useRetry] (hooks/src/useRetry.ts): the hook's
    state and refs, the backoff delay, and the asynchronous attempt loop
    cut at its two suspension points ([await asyncFn()] and the wait
    promise around [setTimeout]).  The attempt loop never looks at the value
    of a delay, and the machine carries it as an exact rational; the
    arithmetic of [calculateDelay] itself, which the code does on binary64
    numbers, is [calculateDelay64]. *)

From Stdlib Require Import ZArith QArith Qminmax Qpower Qround Lia Lqa Bool SpecFloat.
From stdpp Require Import base list.

(** ** Values that cross the boundary between the hook and its caller *)

(** What calling a user-supplied function does: it returns or it throws. *)
Inductive Completion (Err A : Type) : Type :=
| Normal (a : A)
| Thrown (x : Err).
Arguments Normal {Err A} a.
Arguments Thrown {Err A} x.

(** How the promise returned by [asyncFn] settles. *)
Inductive Settled (T Err : Type) : Type :=
| Resolve (result : T)
| Reject (err : Err).
Arguments Resolve {T Err} result.
Arguments Reject {T Err} err.

(** [UseRetryOptions<T>] after destructuring with its defaults; [onSuccess]
    and [onFailure] are optional ([?.] calls).  [maxAttempts] is a count. *)
Record UseRetryOptions (T Err : Type) : Type := mkOptions {
  maxAttempts : nat;
  initialDelayMs : Q;
  maxDelayMs : Q;
  backoffMultiplier : Q;
  jitter : Q;
  shouldRetry : Err -> nat -> Completion Err bool;
  onSuccess : option (T -> Completion Err unit);
  onFailure : option (Err -> nat -> Completion Err unit);
  autoStart : bool
}.
Arguments mkOptions {T Err}.
Arguments maxAttempts {T Err} _.
Arguments initialDelayMs {T Err} _.
Arguments maxDelayMs {T Err} _.
Arguments backoffMultiplier {T Err} _.
Arguments jitter {T Err} _.
Arguments shouldRetry {T Err} _.
Arguments onSuccess {T Err} _.
Arguments onFailure {T Err} _.
Arguments autoStart {T Err} _.

(** The defaults of the destructuring pattern in [useRetry]. *)
Definition defaultOptions {T Err : Type} : UseRetryOptions T Err :=
  mkOptions 3 1000%Q 30000%Q 2%Q (1 # 10)%Q (fun _ _ => Normal true) None None false.

(** ** calculateDelay *)

(** The value the machine carries in [delayMs]: the formula of
    [calculateDelay] over exact rationals, [rnd] being what [Math.random()]
    returned.  The attempt loop never inspects it.  The code computes on
    binary64 numbers, each operation rounded: that computation is
    [calculateDelay64] below, and what is claimed of the delay as a number
    is proved there. *)
Definition calculateDelay {T Err : Type} (o : UseRetryOptions T Err)
    (rnd : Q) (currentAttempt : nat) : Q :=
  let baseDelay :=
    (initialDelayMs o * Qpower (backoffMultiplier o) (Z.of_nat currentAttempt - 1))%Q in
  let cappedDelay := Qmin baseDelay (maxDelayMs o) in
  let jitterAmount := (cappedDelay * jitter o)%Q in
  let minDelay := (cappedDelay - jitterAmount)%Q in
  let maxDelay := (cappedDelay + jitterAmount)%Q in
  (minDelay + rnd * (maxDelay - minDelay))%Q.

(** The [capped] value of the same formula. *)
Definition cappedDelay {T Err : Type} (o : UseRetryOptions T Err) (n : nat) : Q :=
  Qmin (initialDelayMs o * Qpower (backoffMultiplier o) (Z.of_nat n - 1))%Q (maxDelayMs o).

(** ** The hook's state *)

(** The six [useState] cells and the three [useRef] cells. *)
Record HookState (Err : Type) : Type := mkHook {
  attempt : nat;
  isRetrying : bool;
  isSuccess : bool;
  isFailed : bool;
  delayMs : Q;
  error : option Err;
  abortRef : bool;
  timeoutRef : option nat;
  attemptRef : nat
}.
Arguments mkHook {Err}.
Arguments attempt {Err} _.
Arguments isRetrying {Err} _.
Arguments isSuccess {Err} _.
Arguments isFailed {Err} _.
Arguments delayMs {Err} _.
Arguments error {Err} _.
Arguments abortRef {Err} _.
Arguments timeoutRef {Err} _.
Arguments attemptRef {Err} _.

Definition initialHook {Err : Type} : HookState Err :=
  mkHook 0 false false false 0%Q None false None 0.

(** The promise returned by one [execute()] call: suspended at one of the
    two awaits of [runAttempt], or settled. *)
Inductive Task (T Err : Type) : Type :=
| AwaitOp (currentAttempt : nat) (p : Settled T Err)
| AwaitTimer (currentAttempt : nat) (timer : nat)
| Fulfilled (result : option T)
| Rejected (x : Err).
Arguments AwaitOp {T Err} currentAttempt p.
Arguments AwaitTimer {T Err} currentAttempt timer.
Arguments Fulfilled {T Err} result.
Arguments Rejected {T Err} x.

(** What an observer of the hook can see happen, in order. *)
Inductive Event (T Err : Type) : Type :=
| CalledOp
| CalledShouldRetry (err : Err) (n : nat)
| CalledOnSuccess (result : T)
| CalledOnFailure (err : Err) (attempts : nat)
| PromiseSettled (promise : nat) (t : Task T Err).
Arguments CalledOp {T Err}.
Arguments CalledShouldRetry {T Err} err n.
Arguments CalledOnSuccess {T Err} result.
Arguments CalledOnFailure {T Err} err attempts.
Arguments PromiseSettled {T Err} promise t.

(** The hook instance together with the host's event loop: the promises of
    the [execute()] calls made so far, the timers that are armed, and the
    counters of the host ([setTimeout] ids start at 1, so an id is truthy). *)
Record Machine (T Err : Type) : Type := mkMachine {
  hook : HookState Err;
  tasks : list (Task T Err);
  timers : list nat;
  nextTimer : nat;
  opCalls : nat;
  randCalls : nat;
  log : list (Event T Err)
}.
Arguments mkMachine {T Err}.
Arguments hook {T Err} _.
Arguments tasks {T Err} _.
Arguments timers {T Err} _.
Arguments nextTimer {T Err} _.
Arguments opCalls {T Err} _.
Arguments randCalls {T Err} _.
Arguments log {T Err} _.

Definition initialMachine {T Err : Type} : Machine T Err :=
  mkMachine initialHook [] [] 1 0 0 [].

(** What the caller and the host can do to a mounted hook. [CallExecute seen]
    calls the [execute] closure of a render in which [isRetrying] was [seen]. *)
Inductive Action : Type :=
| CallExecute (seen : bool)
| CallAbort
| CallReset
| OpSettles (promise : nat)
| TimerFires (promise : nat).

Definition settled {T Err : Type} (t : Task T Err) : bool :=
  match t with
  | Fulfilled _ | Rejected _ => true
  | AwaitOp _ _ | AwaitTimer _ _ => false
  end.

Definition timerLive (tid : nat) (l : list nat) : bool := existsb (Nat.eqb tid) l.

Definition removeTimer (tid : nat) (l : list nat) : list nat :=
  List.filter (fun t => negb (Nat.eqb tid t)) l.

(** ** Synchronous code: state passing with exceptions *)

Section Sync.
Context {T Err : Type}.

(** A run of synchronous code on the machine; effects made before a
    throw stay. *)
Definition Sync (A : Type) : Type := Machine T Err -> Completion Err A * Machine T Err.

Definition ret {A} (a : A) : Sync A := fun m => (Normal a, m).
Definition throw {A} (x : Err) : Sync A := fun m => (Thrown x, m).
Definition bind {A B} (c : Sync A) (k : A -> Sync B) : Sync B :=
  fun m => match c m with
           | (Normal a, m') => k a m'
           | (Thrown x, m') => (Thrown x, m')
           end.
Definition tryCatch {A} (body : Sync A) (handler : Err -> Sync A) : Sync A :=
  fun m => match body m with
           | (Normal a, m') => (Normal a, m')
           | (Thrown x, m') => handler x m'
           end.

Definition modifyHook (f : HookState Err -> HookState Err) : Sync unit :=
  fun m => let 'mkMachine h ts tm nt oc rc l := m in
           (Normal tt, mkMachine (f h) ts tm nt oc rc l).
Definition readHook {A} (f : HookState Err -> A) : Sync A :=
  fun m => (Normal (f (hook m)), m).
Definition emit (e : Event T Err) : Sync unit :=
  fun m => let 'mkMachine h ts tm nt oc rc l := m in
           (Normal tt, mkMachine h ts tm nt oc rc (l ++ [e])).
(** Calling a user function: its completion becomes the run's. *)
Definition call {A} (c : Completion Err A) : Sync A := fun m => (c, m).
End Sync.

Declare Scope sync_scope.
Delimit Scope sync_scope with sync.
Notation "x <- c ;; k" := (bind c (fun x => k))
  (at level 100, c at next level, right associativity) : sync_scope.
Notation "c ;; k" := (bind c (fun _ => k))
  (at level 100, k at level 200, right associativity) : sync_scope.

(** ** The hook *)

(** What one call of [asyncFn] does: hand back a promise, or throw before
    it returns one. *)
Inductive CallResult (T Err : Type) : Type :=
| Returns (p : Settled T Err)
| Throws (x : Err).
Arguments Returns {T Err} p.
Arguments Throws {T Err} x.

(** The [setX] functions of the [useState] cells and the writes to the refs. *)
Section Setters.
Context {Err : Type}.
Implicit Type h : HookState Err.

Definition setAttempt (v : nat) h :=
  let 'mkHook _ r s f d e ab tr ar := h in mkHook v r s f d e ab tr ar.
Definition setIsRetrying (v : bool) h :=
  let 'mkHook a _ s f d e ab tr ar := h in mkHook a v s f d e ab tr ar.
Definition setIsSuccess (v : bool) h :=
  let 'mkHook a r _ f d e ab tr ar := h in mkHook a r v f d e ab tr ar.
Definition setIsFailed (v : bool) h :=
  let 'mkHook a r s _ d e ab tr ar := h in mkHook a r s v d e ab tr ar.
Definition setDelayMs (v : Q) h :=
  let 'mkHook a r s f _ e ab tr ar := h in mkHook a r s f v e ab tr ar.
Definition setError (v : option Err) h :=
  let 'mkHook a r s f d _ ab tr ar := h in mkHook a r s f d v ab tr ar.
Definition setAbortRef (v : bool) h :=
  let 'mkHook a r s f d e _ tr ar := h in mkHook a r s f d e v tr ar.
Definition setTimeoutRef (v : option nat) h :=
  let 'mkHook a r s f d e ab _ ar := h in mkHook a r s f d e ab v ar.
Definition setAttemptRef (v : nat) h :=
  let 'mkHook a r s f d e ab tr _ := h in mkHook a r s f d e ab tr v.
End Setters.

Section UseRetry.
Context {T Err : Type}.
(** The arguments of the hook, and the host: [asyncFn k] is what the call
    number [k] of the operation does, [random k] the draw number [k] of
    [Math.random()], a value of [[0, 1)]. *)
Variable o : UseRetryOptions T Err.
Variable asyncFn : nat -> CallResult T Err.
Variable random : nat -> Q.

Local Open Scope sync_scope.
Local Abbreviation Run := (@Sync T Err).

(** [asyncFn()]: the call is counted, then returns its promise or throws. *)
Definition callAsyncFn : Run (Settled T Err) :=
  fun m =>
    let 'mkMachine h ts tm nt oc rc l := m in
    let m' := mkMachine h ts tm nt (S oc) rc (l ++ [CalledOp]) in
    match asyncFn oc with
    | Returns p => (Normal p, m')
    | Throws x => (Thrown x, m')
    end.

Definition callShouldRetry (err : Err) (n : nat) : Run bool :=
  emit (CalledShouldRetry err n) ;; call (shouldRetry o err n).

(** [onSuccess?.(result)] *)
Definition callOnSuccess (result : T) : Run unit :=
  match onSuccess o with
  | Some f => emit (CalledOnSuccess result) ;; call (f result)
  | None => ret tt
  end.

(** [onFailure?.(error, currentAttempt)] *)
Definition callOnFailure (err : Err) (n : nat) : Run unit :=
  match onFailure o with
  | Some f => emit (CalledOnFailure err n) ;; call (f err n)
  | None => ret tt
  end.

(** [calculateDelay(currentAttempt)] with its draw of [Math.random()]. *)
Definition drawDelay (currentAttempt : nat) : Run Q :=
  fun m =>
    let 'mkMachine h ts tm nt oc rc l := m in
    (Normal (calculateDelay o (random rc) currentAttempt),
     mkMachine h ts tm nt oc (S rc) l).

(** [setTimeout(...)]: arms a timer and returns its id. *)
Definition setTimeout : Run nat :=
  fun m =>
    let 'mkMachine h ts tm nt oc rc l := m in
    (Normal nt, mkMachine h ts (nt :: tm) (S nt) oc rc l).

Definition clearTimeout (tid : nat) : Run unit :=
  fun m =>
    let 'mkMachine h ts tm nt oc rc l := m in
    (Normal tt, mkMachine h ts (removeTimer tid tm) nt oc rc l).

(** The [catch (err)] block of [runAttempt] up to its [await]: either the
    terminal branch, which returns [null], or the wait for the next
    attempt, at which the function suspends. *)
Definition catchBlock (currentAttempt : nat) (err : Err) : Run (Task T Err) :=
  terminal <- (if (maxAttempts o <=? currentAttempt)%nat then ret true
               else (again <- callShouldRetry err currentAttempt ;; ret (negb again))) ;;
  if (terminal : bool) then
    modifyHook (setIsFailed true) ;;
    modifyHook (setError (Some err)) ;;
    callOnFailure err currentAttempt ;;
    ret (Fulfilled None)
  else
    delay <- drawDelay currentAttempt ;;
    modifyHook (setDelayMs delay) ;;
    modifyHook (setIsRetrying true) ;;
    tid <- setTimeout ;;
    modifyHook (setTimeoutRef (Some tid)) ;;
    ret (AwaitTimer currentAttempt tid).

(** [runAttempt(currentAttempt)] from its entry to [await asyncFn()]. A
    throw of the call itself lands in the [catch] block at once. *)
Definition runAttempt (currentAttempt : nat) : Run (Task T Err) :=
  aborted <- readHook abortRef ;;
  if (aborted : bool) then ret (Fulfilled None)
  else
    tryCatch (p <- callAsyncFn ;; ret (AwaitOp currentAttempt p))
             (catchBlock currentAttempt).

(** [runAttempt] resumed when the promise of [asyncFn()] has settled: the
    rest of the [try] block, under the same [catch]. *)
Definition resumeAfterOp (currentAttempt : nat) (p : Settled T Err) : Run (Task T Err) :=
  tryCatch
    (match p with
     | Resolve result =>
         modifyHook (setIsSuccess true) ;;
         callOnSuccess result ;;
         ret (Fulfilled (Some result))
     | Reject err => throw err
     end)
    (catchBlock currentAttempt).

(** [runAttempt] resumed when the wait promise has resolved: the rest of
    the [catch] block, which no [try] covers. *)
Definition resumeAfterWait (currentAttempt : nat) : Run (Task T Err) :=
  aborted <- readHook abortRef ;;
  if (aborted : bool) then ret (Fulfilled None)
  else
    let nextAttempt := (currentAttempt + 1)%nat in
    modifyHook (setAttemptRef nextAttempt) ;;
    modifyHook (setAttempt nextAttempt) ;;
    modifyHook (setIsRetrying false) ;;
    modifyHook (setDelayMs 0%Q) ;;
    runAttempt nextAttempt.

(** [execute()], called through the closure of a render that saw
    [isRetrying = seen]. *)
Definition execute (seen : bool) : Run (Task T Err) :=
  if seen then ret (Fulfilled None)
  else
    modifyHook (setAbortRef false) ;;
    modifyHook (setAttemptRef 1) ;;
    modifyHook (setAttempt 1) ;;
    modifyHook (setIsSuccess false) ;;
    modifyHook (setIsFailed false) ;;
    modifyHook (setError None) ;;
    modifyHook (setDelayMs 0%Q) ;;
    runAttempt 1.

Definition abort : Run unit :=
  modifyHook (setAbortRef true) ;;
  current <- readHook timeoutRef ;;
  match current with
  | Some tid => clearTimeout tid ;; modifyHook (setTimeoutRef None)
  | None => ret tt
  end ;;
  modifyHook (setIsRetrying false) ;;
  modifyHook (setDelayMs 0%Q).

Definition reset : Run unit :=
  abort ;;
  modifyHook (setAttempt 0) ;;
  modifyHook (setIsSuccess false) ;;
  modifyHook (setIsFailed false) ;;
  modifyHook (setError None) ;;
  modifyHook (setDelayMs 0%Q) ;;
  modifyHook (setAttemptRef 0).

(** ** The event loop *)

(** An async function that throws rejects its promise. *)
Definition asPromise (c : Run (Task T Err)) (m : Machine T Err)
    : Task T Err * Machine T Err :=
  match c m with
  | (Normal t, m') => (t, m')
  | (Thrown x, m') => (Rejected x, m')
  end.

Definition noteSettled (i : nat) (t : Task T Err) (l : list (Event T Err)) :=
  if settled t then l ++ [PromiseSettled i t] else l.

(** A new promise, for a call of [execute]. *)
Definition spawn (r : Task T Err * Machine T Err) : Machine T Err :=
  let '(t, mkMachine h ts tm nt oc rc l) := r in
  mkMachine h (ts ++ [t]) tm nt oc rc (noteSettled (length ts) t l).

(** The promise [i] moves on to [t]. *)
Definition store (i : nat) (r : Task T Err * Machine T Err) : Machine T Err :=
  let '(t, mkMachine h ts tm nt oc rc l) := r in
  mkMachine h (<[i := t]> ts) tm nt oc rc (noteSettled i t l).

Definition disarm (tid : nat) (m : Machine T Err) : Machine T Err :=
  let 'mkMachine h ts tm nt oc rc l := m in
  mkMachine h ts (removeTimer tid tm) nt oc rc l.

Definition step (m : Machine T Err) (a : Action) : Machine T Err :=
  match a with
  | CallExecute seen => spawn (asPromise (execute seen) m)
  | CallAbort => snd (abort m)
  | CallReset => snd (reset m)
  | OpSettles i =>
      match tasks m !! i with
      | Some (AwaitOp n p) => store i (asPromise (resumeAfterOp n p) m)
      | _ => m
      end
  | TimerFires i =>
      match tasks m !! i with
      | Some (AwaitTimer n tid) =>
          if timerLive tid (timers m)
          then store i (asPromise (resumeAfterWait n) (disarm tid m))
          else m
      | _ => m
      end
  end.

Definition run (m : Machine T Err) (l : list Action) : Machine T Err :=
  fold_left step l m.

(** The host delivering to promise [i] whatever it waits for, until it
    settles: the operation's promise settles, the timer fires. *)
Fixpoint drive (fuel : nat) (i : nat) (m : Machine T Err) : Machine T Err :=
  match fuel with
  | O => m
  | S fuel' =>
      match tasks m !! i with
      | Some (AwaitOp _ _) => drive fuel' i (step m (OpSettles i))
      | Some (AwaitTimer _ _) => drive fuel' i (step m (TimerFires i))
      | _ => m
      end
  end.

(** The calls of [onFailure] and of [onSuccess] recorded in a log. *)
Definition onFailureCalls (l : list (Event T Err)) : list (Err * nat) :=
  flat_map (fun e => match e with CalledOnFailure x n => [(x, n)] | _ => [] end) l.
Definition onSuccessCalls (l : list (Event T Err)) : list T :=
  flat_map (fun e => match e with CalledOnSuccess v => [v] | _ => [] end) l.
End UseRetry.

(** ** Vocabulary of the statements *)

Section Vocabulary.
Context {T Err : Type}.
Variable o : UseRetryOptions T Err.

(** The error a call of the operation fails with, whether thrown by the
    call or carried by the rejected promise. *)
Definition failure (r : CallResult T Err) : option Err :=
  match r with
  | Throws x => Some x
  | Returns (Reject x) => Some x
  | Returns (Resolve _) => None
  end.

(** The machine right after [asyncFn()] was called. *)
Definition afterCall (m : Machine T Err) : Machine T Err :=
  let 'mkMachine h ts tm nt oc rc l := m in
  mkMachine h ts tm nt (S oc) rc (l ++ [CalledOp]).

(** The terminal branch of the [catch] block, written out: what it leaves
    behind and how it completes.  [asked] tells whether [shouldRetry] was
    consulted (it is not when the attempts are exhausted). *)
Definition failedMachine (e : Err) (n : nat) (asked : bool)
    (m : Machine T Err) : Machine T Err :=
  let 'mkMachine h ts tm nt oc rc l := m in
  let l1 := if asked then l ++ [CalledShouldRetry e n] else l in
  mkMachine (setError (Some e) (setIsFailed true h)) ts tm nt oc rc
            (match onFailure o with
             | Some _ => l1 ++ [CalledOnFailure e n]
             | None => l1
             end).

Definition failureOutcome (e : Err) (n : nat) : Completion Err (Task T Err) :=
  match onFailure o with
  | Some f => match f e n with
              | Normal _ => Normal (Fulfilled None)
              | Thrown x => Thrown x
              end
  | None => Normal (Fulfilled None)
  end.

(** The calls of [onFailure] a terminal failure makes. *)
Definition reported (e : Err) (n : nat) : list (Err * nat) :=
  match onFailure o with
  | Some _ => [(e, n)]
  | None => []
  end.

(** The promise a terminal failure settles: [null], unless [onFailure]
    threw. *)
Definition failureTask (e : Err) (n : nat) : Task T Err :=
  match failureOutcome e n with
  | Normal t => t
  | Thrown x => Rejected x
  end.

(** The retry branch of the [catch] block, written out. *)
Definition waitingMachine (e : Err) (n : nat) (rnd : Q)
    (m : Machine T Err) : Machine T Err :=
  let 'mkMachine h ts tm nt oc rc l := m in
  mkMachine
    (setTimeoutRef (Some nt)
       (setIsRetrying true (setDelayMs (calculateDelay o rnd n) h)))
    ts (nt :: tm) (S nt) oc (S rc) (l ++ [CalledShouldRetry e n]).

Definition withHook (h : HookState Err) (m : Machine T Err) : Machine T Err :=
  let 'mkMachine _ ts tm nt oc rc l := m in mkMachine h ts tm nt oc rc l.

Definition withMaxAttempts (n : nat) : UseRetryOptions T Err :=
  mkOptions n (initialDelayMs o) (maxDelayMs o) (backoffMultiplier o) (jitter o)
            (shouldRetry o) (onSuccess o) (onFailure o) (autoStart o).

(** The id in [timeoutRef] once attempt [n] of the first sequence of a
    fresh hook has started. *)
Definition lastTimer (n : nat) : option nat :=
  match n with
  | 0 | 1 => None
  | S n' => Some n'
  end.

(** The single promise of a machine moved on to [t]. *)
Definition place (r : Task T Err * Machine T Err) : Machine T Err :=
  let '(t, mkMachine h _ tm nt oc rc l) := r in
  mkMachine h [t] tm nt oc rc (noteSettled 0 t l).

(** What no run of the hook's code does: it leaves the promises alone,
    timer ids only grow, and a timer that is not armed stays so. *)
Definition Grows (m m' : Machine T Err) : Prop :=
  tasks m' = tasks m /\
  (nextTimer m <= nextTimer m')%nat /\
  forall tid, (tid < nextTimer m)%nat ->
              timerLive tid (timers m') = true -> timerLive tid (timers m) = true.

Definition Framed {A : Type} (c : @Sync T Err A) : Prop :=
  forall m, Grows m (snd (c m)).

(** The callbacks of the options return: none of them throws. *)
Definition callbacksReturn : Prop :=
  (forall e n, exists b, shouldRetry o e n = Normal b) /\
  (forall f e n, onFailure o = Some f -> f e n = Normal tt) /\
  (forall f v, onSuccess o = Some f -> f v = Normal tt).

Definition notRejected (t : Task T Err) : bool :=
  match t with
  | Rejected _ => false
  | _ => true
  end.

Definition allNotRejected (m : Machine T Err) : Prop :=
  Forall (fun t => notRejected t = true) (tasks m).

(** Promise [i] waits for a timer that is not armed and whose id will not
    be handed out again. *)
Definition Stuck (i n tid : nat) (m : Machine T Err) : Prop :=
  tasks m !! i = Some (AwaitTimer n tid) /\
  timerLive tid (timers m) = false /\
  (tid < nextTimer m)%nat.

(** Attempt [k] of the first sequence of a fresh hook is about to call the
    operation: [runAttempt k] is entered. *)
Definition Entering (k : nat) (m : Machine T Err) : Prop :=
  hook m = mkHook k false false false 0%Q None false (lastTimer k) k /\
  opCalls m = pred k /\ nextTimer m = k /\ timers m = [] /\
  onFailureCalls (log m) = [].

(** That sequence has ended in failure at attempt [n], with error [e]. *)
Definition FailedAt (n : nat) (e : Err) (m : Machine T Err) : Prop :=
  hook m = mkHook n false false true 0%Q (Some e) false (lastTimer n) n /\
  tasks m = [failureTask e n] /\
  opCalls m = n /\
  onFailureCalls (log m) = reported e n /\
  timers m = [].

(** Actions of the host, as opposed to calls by the owner of the hook. *)
Definition hostAction (a : Action) : bool :=
  match a with
  | OpSettles _ | TimerFires _ => true
  | CallExecute _ | CallAbort | CallReset => false
  end.
End Vocabulary.

(** ** Scenarios *)

(** Three attempts, both callbacks present and well behaved. *)
Definition threeAttempts : UseRetryOptions nat nat :=
  mkOptions 3 10%Q 30000%Q 2%Q (1 # 10)%Q (fun _ _ => Normal true)
            (Some (fun _ => Normal tt)) (Some (fun _ _ => Normal tt)) false.

(** Five attempts, and a [shouldRetry] that refuses every error. *)
Definition fiveAttemptsNoRetry : UseRetryOptions nat nat :=
  mkOptions 5 1000%Q 30000%Q 2%Q (1 # 10)%Q (fun _ _ => Normal false)
            None (Some (fun _ _ => Normal tt)) false.

(** Callbacks that throw: [shouldRetry], [onFailure], [onSuccess]. *)
Definition throwingShouldRetry : UseRetryOptions nat nat :=
  mkOptions 3 1000%Q 30000%Q 2%Q (1 # 10)%Q (fun _ _ => Thrown 66) None None false.
Definition throwingOnSuccess : UseRetryOptions nat nat :=
  mkOptions 1 1000%Q 30000%Q 2%Q (1 # 10)%Q (fun _ _ => Normal true)
            (Some (fun _ => Thrown 77)) (Some (fun _ _ => Normal tt)) false.

(** An operation whose promise rejects every time, with error [100 + k] at
    call [k]; one that throws once and then resolves with 42. *)
Definition alwaysRejects : nat -> CallResult nat nat :=
  fun k => Returns (Reject (100 + k)).
Definition failsOnce : nat -> CallResult nat nat :=
  fun k => match k with 0 => Throws 7 | _ => Returns (Resolve 42) end.
Definition alwaysResolves : nat -> CallResult nat nat :=
  fun _ => Returns (Resolve 42).
Definition midpoint : nat -> Q := fun _ => (1 # 2)%Q.

(** The first attempt is in flight. *)
Definition runningMachine : Machine nat nat :=
  step threeAttempts alwaysRejects midpoint initialMachine (CallExecute false).

(** The first attempt has failed and the hook waits to retry. *)
Definition waitingMachine1 : Machine nat nat :=
  step threeAttempts alwaysRejects midpoint runningMachine (OpSettles 0).

(** All three attempts have failed. *)
Definition exhaustedMachine : Machine nat nat :=
  drive threeAttempts alwaysRejects midpoint 6 0 runningMachine.


(** ** The rest of useRetry *)

Section Cleanup.
Context {T Err : Type}.
Local Open Scope sync_scope.

(** The cleanup of the unmount effect: the timer in [timeoutRef] is cleared;
    neither the ref nor the abort flag is written. *)
Definition unmountCleanup : @Sync T Err unit :=
  current <- readHook timeoutRef ;;
  match current with
  | Some tid => clearTimeout tid
  | None => ret tt
  end.
End Cleanup.

Section Budget.
Context {T Err : Type}.
Variable o : UseRetryOptions T Err.

Definition isExecute (a : Action) : bool :=
  match a with
  | CallExecute _ => true
  | _ => false
  end.

(** The number of attempts one sequence can make: the first attempt is
    made whatever [maxAttempts] is. *)
Definition attemptCap : nat := Nat.max 1 (maxAttempts o).

(** The calls of the operation a promise accounts for: those made so far
    while it is pending, the cap once it has settled. *)
Definition callsUsed (t : Task T Err) : nat :=
  match t with
  | AwaitOp n _ | AwaitTimer n _ => n
  | Fulfilled _ | Rejected _ => attemptCap
  end.

Definition taskInRange (t : Task T Err) : Prop :=
  match t with
  | AwaitOp n _ => (1 <= n <= attemptCap)%nat
  | AwaitTimer n _ => (1 <= n < maxAttempts o)%nat
  | Fulfilled _ | Rejected _ => True
  end.

(** What a promise can be right after a step of attempt [n]: settled,
    waiting for the operation called at attempt [n], or waiting to retry,
    which takes attempts to be left. *)
Definition okAt (n : nat) (t : Task T Err) : Prop :=
  settled t = true \/
  (exists p, t = AwaitOp n p) \/
  (exists tid, t = AwaitTimer n tid /\ (n < maxAttempts o)%nat).

Definition WithinBudget (m : Machine T Err) : Prop :=
  Forall taskInRange (tasks m) /\
  (attempt (hook m) <= attemptCap)%nat /\
  (opCalls m <= list_sum (map callsUsed (tasks m)))%nat.

(** A single sequence that has not reported both outcomes, and has
    reported none while its promise is pending. *)
Definition OneOutcome (m : Machine T Err) : Prop :=
  exists t, tasks m = [t] /\
    (isSuccess (hook m) && isFailed (hook m) = false) /\
    (settled t = false -> isSuccess (hook m) = false /\ isFailed (hook m) = false).

(** The first sequence of a fresh hook has ended in success at attempt [n],
    with value [v], and no failure was reported. *)
Definition SucceededAt (n : nat) (v : T) (m : Machine T Err) : Prop :=
  hook m = mkHook n false true false 0%Q None false (lastTimer n) n /\
  tasks m = [Fulfilled (Some v)] /\
  opCalls m = n /\
  onFailureCalls (log m) = [] /\
  onSuccessCalls (log m) = match onSuccess o with Some _ => [v] | None => [] end /\
  timers m = [].

(** A run that returns a promise and keeps to that. *)
Definition outcomeOk (r : Completion Err (Task T Err) * Machine T Err) : Prop :=
  exists t, fst r = Normal t /\
    (isSuccess (hook (snd r)) && isFailed (hook (snd r)) = false) /\
    (settled t = false ->
     isSuccess (hook (snd r)) = false /\ isFailed (hook (snd r)) = false).
End Budget.

(** * useErrorHandler (hooks/src/useErrorHandler.ts) *)

(** [options] after destructuring; [maxErrors] is whatever integer the
    caller passed, 10 by default. *)
Record UseErrorHandlerOptions (Err : Type) : Type := mkHandlerOptions {
  maxErrors : Z;
  onError : option (Err -> Completion Err unit)
}.
Arguments mkHandlerOptions {Err}.
Arguments maxErrors {Err} _.
Arguments onError {Err} _.

Definition defaultHandlerOptions {Err : Type} : UseErrorHandlerOptions Err :=
  mkHandlerOptions 10%Z None.

(** The [errors] state cell, and the calls of [onError] seen so far. *)
Record HandlerState (Err : Type) : Type := mkHandler {
  errors : list Err;
  onErrorCalls : list Err
}.
Arguments mkHandler {Err}.
Arguments errors {Err} _.
Arguments onErrorCalls {Err} _.

Definition initialHandler {Err : Type} : HandlerState Err := mkHandler [] [].

(** [array.slice(0, stop)]: a negative [stop] counts from the end. *)
Definition sliceTo {A : Type} (stop : Z) (l : list A) : list A :=
  let len := Z.of_nat (length l) in
  let final := if (stop <? 0)%Z then Z.max (len + stop) 0 else Z.min stop len in
  firstn (Z.to_nat final) l.

Section UseErrorHandler.
Context {Err : Type}.
Variable o : UseErrorHandlerOptions Err.

(** [handleError(error)]: [onError?.(error)], then the functional update
    [prev => [error, ...prev].slice(0, maxErrors)]. *)
Definition handleError (e : Err) (s : HandlerState Err)
    : Completion Err unit * HandlerState Err :=
  match onError o with
  | Some f =>
      match f e with
      | Normal _ =>
          (Normal tt,
           mkHandler (sliceTo (maxErrors o) (e :: errors s)) (onErrorCalls s ++ [e]))
      | Thrown x => (Thrown x, mkHandler (errors s) (onErrorCalls s ++ [e]))
      end
  | None => (Normal tt, mkHandler (sliceTo (maxErrors o) (e :: errors s)) (onErrorCalls s))
  end.

Definition clearErrors (s : HandlerState Err) : HandlerState Err :=
  mkHandler [] (onErrorCalls s).

(** [errors[0] || null] *)
Definition latestError (s : HandlerState Err) : option Err := head (errors s).

(** What the owner of the hook does with it. *)
Inductive HandlerCall : Type :=
| HandleError (e : Err)
| ClearErrors.

Definition handlerStep (s : HandlerState Err) (c : HandlerCall) : HandlerState Err :=
  match c with
  | HandleError e => snd (handleError e s)
  | ClearErrors => clearErrors s
  end.

Definition handlerRun (s : HandlerState Err) (l : list HandlerCall) : HandlerState Err :=
  fold_left handlerStep l s.
End UseErrorHandler.

(** A history of two, with an [onError] that returns; an [onError] that
    throws. *)
Definition keepTwo : UseErrorHandlerOptions nat :=
  mkHandlerOptions 2%Z (Some (fun _ => Normal tt)).
Definition throwingOnError : UseErrorHandlerOptions nat :=
  mkHandlerOptions 10%Z (Some (fun _ => Thrown 55%nat)).

(** No jitter: three attempts, delays of 10, 20, ... milliseconds. *)
Definition noJitter : UseRetryOptions nat nat :=
  mkOptions 3 10%Q 30000%Q 2%Q 0%Q (fun _ _ => Normal true) None None false.

(** The first attempt of an operation that resolves is in flight. *)
Definition resolvingMachine : Machine nat nat :=
  step threeAttempts alwaysResolves midpoint initialMachine (CallExecute false).

(** ** Renders: the [execute] in the caller's hands *)

(** [execute] comes out of [useCallback]: a render hands out a new closure
    only when one of the listed dependencies ([asyncFn] and the options) has
    changed identity, and [isRetrying] is not listed.  The closure the
    caller holds therefore reads the [isRetrying] of the render that built
    it, [captured]. *)
Record Component (T Err : Type) : Type := mkComponent {
  machine : Machine T Err;
  captured : bool
}.
Arguments mkComponent {T Err}.
Arguments machine {T Err} _.
Arguments captured {T Err} _.

(** What happens to a mounted component.  [Renders depsChanged] is a render
    at which a dependency of [execute] has a new identity or not; the calls
    are made on the functions of the latest render. *)
Inductive Occurrence : Type :=
| Renders (depsChanged : bool)
| ExecuteCalled
| AbortCalled
| ResetCalled
| OperationSettles (promise : nat)
| TimeoutElapses (promise : nat).

Section Renders.
Context {T Err : Type}.
Variable o : UseRetryOptions T Err.
Variable asyncFn : nat -> CallResult T Err.
Variable random : nat -> Q.

(** The first render, followed by the effect
    [useEffect(() => { if (autoStart) execute() }, [autoStart, execute])]. *)
Definition mount : Component T Err :=
  mkComponent
    (if autoStart o then step o asyncFn random initialMachine (CallExecute false)
     else initialMachine)
    false.

(** A render with changed dependencies builds a new [execute], which reads
    the current [isRetrying]; the effect above has [execute] among its
    dependencies and runs again. *)
Definition componentStep (c : Component T Err) (ev : Occurrence) : Component T Err :=
  let 'mkComponent m seen := c in
  match ev with
  | Renders depsChanged =>
      if depsChanged then
        let seen' := isRetrying (hook m) in
        mkComponent
          (if autoStart o then step o asyncFn random m (CallExecute seen') else m)
          seen'
      else c
  | ExecuteCalled => mkComponent (step o asyncFn random m (CallExecute seen)) seen
  | AbortCalled => mkComponent (step o asyncFn random m CallAbort) seen
  | ResetCalled => mkComponent (step o asyncFn random m CallReset) seen
  | OperationSettles i => mkComponent (step o asyncFn random m (OpSettles i)) seen
  | TimeoutElapses i => mkComponent (step o asyncFn random m (TimerFires i)) seen
  end.

Definition componentRun (c : Component T Err) (l : list Occurrence) : Component T Err :=
  fold_left componentStep l c.

(** No dependency of [execute] changes: [asyncFn] and the callbacks of the
    options are referentially stable. *)
Definition stableDeps (ev : Occurrence) : bool :=
  match ev with
  | Renders true => false
  | _ => true
  end.
End Renders.

(** The hook waits after a first failure; the caller's [execute] was built
    by the first render (stable dependencies), or by a render during the
    wait (a dependency changed). *)
Definition waitingStale : Component nat nat :=
  componentRun threeAttempts alwaysRejects midpoint
    (mount threeAttempts alwaysRejects midpoint)
    [ExecuteCalled; OperationSettles 0; Renders false].
Definition waitingFresh : Component nat nat :=
  componentRun threeAttempts alwaysRejects midpoint
    (mount threeAttempts alwaysRejects midpoint)
    [ExecuteCalled; OperationSettles 0; Renders true].

(** [autoStart] with the default options: [shouldRetry] defaults to a new
    function at every render. *)
Definition autoStarted : UseRetryOptions nat nat :=
  mkOptions 3 1000%Q 30000%Q 2%Q (1 # 10)%Q (fun _ _ => Normal true) None None true.

(** ** A later sequence against the first sequence of a fresh hook *)

Definition mapCompletion {Err A B : Type} (g : A -> B) (c : Completion Err A)
    : Completion Err B :=
  match c with
  | Normal a => Normal (g a)
  | Thrown x => Thrown x
  end.

Section Replay.
Context {T Err : Type}.
(** The hook as it is when the later sequence starts: what it carries over
    are its promises, its log and the counters of the host. *)
Variable before : Machine T Err.

(** The timer a fresh host numbers [tid], on the host of [before]. *)
Definition shiftTimer (tid : nat) : nat := (tid + (nextTimer before - 1))%nat.

Definition rebaseTask (t : Task T Err) : Task T Err :=
  match t with
  | AwaitTimer n tid => AwaitTimer n (shiftTimer tid)
  | _ => t
  end.

Definition rebaseEvent (e : Event T Err) : Event T Err :=
  match e with
  | PromiseSettled i t => PromiseSettled (length (tasks before) + i) (rebaseTask t)
  | _ => e
  end.

Definition rebaseHook (h : HookState Err) : HookState Err :=
  let 'mkHook a r s f d e ab tr ar := h in
  mkHook a r s f d e ab (option_map shiftTimer tr) ar.

(** A machine of the fresh hook, seen on the hook of [before]: the promises
    come after those of [before], timers and calls are numbered on from
    its counters, the log goes on from its log. *)
Definition rebase (f : Machine T Err) : Machine T Err :=
  let 'mkMachine h ts tm nt oc rc l := f in
  mkMachine (rebaseHook h) (tasks before ++ (rebaseTask <$> ts)) (shiftTimer <$> tm)
            (shiftTimer nt) (oc + opCalls before) (rc + randCalls before)
            (log before ++ (rebaseEvent <$> l)).

(** An action on the hook of [before], as the fresh hook sees it; a
    settlement or a timer of a promise of [before] is none of its own. *)
Definition rebaseAction (a : Action) : option Action :=
  match a with
  | OpSettles i =>
      if (i <? length (tasks before))%nat then None
      else Some (OpSettles (i - length (tasks before)))
  | TimerFires i =>
      if (i <? length (tasks before))%nat then None
      else Some (TimerFires (i - length (tasks before)))
  | _ => Some a
  end.

(** What the operation and [Math.random()] do from there on. *)
Definition laterCalls (asyncFn : nat -> CallResult T Err) : nat -> CallResult T Err :=
  fun k => asyncFn (k + opCalls before)%nat.
Definition laterDraws (random : nat -> Q) : nat -> Q :=
  fun k => random (k + randCalls before)%nat.

(** A run on the hook of [before] does what [cf] does on the fresh hook. *)
Definition Replays {A : Type} (g : A -> A) (cm cf : @Sync T Err A) : Prop :=
  forall f, cm (rebase f) = (mapCompletion g (fst (cf f)), rebase (snd (cf f))).

(** Nothing of [before] is still pending. *)
Definition quiescent : Prop :=
  Forall (fun t => settled t = true) (tasks before) /\ timers before = [] /\
  (1 <= nextTimer before)%nat.
End Replay.

(** A sequence that ended in success at its second attempt. *)
Definition recoveredMachine : Machine nat nat :=
  drive threeAttempts failsOnce midpoint 3 0
    (step threeAttempts failsOnce midpoint initialMachine (CallExecute false)).

Section Pending.
Context {T Err : Type}.

(** Every armed timer is awaited by a promise. *)
Definition TimersAwaited (m : Machine T Err) : Prop :=
  forall tid, timerLive tid (timers m) = true ->
  exists i n, tasks m !! i = Some (AwaitTimer n tid).

(** A run leaves the promises alone and arms at most one timer, the one
    its result waits for. *)
Definition ArmsOwn (c : @Sync T Err (Task T Err)) : Prop :=
  forall m,
    tasks (snd (c m)) = tasks m /\
    forall tid, timerLive tid (timers (snd (c m))) = true ->
      timerLive tid (timers m) = true \/
      exists n, fst (c m) = Normal (AwaitTimer n tid).
End Pending.

(** * calculateDelay in the arithmetic of the code

    JavaScript computes on IEEE-754 binary64 numbers: every operation
    yields the representable number nearest to the exact result (ties to
    even), overflows to an infinity, and propagates NaN.  The numbers are
    the [spec_float] of the standard library at precision 53 and maximal
    exponent 1024; an operation on finite numbers is the exact operation on
    the rationals they stand for, followed by rounding. *)

(** A JavaScript number. *)
Definition number : Type := spec_float.

Definition pow2 (e : Z) : Q := (2 ^ e)%Q.

(** The rational a finite number stands for. *)
Definition SF2Q (x : number) : Q :=
  match x with
  | S754_finite s m e => (inject_Z (cond_Zopp s (Zpos m)) * pow2 e)%Q
  | _ => 0%Q
  end.

(** [floor (log2 q)], for [q > 0]. *)
Definition ilog2 (q : Q) : Z :=
  let k := (Z.log2 (Qnum q) - Z.log2 (Zpos (Qden q)))%Z in
  if Qle_bool (pow2 k) q then k else (k - 1)%Z.

(** The exponent of the last bit of the binary64 numbers around [q > 0]:
    53 bits of precision, subnormal below [2^-1022]. *)
Definition ulpExp (q : Q) : Z := Z.max (ilog2 q - 52) (-1074).

(** To the nearest integer, ties to even. *)
Definition roundEven (x : Q) : Z :=
  let f := Qfloor x in
  match (x - inject_Z f ?= 1 # 2)%Q with
  | Lt => f
  | Gt => (f + 1)%Z
  | Eq => if Z.even f then f else (f + 1)%Z
  end.

(** The multiple of the last bit nearest to [q > 0]. *)
Definition roundPos (q : Q) : Q :=
  (inject_Z (roundEven (q / pow2 (ulpExp q))) * pow2 (ulpExp q))%Q.

(** The nearest value, before overflow is looked at. *)
Definition roundQ (q : Q) : Q :=
  match (q ?= 0)%Q with
  | Eq => 0%Q
  | Gt => roundPos q
  | Lt => (- roundPos (- q))%Q
  end.

(** The number for [q > 0] with sign [s]: the mantissa holds 53 bits, fewer
    for a subnormal; beyond the largest exponent the result is infinite. *)
Definition toNumber (s : bool) (q : Q) : number :=
  let e := ulpExp q in
  let n := roundEven (q / pow2 e) in
  if (n =? 0)%Z then S754_zero s
  else
    let '(n', e') := if (n =? 2 ^ 53)%Z then ((2 ^ 52)%Z, (e + 1)%Z) else (n, e) in
    if (971 <? e')%Z then S754_infinity s else S754_finite s (Z.to_pos n') e'.

(** Rounding to nearest, ties to even; [zero] is the sign an exact zero gets. *)
Definition round64 (zero : bool) (q : Q) : number :=
  match (q ?= 0)%Q with
  | Eq => S754_zero zero
  | Gt => toNumber false q
  | Lt => toNumber true (- q)
  end.

Definition signOf (x : number) : bool :=
  match x with
  | S754_zero s | S754_infinity s | S754_finite s _ _ => s
  | S754_nan => false
  end.

Definition isFinite (x : number) : bool :=
  match x with
  | S754_zero _ | S754_finite _ _ _ => true
  | S754_infinity _ | S754_nan => false
  end.

(** [x * y] *)
Definition mul64 (x y : number) : number :=
  match x, y with
  | S754_nan, _ | _, S754_nan => S754_nan
  | S754_infinity _, S754_zero _ | S754_zero _, S754_infinity _ => S754_nan
  | S754_infinity sx, _ => S754_infinity (xorb sx (signOf y))
  | _, S754_infinity sy => S754_infinity (xorb (signOf x) sy)
  | _, _ => round64 (xorb (signOf x) (signOf y)) (SF2Q x * SF2Q y)
  end.

(** [x + y] *)
Definition add64 (x y : number) : number :=
  match x, y with
  | S754_nan, _ | _, S754_nan => S754_nan
  | S754_infinity sx, S754_infinity sy => if Bool.eqb sx sy then x else S754_nan
  | S754_infinity _, _ => x
  | _, S754_infinity _ => y
  | _, _ =>
      round64 (match x, y with
               | S754_zero sx, S754_zero sy => sx && sy
               | _, _ => false
               end) (SF2Q x + SF2Q y)
  end.

(** [x - y] *)
Definition sub64 (x y : number) : number := add64 x (SFopp y).

(** [x < y] and [x <= y]; false when an operand is NaN. *)
Definition lt64 (x y : number) : bool :=
  match x, y with
  | S754_nan, _ | _, S754_nan => false
  | S754_infinity sx, S754_infinity sy => sx && negb sy
  | S754_infinity sx, _ => sx
  | _, S754_infinity sy => negb sy
  | _, _ => negb (Qle_bool (SF2Q y) (SF2Q x))
  end.
Definition le64 (x y : number) : bool :=
  match x, y with
  | S754_nan, _ | _, S754_nan => false
  | S754_infinity sx, S754_infinity sy => sx || negb sy
  | S754_infinity sx, _ => sx
  | _, S754_infinity sy => negb sy
  | _, _ => Qle_bool (SF2Q x) (SF2Q y)
  end.

(** [Math.min(x, y)]: NaN if an argument is; [-0] counts as below [+0]. *)
Definition mathMin (x y : number) : number :=
  match x, y with
  | S754_nan, _ | _, S754_nan => S754_nan
  | _, _ => if lt64 x y then x else if lt64 y x then y
            else if signOf x then x else y
  end.

(** The number of an integer and of a decimal literal. *)
Definition ofZ (z : Z) : number := round64 false (inject_Z z).
Definition ofQ (q : Q) : number := round64 false q.

Definition zero64 : number := S754_zero false.
Definition one64 : number := ofZ 1.
(** A bound that keeps every intermediate result away from overflow. *)
Definition huge64 : number := ofQ (pow2 500).

(** [x] is a binary64 number and lies between [lo] and [hi]. *)
Definition within (lo hi x : number) : bool :=
  valid_binary 53 1024 x && le64 lo x && le64 x hi.

(** [x] is the finite number of value [q]. *)
Definition Holds (x : number) (q : Q) : Prop :=
  isFinite x = true /\ (SF2Q x == q)%Q /\ (roundQ q == q)%Q.

Section CalculateDelay64.
(** [Math.pow], which the host computes to an accuracy of its own. *)
Variable mathPow : number -> number -> number.
Variables initialDelayMs maxDelayMs backoffMultiplier jitter : number.

Definition cappedDelay64 (currentAttempt : nat) : number :=
  mathMin
    (mul64 initialDelayMs
       (mathPow backoffMultiplier (sub64 (ofZ (Z.of_nat currentAttempt)) (ofZ 1))))
    maxDelayMs.

(** [calculateDelay(currentAttempt)], [rnd] being what [Math.random()]
    returned. *)
Definition calculateDelay64 (rnd : number) (currentAttempt : nat) : number :=
  let baseDelay :=
    mul64 initialDelayMs
      (mathPow backoffMultiplier (sub64 (ofZ (Z.of_nat currentAttempt)) (ofZ 1))) in
  let cappedDelay := mathMin baseDelay maxDelayMs in
  let jitterAmount := mul64 cappedDelay jitter in
  let minDelay := sub64 cappedDelay jitterAmount in
  let maxDelay := add64 cappedDelay jitterAmount in
  add64 minDelay (mul64 rnd (sub64 maxDelay minDelay)).
End CalculateDelay64.

(** A [Math.pow] for the runs below: the exact power for a whole exponent,
    rounded. *)
Definition powRounded (b e : number) : number :=
  if isFinite b && isFinite e then round64 false (SF2Q b ^ Qfloor (SF2Q e))%Q
  else S754_nan.

(** The operations of the standard library's specification of IEEE-754
    arithmetic, at binary64, and numbers to compare them on: decimal
    fractions, ties, subnormals, the largest finite numbers, zeros,
    infinities and NaN. *)
Definition sameNumber (x y : number) : bool :=
  match x, y with
  | S754_zero a, S754_zero b => Bool.eqb a b
  | S754_infinity a, S754_infinity b => Bool.eqb a b
  | S754_nan, S754_nan => true
  | S754_finite a m e, S754_finite b m' e' => Bool.eqb a b && Pos.eqb m m' && Z.eqb e e'
  | _, _ => false
  end.

Definition samples : list number :=
  [ofQ (1 # 10); ofQ (3 # 10); ofZ 3; ofZ 1000; ofQ (11 # 10); ofZ 0; S754_zero true;
   ofQ (-1 # 3); S754_infinity false; S754_infinity true; S754_nan;
   S754_finite false 1 (-1074); S754_finite false 4503599627370495 (-1074);
   S754_finite false 9007199254740991 971; S754_finite true 9007199254740991 971;
   ofZ 9007199254740993; ofQ (45035996273704965 # 10)].

Definition agreeOn (f g : number -> number -> number) : bool :=
  forallb (fun x => forallb (fun y => sameNumber (f x y) (g x y)) samples) samples.
Definition agreeOnTest (f g : number -> number -> bool) : bool :=
  forallb (fun x => forallb (fun y => Bool.eqb (f x y) (g x y)) samples) samples.

(** * Properties *)

(** ** The delay window *)

Section DelayFacts.
Context {T Err : Type}.
Variable o : UseRetryOptions T Err.

Lemma calculateDelay_unfold (rnd : Q) (n : nat) :
  calculateDelay o rnd n =
  ((cappedDelay o n - cappedDelay o n * jitter o)
   + rnd * ((cappedDelay o n + cappedDelay o n * jitter o)
            - (cappedDelay o n - cappedDelay o n * jitter o)))%Q.
Proof. reflexivity. Qed.

End DelayFacts.

(** Opens a machine into its fields, hook included. *)
Ltac explode m :=
  let a := fresh "a" in let r := fresh "r" in let s := fresh "s" in
  let f := fresh "f" in let d := fresh "d" in let e := fresh "e" in
  let ab := fresh "ab" in let tr := fresh "tr" in let ar := fresh "ar" in
  let ts := fresh "ts" in let tm := fresh "tm" in let nt := fresh "nt" in
  let oc := fresh "oc" in let rc := fresh "rc" in let l := fresh "l" in
  destruct m as [[a r s f d e ab tr ar] ts tm nt oc rc l].

(** ** The catch block, one branch at a time *)

Section StepFacts.
Context {T Err : Type}.
Variable o : UseRetryOptions T Err.
Variable asyncFn : nat -> CallResult T Err.
Variable random : nat -> Q.

Local Abbreviation M := (Machine T Err).

Lemma catchBlock_exhausted (m : M) (n : nat) (e : Err) :
  (maxAttempts o <= n)%nat ->
  catchBlock o random n e m = (failureOutcome o e n, failedMachine o e n false m).
Proof.
  intros H. apply Nat.leb_le in H. explode m.
  unfold catchBlock, bind, failureOutcome, failedMachine. rewrite H. cbn.
  unfold callOnFailure. destruct (onFailure o) as [f'|]; cbn; [|reflexivity].
  destruct (f' e n); reflexivity.
Qed.

Lemma catchBlock_disqualified (m : M) (n : nat) (e : Err) :
  (n < maxAttempts o)%nat -> shouldRetry o e n = Normal false ->
  catchBlock o random n e m = (failureOutcome o e n, failedMachine o e n true m).
Proof.
  intros H Hs. apply Nat.leb_gt in H. explode m.
  unfold catchBlock, bind, callShouldRetry, bind, failureOutcome, failedMachine.
  rewrite H. cbn. rewrite Hs. cbn.
  unfold callOnFailure. destruct (onFailure o) as [f'|]; cbn; [|reflexivity].
  destruct (f' e n); reflexivity.
Qed.

Lemma catchBlock_retry (m : M) (n : nat) (e : Err) :
  (n < maxAttempts o)%nat -> shouldRetry o e n = Normal true ->
  catchBlock o random n e m =
  (Normal (AwaitTimer n (nextTimer m)),
   waitingMachine o e n (random (randCalls m)) m).
Proof.
  intros H Hs. apply Nat.leb_gt in H. explode m.
  unfold catchBlock, bind, callShouldRetry, bind. rewrite H. cbn. rewrite Hs.
  reflexivity.
Qed.

Lemma catchBlock_shouldRetry_throws (m : M) (n : nat) (e x : Err) :
  (n < maxAttempts o)%nat -> shouldRetry o e n = Thrown x ->
  catchBlock o random n e m =
  (Thrown x, snd (emit (CalledShouldRetry e n) m)).
Proof.
  intros H Hs. apply Nat.leb_gt in H. explode m.
  unfold catchBlock, bind, callShouldRetry, bind. rewrite H. cbn. rewrite Hs.
  reflexivity.
Qed.

(** A rejected promise lands in the [catch] block. *)
Lemma resumeAfterOp_reject (n : nat) (e : Err) :
  resumeAfterOp o random n (Reject e) = catchBlock o random n e.
Proof. reflexivity. Qed.

(** So does a throw of the call itself. *)
Lemma runAttempt_throws (m : M) (n : nat) (e : Err) :
  abortRef (hook m) = false -> asyncFn (opCalls m) = Throws e ->
  runAttempt o asyncFn random n m = catchBlock o random n e (afterCall m).
Proof.
  explode m. cbn. intros Ha Hc.
  unfold runAttempt, bind, readHook, tryCatch, callAsyncFn. cbn.
  rewrite Ha, Hc. reflexivity.
Qed.

Lemma runAttempt_returns (m : M) (n : nat) (p : Settled T Err) :
  abortRef (hook m) = false -> asyncFn (opCalls m) = Returns p ->
  runAttempt o asyncFn random n m = (Normal (AwaitOp n p), afterCall m).
Proof.
  explode m. cbn. intros Ha Hc.
  unfold runAttempt, bind, readHook, tryCatch, callAsyncFn. cbn.
  rewrite Ha, Hc. reflexivity.
Qed.

Lemma runAttempt_aborted (m : M) (n : nat) :
  abortRef (hook m) = true ->
  runAttempt o asyncFn random n m = (Normal (Fulfilled None), m).
Proof.
  intros Ha. unfold runAttempt, bind, readHook. rewrite Ha. reflexivity.
Qed.

Lemma onFailureCalls_app (l1 l2 : list (Event T Err)) :
  onFailureCalls (l1 ++ l2) = onFailureCalls l1 ++ onFailureCalls l2.
Proof. unfold onFailureCalls. apply flat_map_app. Qed.

Lemma onFailureCalls_failedMachine (m : M) (n : nat) (e : Err) (asked : bool) :
  onFailureCalls (log (failedMachine o e n asked m)) =
  onFailureCalls (log m) ++ reported o e n.
Proof.
  explode m. unfold failedMachine, reported; cbn [log].
  destruct (onFailure o), asked; rewrite ?onFailureCalls_app; cbn [onFailureCalls flat_map];
    rewrite ?app_nil_r; reflexivity.
Qed.
End StepFacts.

(** ** What one step does to the promises and the log *)

Section MachineFacts.
Context {T Err : Type}.
Variable o : UseRetryOptions T Err.
Variable asyncFn : nat -> CallResult T Err.
Variable random : nat -> Q.

Local Abbreviation M := (Machine T Err).

Lemma onFailureCalls_noteSettled (i : nat) (t : Task T Err) (l : list (Event T Err)) :
  onFailureCalls (noteSettled i t l) = onFailureCalls l.
Proof.
  unfold noteSettled. destruct (settled t); [|reflexivity].
  rewrite onFailureCalls_app. cbn. apply app_nil_r.
Qed.

Lemma step_OpSettles (m : M) (i n : nat) (p : Settled T Err) :
  tasks m !! i = Some (AwaitOp n p) ->
  step o asyncFn random m (OpSettles i) =
  store i (asPromise (resumeAfterOp o random n p) m).
Proof. intros H. cbn. rewrite H. reflexivity. Qed.

Lemma tasks_store (i : nat) (t : Task T Err) (m : M) :
  tasks (store i (t, m)) = <[i := t]> (tasks m).
Proof. destruct m; reflexivity. Qed.

Lemma lookup_store (i : nat) (t t0 : Task T Err) (m : M) :
  tasks m !! i = Some t0 ->
  tasks (store i (t, m)) !! i = Some t.
Proof.
  intros H. rewrite tasks_store. apply list_lookup_insert_eq.
  apply lookup_lt_is_Some. eauto.
Qed.

Lemma timerLive_head (tid : nat) (l : list nat) : timerLive tid (tid :: l) = true.
Proof. unfold timerLive. cbn. rewrite Nat.eqb_refl. reflexivity. Qed.

Lemma timerLive_removeTimer (tid : nat) (l : list nat) :
  timerLive tid (removeTimer tid l) = false.
Proof.
  unfold timerLive, removeTimer. induction l as [|t l IH]; [reflexivity|].
  cbn. destruct (Nat.eqb tid t) eqn:E; cbn; [exact IH|]. rewrite E. exact IH.
Qed.

(** The [catch] block writes neither [isSuccess] nor the promises. *)
Lemma catchBlock_frame (m : M) (n : nat) (e : Err) :
  let m' := snd (catchBlock o random n e m) in
  isSuccess (hook m') = isSuccess (hook m) /\ tasks m' = tasks m /\
  opCalls m' = opCalls m /\ abortRef (hook m') = abortRef (hook m).
Proof.
  explode m.
  unfold catchBlock, bind, callShouldRetry, callOnFailure, bind, emit, call.
  cbn. destruct (maxAttempts o <=? n)%nat; cbn.
  - destruct (onFailure o) as [f'|]; cbn; [destruct (f' e n)|]; cbn; auto.
  - destruct (shouldRetry o e n) as [[|]|]; cbn; auto.
    destruct (onFailure o) as [f'|]; cbn; [destruct (f' e n)|]; cbn; auto.
Qed.
End MachineFacts.

(** ** The guard of execute, reset, and callbacks that throw *)

Section CallFacts.
Context {T Err : Type}.
Variable o : UseRetryOptions T Err.
Variable asyncFn : nat -> CallResult T Err.
Variable random : nat -> Q.

Local Abbreviation M := (Machine T Err).

Lemma runAttempt_abortRef (m : M) (n : nat) :
  abortRef (hook (snd (runAttempt o asyncFn random n m))) = abortRef (hook m).
Proof.
  destruct (abortRef (hook m)) eqn:Ha.
  - rewrite (runAttempt_aborted _ _ _ _ _ Ha). exact Ha.
  - destruct (asyncFn (opCalls m)) as [p|x] eqn:Hc.
    + rewrite (runAttempt_returns _ _ _ _ _ _ Ha Hc). destruct m; exact Ha.
    + rewrite (runAttempt_throws _ _ _ _ _ _ Ha Hc).
      pose proof (catchBlock_frame o random (afterCall m) n x) as Hf.
      cbn zeta in Hf. rewrite (proj2 (proj2 (proj2 Hf))). destruct m; exact Ha.
Qed.

Lemma hook_spawn_asPromise (c : Sync (Task T Err)) (m : M) :
  hook (spawn (asPromise c m)) = hook (snd (c m)).
Proof. unfold asPromise. destruct (c m) as [[t|x] [h ? ? ? ? ? ?]]; reflexivity. Qed.

(** [execute] past its guard: the seven writes, then the first attempt. *)
Lemma execute_false (m : M) :
  execute o asyncFn random false m =
  runAttempt o asyncFn random 1
    (withHook (mkHook 1 (isRetrying (hook m)) false false 0%Q None false
                      (timeoutRef (hook m)) 1) m).
Proof. explode m. reflexivity. Qed.

Lemma execute_clears_abortRef (m : M) :
  abortRef (hook (step o asyncFn random m (CallExecute false))) = false.
Proof.
  cbn [step]. rewrite hook_spawn_asPromise, execute_false, runAttempt_abortRef.
  destruct m; reflexivity.
Qed.

Lemma hook_reset (m : M) :
  hook (snd (reset m)) = setAbortRef true initialHook.
Proof. explode m. destruct tr; reflexivity. Qed.

Lemma reset_disarms (m : M) (tid : nat) :
  timeoutRef (hook m) = Some tid ->
  timerLive tid (timers (snd (reset m))) = false.
Proof.
  explode m. cbn. intros ->. apply timerLive_removeTimer.
Qed.

Lemma reset_frame (m : M) :
  tasks (snd (reset m)) = tasks m /\ opCalls (snd (reset m)) = opCalls m.
Proof. explode m. destruct tr; split; reflexivity. Qed.

End CallFacts.

Section ThrowFacts.
Context {T Err : Type}.
Variable o : UseRetryOptions T Err.
Variable asyncFn : nat -> CallResult T Err.
Variable random : nat -> Q.

Local Abbreviation M := (Machine T Err).

Lemma failureOutcome_throws (e x : Err) (n : nat)
    (f : Err -> nat -> Completion Err unit) :
  onFailure o = Some f -> f e n = Thrown x ->
  failureOutcome o e n = Thrown x.
Proof. intros Hf Hx. unfold failureOutcome. rewrite Hf, Hx. reflexivity. Qed.

(** The terminal branch is taken on exhaustion and on disqualification. *)
Lemma catchBlock_terminal (m : M) (n : nat) (e : Err) :
  (maxAttempts o <= n)%nat \/ shouldRetry o e n = Normal false ->
  exists asked,
    catchBlock o random n e m = (failureOutcome o e n, failedMachine o e n asked m).
Proof.
  intros H. destruct (Nat.le_gt_cases (maxAttempts o) n) as [Hle|Hgt].
  - exists false. apply catchBlock_exhausted, Hle.
  - destruct H as [H|H]; [lia|]. exists true. apply catchBlock_disqualified; assumption.
Qed.

(** C9: the [catch] block is not itself guarded.  When the promise of the
    operation rejects with [e] at attempt [n] and [shouldRetry(e, n)] throws
    [x] (it is consulted when [n < maxAttempts]), or the failure is terminal
    and [onFailure(e, n)] throws [x], the throw leaves the attempt loop and
    the promise returned by [execute()] rejects with [x]; the same holds
    wherever the [catch] block runs. *)
Theorem callback_throw_rejects_execute (m : M) (i n : nat) (e x : Err) :
  tasks m !! i = Some (AwaitOp n (Reject e)) ->
  ((n < maxAttempts o)%nat /\ shouldRetry o e n = Thrown x) \/
  (((maxAttempts o <= n)%nat \/ shouldRetry o e n = Normal false) /\
   exists f, onFailure o = Some f /\ f e n = Thrown x) ->
  let m' := step o asyncFn random m (OpSettles i) in
  tasks m' !! i = Some (Rejected x) /\
  last (log m') = Some (PromiseSettled i (Rejected x)) /\
  fst (asPromise (catchBlock o random n e) m) = Rejected x.
Proof.
  intros Hi Hx m'. subst m'. rewrite (step_OpSettles _ _ _ _ _ _ _ Hi).
  rewrite resumeAfterOp_reject.
  assert (Hc : fst (catchBlock o random n e m) = Thrown x).
  { destruct Hx as [[Hlt Hs]|[Hterm (f & Hf & Hfx)]].
    - rewrite (catchBlock_shouldRetry_throws _ _ _ _ _ _ Hlt Hs). reflexivity.
    - destruct (catchBlock_terminal m n e Hterm) as [asked ->].
      rewrite (failureOutcome_throws _ _ _ _ Hf Hfx). reflexivity. }
  pose proof (catchBlock_frame o random m n e) as (_ & Ht & _).
  unfold asPromise. destruct (catchBlock o random n e m) as [c m1].
  cbn in Hc, Ht. subst c. cbn [fst].
  split; [|split; [|reflexivity]].
  - apply (lookup_store _ _ (AwaitOp n (Reject e))). rewrite Ht. exact Hi.
  - destruct m1. cbn. apply last_snoc.
Qed.

End ThrowFacts.

(** ** What synchronous code leaves alone *)

Section Frame.
Context {T Err : Type}.

Local Abbreviation M := (Machine T Err).

Lemma Grows_refl (m : M) : Grows m m.
Proof. repeat split; auto. Qed.

Lemma Grows_trans (m1 m2 m3 : M) : Grows m1 m2 -> Grows m2 m3 -> Grows m1 m3.
Proof.
  intros (Ht1 & Hn1 & Hl1) (Ht2 & Hn2 & Hl2). repeat split.
  - congruence.
  - lia.
  - intros tid Hlt Hlive. apply Hl1; [exact Hlt|]. apply Hl2; [lia|exact Hlive].
Qed.

Lemma timerLive_removeTimer_inv (t tid : nat) (l : list nat) :
  timerLive t (removeTimer tid l) = true -> timerLive t l = true.
Proof.
  unfold timerLive, removeTimer. induction l as [|a l IH]; cbn; [auto|].
  destruct (Nat.eqb tid a); cbn.
  - intros H. rewrite (IH H). apply orb_true_r.
  - destruct (Nat.eqb t a); cbn; auto.
Qed.

Lemma Framed_ret {A} (a : A) : Framed (@ret T Err A a).
Proof. intros m. apply Grows_refl. Qed.

Lemma Framed_throw {A} (x : Err) : Framed (@throw T Err A x).
Proof. intros m. apply Grows_refl. Qed.

Lemma Framed_call {A} (c : Completion Err A) : Framed (@call T Err A c).
Proof. intros m. apply Grows_refl. Qed.

Lemma Framed_readHook {A} (f : HookState Err -> A) : Framed (@readHook T Err A f).
Proof. intros m. apply Grows_refl. Qed.

Lemma Framed_modifyHook (f : HookState Err -> HookState Err) :
  Framed (@modifyHook T Err f).
Proof. intros m. destruct m. repeat split; auto. Qed.

Lemma Framed_emit (e : Event T Err) : Framed (emit e).
Proof. intros m. destruct m. repeat split; auto. Qed.

Lemma Framed_bind {A B} (c : @Sync T Err A) (k : A -> @Sync T Err B) :
  Framed c -> (forall a, Framed (k a)) -> Framed (bind c k).
Proof.
  intros Hc Hk m. unfold bind. specialize (Hc m).
  destruct (c m) as [[a|x] m1]; cbn in *; [|exact Hc].
  eapply Grows_trans; [exact Hc|apply Hk].
Qed.

Lemma Framed_tryCatch {A} (body : @Sync T Err A) (handler : Err -> @Sync T Err A) :
  Framed body -> (forall x, Framed (handler x)) -> Framed (tryCatch body handler).
Proof.
  intros Hc Hk m. unfold tryCatch. specialize (Hc m).
  destruct (body m) as [[a|x] m1]; cbn in *; [exact Hc|].
  eapply Grows_trans; [exact Hc|apply Hk].
Qed.

Lemma Framed_setTimeout : Framed (@setTimeout T Err).
Proof.
  intros m. destruct m as [h ts tm nt oc rc l]. repeat split; cbn; [lia|].
  intros tid Hlt. unfold timerLive. cbn.
  destruct (Nat.eqb_spec tid nt); [lia|auto].
Qed.

Lemma Framed_clearTimeout (tid : nat) : Framed (@clearTimeout T Err tid).
Proof.
  intros m. destruct m. repeat split; cbn; [lia|].
  intros t _. apply timerLive_removeTimer_inv.
Qed.

Lemma Grows_disarm (tid : nat) (m : M) : Grows m (disarm tid m).
Proof.
  destruct m. repeat split; cbn; [lia|]. intros t _. apply timerLive_removeTimer_inv.
Qed.
End Frame.

Create HintDb framed.
#[export] Hint Resolve Framed_ret Framed_throw Framed_call Framed_readHook
  Framed_modifyHook Framed_emit Framed_setTimeout Framed_clearTimeout : framed.

(** Walks down a run: binds and handlers first, then the branches. *)
Ltac framed :=
  repeat first
    [ solve [auto with framed]
    | match goal with
      | |- Framed (match ?x with _ => _ end) => destruct x
      end
    | apply Framed_bind; [|intros ?]
    | apply Framed_tryCatch; [|intros ?] ].

Section FrameOfTheHook.
Context {T Err : Type}.
Variable o : UseRetryOptions T Err.
Variable asyncFn : nat -> CallResult T Err.
Variable random : nat -> Q.

Local Abbreviation M := (Machine T Err).

Lemma Framed_callAsyncFn : Framed (callAsyncFn asyncFn).
Proof.
  intros m. destruct m as [h ts tm nt oc rc l]. unfold callAsyncFn.
  destruct (asyncFn oc); repeat split; auto.
Qed.

Lemma Framed_drawDelay (n : nat) : Framed (drawDelay o random n).
Proof. intros m. destruct m. repeat split; auto. Qed.

Lemma Framed_callShouldRetry (e : Err) (n : nat) : Framed (callShouldRetry o e n).
Proof. unfold callShouldRetry. framed. Qed.

Lemma Framed_callOnSuccess (v : T) : Framed (callOnSuccess o v).
Proof. unfold callOnSuccess. framed. Qed.

Lemma Framed_callOnFailure (e : Err) (n : nat) : Framed (callOnFailure o e n).
Proof. unfold callOnFailure. framed. Qed.

Hint Resolve Framed_callAsyncFn Framed_drawDelay Framed_callShouldRetry
  Framed_callOnSuccess Framed_callOnFailure : framed.

Lemma Framed_catchBlock (n : nat) (e : Err) : Framed (catchBlock o random n e).
Proof. unfold catchBlock. framed. Qed.

Hint Resolve Framed_catchBlock : framed.

Lemma Framed_runAttempt (n : nat) : Framed (runAttempt o asyncFn random n).
Proof. unfold runAttempt. framed. Qed.

Hint Resolve Framed_runAttempt : framed.

Lemma Framed_resumeAfterOp (n : nat) (p : Settled T Err) :
  Framed (resumeAfterOp o random n p).
Proof. unfold resumeAfterOp. framed. Qed.

Lemma Framed_resumeAfterWait (n : nat) : Framed (resumeAfterWait o asyncFn random n).
Proof. unfold resumeAfterWait. framed. Qed.

Lemma Framed_execute (seen : bool) : Framed (execute o asyncFn random seen).
Proof. unfold execute. framed. Qed.

Lemma Framed_abort : Framed (@abort T Err).
Proof. unfold abort. framed. Qed.

Hint Resolve Framed_abort : framed.

Lemma Framed_reset : Framed (@reset T Err).
Proof. unfold reset. framed. Qed.

Lemma Grows_asPromise (c : Sync (Task T Err)) (m : M) :
  Framed c -> Grows m (snd (asPromise c m)).
Proof.
  intros Hc. specialize (Hc m). unfold asPromise.
  destruct (c m) as [[t|x] m1]; exact Hc.
Qed.
End FrameOfTheHook.

(** ** Errors of the operation never reject execute *)

Section Swallow.
Context {T Err : Type}.
Variable o : UseRetryOptions T Err.
Variable asyncFn : nat -> CallResult T Err.
Variable random : nat -> Q.
Hypothesis Hcb : callbacksReturn o.

Local Abbreviation M := (Machine T Err).

Lemma failureOutcome_returns (e : Err) (n : nat) :
  failureOutcome o e n = Normal (Fulfilled None).
Proof.
  destruct Hcb as (_ & Hf & _). unfold failureOutcome.
  destruct (onFailure o) as [f|] eqn:E; [|reflexivity].
  rewrite (Hf f e n eq_refl). reflexivity.
Qed.

Lemma catchBlock_returns (m : M) (n : nat) (e : Err) :
  exists t, fst (catchBlock o random n e m) = Normal t /\ notRejected t = true.
Proof.
  destruct (Nat.le_gt_cases (maxAttempts o) n) as [Hle|Hgt].
  - rewrite (catchBlock_exhausted _ _ _ _ _ Hle), failureOutcome_returns. eauto.
  - destruct Hcb as (Hs & _ & _). destruct (Hs e n) as [[|] Hb].
    + rewrite (catchBlock_retry _ _ _ _ _ Hgt Hb). cbn. eauto.
    + rewrite (catchBlock_disqualified _ _ _ _ _ Hgt Hb), failureOutcome_returns. eauto.
Qed.

Lemma runAttempt_returns_task (m : M) (n : nat) :
  exists t, fst (runAttempt o asyncFn random n m) = Normal t /\ notRejected t = true.
Proof.
  destruct (abortRef (hook m)) eqn:Ha.
  - rewrite (runAttempt_aborted _ _ _ _ _ Ha). cbn. eauto.
  - destruct (asyncFn (opCalls m)) as [p|x] eqn:Hc.
    + rewrite (runAttempt_returns _ _ _ _ _ _ Ha Hc). cbn. eauto.
    + rewrite (runAttempt_throws _ _ _ _ _ _ Ha Hc). apply catchBlock_returns.
Qed.

Lemma resumeAfterOp_returns_task (m : M) (n : nat) (p : Settled T Err) :
  exists t, fst (resumeAfterOp o random n p m) = Normal t /\ notRejected t = true.
Proof.
  destruct p as [v|e]; [|rewrite resumeAfterOp_reject; apply catchBlock_returns].
  explode m. unfold resumeAfterOp, tryCatch, bind, callOnSuccess. cbn.
  destruct (onSuccess o) as [f'|] eqn:E; cbn; [|eauto].
  destruct Hcb as (_ & _ & Hs). rewrite (Hs f' v E). cbn. eauto.
Qed.

(** [runAttempt] past the wait: the abort check, the four writes, then
    the next attempt. *)
Lemma resumeAfterWait_eq (m : M) (n : nat) :
  resumeAfterWait o asyncFn random n m =
  if abortRef (hook m) then (Normal (Fulfilled None), m)
  else runAttempt o asyncFn random (n + 1)
         (withHook (setDelayMs 0%Q (setIsRetrying false
            (setAttempt (n + 1) (setAttemptRef (n + 1) (hook m))))) m).
Proof. explode m. destruct ab; reflexivity. Qed.

Lemma resumeAfterWait_returns_task (m : M) (n : nat) :
  exists t, fst (resumeAfterWait o asyncFn random n m) = Normal t /\ notRejected t = true.
Proof.
  rewrite resumeAfterWait_eq.
  destruct (abortRef (hook m)); [cbn; eauto|]. apply runAttempt_returns_task.
Qed.

Lemma execute_returns_task (m : M) (seen : bool) :
  exists t, fst (execute o asyncFn random seen m) = Normal t /\ notRejected t = true.
Proof.
  destruct seen; [cbn; eauto|]. rewrite execute_false. apply runAttempt_returns_task.
Qed.

Lemma asPromise_notRejected (c : Sync (Task T Err)) (m : M) :
  (exists t, fst (c m) = Normal t /\ notRejected t = true) ->
  notRejected (fst (asPromise c m)) = true.
Proof.
  intros (t & Ht & Hn). unfold asPromise.
  destruct (c m) as [[t'|x] m1]; cbn in *; congruence.
Qed.

Lemma tasks_asPromise (c : Sync (Task T Err)) (m : M) :
  Framed c -> tasks (snd (asPromise c m)) = tasks m.
Proof. intros Hc. apply (Grows_asPromise c m Hc). Qed.

Lemma step_notRejected (m : M) (a : Action) :
  allNotRejected m -> allNotRejected (step o asyncFn random m a).
Proof.
  unfold allNotRejected. intros Hm. destruct a as [seen| | |i|i]; cbn [step].
  - pose proof (asPromise_notRejected _ m (execute_returns_task m seen)) as Hn.
    pose proof (tasks_asPromise _ m (Framed_execute o asyncFn random seen)) as Ht.
    destruct (asPromise _ m) as [t [h ts tm nt oc rc l]]. cbn in *. rewrite Ht.
    apply Forall_app. split; [exact Hm|]. constructor; [exact Hn|constructor].
  - rewrite (proj1 (Framed_abort m)). exact Hm.
  - rewrite (proj1 (Framed_reset m)). exact Hm.
  - destruct (tasks m !! i) as [[n p|n tid|r|x]|]; try exact Hm.
    pose proof (asPromise_notRejected _ m (resumeAfterOp_returns_task m n p)) as Hn.
    pose proof (tasks_asPromise _ m (Framed_resumeAfterOp o random n p)) as Ht.
    destruct (asPromise _ m) as [t [h ts tm nt oc rc l]]. cbn in *. rewrite Ht.
    apply Forall_insert; assumption.
  - destruct (tasks m !! i) as [[n p|n tid|r|x]|]; try exact Hm.
    destruct (timerLive tid (timers m)); [|exact Hm].
    pose proof (asPromise_notRejected _ (disarm tid m)
                  (resumeAfterWait_returns_task (disarm tid m) n)) as Hn.
    pose proof (tasks_asPromise _ (disarm tid m)
                  (Framed_resumeAfterWait o asyncFn random n)) as Ht.
    rewrite (proj1 (Grows_disarm tid m)) in Ht.
    destruct (asPromise _ (disarm tid m)) as [t [h ts tm nt oc rc l]]. cbn in *.
    rewrite Ht. apply Forall_insert; assumption.
Qed.

Lemma run_notRejected (l : list Action) (m : M) :
  allNotRejected m -> allNotRejected (run o asyncFn random m l).
Proof.
  revert m. induction l as [|a l IH]; intros m Hm; [exact Hm|].
  cbn. apply IH, step_notRejected, Hm.
Qed.
End Swallow.

Lemma threeAttempts_callbacksReturn : callbacksReturn threeAttempts.
Proof.
  split; [|split].
  - intros e n. exists true. reflexivity.
  - intros f e n [= <-]. reflexivity.
  - intros f v [= <-]. reflexivity.
Qed.

(** ** Abort during the wait *)

Section AbortFacts.
Context {T Err : Type}.
Variable o : UseRetryOptions T Err.
Variable asyncFn : nat -> CallResult T Err.
Variable random : nat -> Q.

Local Abbreviation M := (Machine T Err).

Lemma Stuck_Grows (i n tid : nat) (m m' : M) :
  Stuck i n tid m -> Grows m m' -> Stuck i n tid m'.
Proof.
  intros (Ht & Hl & Hn) (Gt & Gn & Gl). repeat split.
  - rewrite Gt. exact Ht.
  - destruct (timerLive tid (timers m')) eqn:E; [|reflexivity].
    rewrite (Gl tid Hn E) in Hl. discriminate.
  - lia.
Qed.

Lemma Stuck_store (i j n tid : nat) (t : Task T Err) (m : M) :
  i <> j -> Stuck i n tid m -> Stuck i n tid (store j (t, m)).
Proof.
  intros Hij (Ht & Hl & Hn). destruct m. repeat split; cbn in *; [|exact Hl|exact Hn].
  rewrite list_lookup_insert_ne by auto. exact Ht.
Qed.

Lemma Stuck_spawn (i n tid : nat) (t : Task T Err) (m : M) :
  Stuck i n tid m -> Stuck i n tid (spawn (t, m)).
Proof.
  intros (Ht & Hl & Hn). destruct m. repeat split; cbn in *; [|exact Hl|exact Hn].
  rewrite lookup_app_l; [exact Ht|]. apply lookup_lt_is_Some. eauto.
Qed.

(** Nothing the owner or the host does later wakes such a promise. *)
Lemma step_Stuck (i n tid : nat) (m : M) (a : Action) :
  Stuck i n tid m -> Stuck i n tid (step o asyncFn random m a).
Proof.
  intros Hs. destruct a as [seen| | |j|j]; cbn [step].
  - pose proof (Grows_asPromise _ m (Framed_execute o asyncFn random seen)) as G.
    destruct (asPromise _ m) as [t m1]. apply Stuck_spawn.
    eapply Stuck_Grows; [exact Hs|exact G].
  - eapply Stuck_Grows; [exact Hs|apply Framed_abort].
  - eapply Stuck_Grows; [exact Hs|apply Framed_reset].
  - destruct (tasks m !! j) as [[k p|k t'|r|x]|] eqn:Hj; try exact Hs.
    assert (i <> j) by (intros ->; destruct Hs as (Ht & _); congruence).
    pose proof (Grows_asPromise _ m (Framed_resumeAfterOp o random k p)) as G.
    destruct (asPromise _ m) as [t m1]. apply Stuck_store; [assumption|].
    eapply Stuck_Grows; [exact Hs|exact G].
  - destruct (tasks m !! j) as [[k p|k t'|r|x]|] eqn:Hj; try exact Hs.
    destruct (timerLive t' (timers m)) eqn:Hlive; [|exact Hs].
    assert (i <> j).
    { intros ->. destruct Hs as (Ht & Hl & _).
      rewrite Hj in Ht. injection Ht as -> ->. congruence. }
    pose proof (Grows_asPromise _ (disarm t' m)
                  (Framed_resumeAfterWait o asyncFn random k)) as G.
    destruct (asPromise _ (disarm t' m)) as [t m1]. apply Stuck_store; [assumption|].
    eapply Stuck_Grows; [|exact G].
    eapply Stuck_Grows; [exact Hs|apply Grows_disarm].
Qed.

Lemma run_Stuck (i n tid : nat) (l : list Action) (m : M) :
  Stuck i n tid m -> Stuck i n tid (run o asyncFn random m l).
Proof.
  revert m. induction l as [|a l IH]; intros m Hs; [exact Hs|].
  cbn. apply IH, step_Stuck, Hs.
Qed.

(** [abort()] during the wait: the timer is cleared and the state reads
    idle, but nothing resolves the wait promise, and the [return null]
    behind it is never reached. *)
Lemma abort_while_waiting_hangs (i n tid : nat) (m : M) :
  tasks m !! i = Some (AwaitTimer n tid) ->
  timeoutRef (hook m) = Some tid -> (tid < nextTimer m)%nat ->
  let m' := step o asyncFn random m CallAbort in
  isRetrying (hook m') = false /\ delayMs (hook m') = 0%Q /\
  abortRef (hook m') = true /\ opCalls m' = opCalls m /\
  forall l, Stuck i n tid (run o asyncFn random m' l).
Proof.
  intros Ht Hr Hn. cbn [step]. explode m. cbn in Ht, Hr, Hn. subst tr.
  cbn. do 4 (split; [reflexivity|]).
  intros l'. apply run_Stuck. repeat split; cbn; [exact Ht| |exact Hn].
  apply timerLive_removeTimer.
Qed.
End AbortFacts.

(** C2 at its failing input: three attempts, an operation whose promise
    always rejects, [execute()], the first rejection, then [abort()] during
    the wait.  The timer is cleared, [isRetrying] and [delayMs] read idle and
    the operation has run once; but the promise of [execute()] is still
    waiting for the cleared timer after any further actions, and no action of
    the host changes anything any more. *)
Theorem abort_while_waiting_never_settles :
  let m := step threeAttempts alwaysRejects midpoint waitingMachine1 CallAbort in
  (tasks waitingMachine1 = [AwaitTimer 1 1] /\ timers waitingMachine1 = [1%nat] /\
   isRetrying (hook waitingMachine1) = true) /\
  (timers m = [] /\ isRetrying (hook m) = false /\ delayMs (hook m) = 0%Q /\
   opCalls m = 1%nat) /\
  forall l,
    let m' := run threeAttempts alwaysRejects midpoint m l in
    tasks m' !! 0%nat = Some (AwaitTimer 1 1) /\
    (forallb hostAction l = true -> m' = m).
Proof.
  split; [repeat split|]. split; [repeat split|].
  intros l. split.
  - apply (abort_while_waiting_hangs threeAttempts alwaysRejects midpoint
             0 1 1 waitingMachine1); [reflexivity|reflexivity|cbn; lia].
  - induction l as [|a l IH]; [reflexivity|].
    cbn [forallb]. intros [Ha Hl]%andb_true_iff.
    cbn [run fold_left].
    assert (Hstep : step threeAttempts alwaysRejects midpoint
              (step threeAttempts alwaysRejects midpoint waitingMachine1 CallAbort) a =
              step threeAttempts alwaysRejects midpoint waitingMachine1 CallAbort).
    { destruct a as [| | |[|j]|[|j]]; try discriminate; reflexivity. }
    rewrite Hstep. apply IH, Hl.
Qed.

(** ** A sequence of failures, attempt by attempt *)

Section DriveFacts.
Context {T Err : Type}.
Variable o : UseRetryOptions T Err.
Variable asyncFn : nat -> CallResult T Err.
Variable random : nat -> Q.

Local Abbreviation M := (Machine T Err).

Lemma drive_settled (fuel i : nat) (m : M) (t : Task T Err) :
  tasks m !! i = Some t -> settled t = true ->
  drive o asyncFn random fuel i m = m.
Proof.
  intros Ht Hs. destruct fuel; [reflexivity|]. cbn. rewrite Ht.
  destruct t; [discriminate|discriminate|reflexivity|reflexivity].
Qed.

Lemma store_place (t x : Task T Err) (m : M) :
  tasks m = [x] -> store 0 (t, m) = place (t, m).
Proof. destruct m. cbn. intros ->. reflexivity. Qed.

Lemma spawn_place (t : Task T Err) (m : M) :
  tasks m = [] -> spawn (t, m) = place (t, m).
Proof. destruct m. cbn. intros ->. reflexivity. Qed.

Lemma store_asPromise_place (c : Sync (Task T Err)) (x : Task T Err) (m : M) :
  Framed c -> tasks m = [x] -> store 0 (asPromise c m) = place (asPromise c m).
Proof.
  intros Hc Hm. pose proof (tasks_asPromise c m Hc) as Ht.
  destruct (asPromise c m) as [t m1]. apply (store_place t x). cbn in Ht. congruence.
Qed.

Lemma spawn_asPromise_place (c : Sync (Task T Err)) (m : M) :
  Framed c -> tasks m = [] -> spawn (asPromise c m) = place (asPromise c m).
Proof.
  intros Hc Hm. pose proof (tasks_asPromise c m Hc) as Ht.
  destruct (asPromise c m) as [t m1]. apply spawn_place. cbn in Ht. congruence.
Qed.

Lemma failureTask_settled (e : Err) (n : nat) : settled (failureTask o e n) = true.
Proof.
  unfold failureTask, failureOutcome.
  destruct (onFailure o) as [f|]; [destruct (f e n)|]; reflexivity.
Qed.

Lemma removeTimer_single (k : nat) : removeTimer k [k] = [].
Proof. unfold removeTimer. cbn. rewrite Nat.eqb_refl. reflexivity. Qed.

(** One step of the host on the single promise of a machine. *)
Lemma drive_AwaitOp (fuel k : nat) (p : Settled T Err) (m : M) :
  tasks m = [AwaitOp k p] ->
  drive o asyncFn random (S fuel) 0 m =
  drive o asyncFn random fuel 0 (place (asPromise (resumeAfterOp o random k p) m)).
Proof.
  intros Ht. cbn [drive]. rewrite Ht. cbn [lookup list_lookup].
  cbn [step]. rewrite Ht. cbn [lookup list_lookup].
  rewrite (store_asPromise_place _ (AwaitOp k p));
    [reflexivity|apply Framed_resumeAfterOp|exact Ht].
Qed.

Lemma drive_AwaitTimer (fuel k : nat) (m : M) :
  tasks m = [AwaitTimer k (pred (nextTimer m))] ->
  timers m = [pred (nextTimer m)] ->
  drive o asyncFn random (S fuel) 0 m =
  drive o asyncFn random fuel 0
    (place (asPromise (resumeAfterWait o asyncFn random k)
              (disarm (pred (nextTimer m)) m))).
Proof.
  intros Ht Hl. cbn [drive]. rewrite Ht. cbn [lookup list_lookup].
  cbn [step]. rewrite Ht. cbn [lookup list_lookup].
  rewrite Hl, timerLive_head.
  rewrite (store_asPromise_place _ (AwaitTimer k (pred (nextTimer m))));
    [reflexivity|apply Framed_resumeAfterWait|].
  rewrite (proj1 (Grows_disarm _ m)). exact Ht.
Qed.
End DriveFacts.

Section FailingRun.
Context {T Err : Type}.
Variable o : UseRetryOptions T Err.
Variable asyncFn : nat -> CallResult T Err.
Variable random : nat -> Q.
(** The first [n] calls fail, with errors [errs 0], ..., [errs (n - 1)];
    the failures before the last are retried, the last one is terminal. *)
Variable n : nat.
Variable errs : nat -> Err.
Hypothesis Hfail : forall k, (k < n)%nat -> failure (asyncFn k) = Some (errs k).
Hypothesis Hretry : forall k, (1 <= k < n)%nat ->
  (k < maxAttempts o)%nat /\ shouldRetry o (errs (pred k)) k = Normal true.
Hypothesis Hstop :
  (maxAttempts o <= n)%nat \/ shouldRetry o (errs (pred n)) n = Normal false.

Local Abbreviation M := (Machine T Err).
Local Abbreviation attemptHook k :=
  (mkHook k false false false 0%Q None false (lastTimer k) k).

Lemma asPromise_failure (c : Sync (Task T Err)) (m m' : M) (e : Err) (k : nat) :
  c m = (failureOutcome o e k, m') -> asPromise c m = (failureTask o e k, m').
Proof.
  intros H. unfold asPromise, failureTask. rewrite H.
  destruct (failureOutcome o e k); reflexivity.
Qed.

(** From the [catch] block of attempt [k] to the end. *)
Lemma drive_from_catch (k : nat) (ts : list (Task T Err)) (rc : nat)
    (l : list (Event T Err)) :
  ((k < n)%nat -> forall m' : M, Entering (S k) m' -> forall fuel,
      (2 * (n - S k) + 1 <= fuel)%nat ->
      FailedAt o n (errs (pred n))
        (drive o asyncFn random fuel 0
           (place (asPromise (runAttempt o asyncFn random (S k)) m')))) ->
  (1 <= k <= n)%nat ->
  onFailureCalls l = [] ->
  forall fuel, (2 * (n - k) <= fuel)%nat ->
  FailedAt o n (errs (pred n))
    (drive o asyncFn random fuel 0
       (place (asPromise (catchBlock o random k (errs (pred k)))
                 (mkMachine (attemptHook k) ts [] k k rc l)))).
Proof.
  intros IH Hk Hl fuel Hfuel.
  destruct (Nat.eq_dec k n) as [->|Hne].
  - (* the last attempt: terminal *)
    destruct (catchBlock_terminal o random
                (mkMachine (attemptHook n) ts [] n n rc l) n (errs (pred n)) Hstop)
      as [asked Hc].
    rewrite (asPromise_failure _ _ _ _ _ Hc).
    pose proof (failureTask_settled o (errs (pred n)) n) as Hs.
    rewrite (drive_settled _ _ _ _ _ _ (failureTask o (errs (pred n)) n));
      [|reflexivity|exact Hs].
    cbn [place failedMachine]. unfold noteSettled. rewrite Hs.
    repeat split. cbn [log].
    rewrite onFailureCalls_app. cbn [onFailureCalls flat_map app].
    rewrite app_nil_r. unfold reported.
    destruct (onFailure o), asked; rewrite ?onFailureCalls_app, Hl; reflexivity.
  - (* an earlier attempt: wait, then the next attempt *)
    destruct (Hretry k ltac:(lia)) as [Hlt Hs].
    unfold asPromise. rewrite (catchBlock_retry _ _ _ _ _ Hlt Hs).
    destruct fuel as [|fuel]; [lia|].
    cbn [place waitingMachine noteSettled settled].
    rewrite (drive_AwaitTimer o asyncFn random fuel k); [|reflexivity|reflexivity].
    cbn [nextTimer pred disarm]. rewrite removeTimer_single.
    unfold asPromise. rewrite resumeAfterWait_eq.
    cbn [hook abortRef setTimeoutRef setIsRetrying setDelayMs withHook
         setAttempt setAttemptRef].
    rewrite Nat.add_1_r.
    match goal with
    | |- context [runAttempt o asyncFn random (S k) ?m'] =>
        change (FailedAt o n (errs (pred n))
                  (drive o asyncFn random fuel 0
                     (place (asPromise (runAttempt o asyncFn random (S k)) m'))))
    end.
    apply IH; [lia| |lia].
    repeat split; cbn [hook opCalls nextTimer timers log].
    + destruct k; [lia|reflexivity].
    + rewrite onFailureCalls_app, Hl. reflexivity.
Qed.

(** From the entry of attempt [k] to the end. *)
Lemma drive_from_attempt (d : nat) :
  forall k (m : M), (n - k = d)%nat -> (1 <= k <= n)%nat -> Entering k m ->
  forall fuel, (2 * (n - k) + 1 <= fuel)%nat ->
  FailedAt o n (errs (pred n))
    (drive o asyncFn random fuel 0
       (place (asPromise (runAttempt o asyncFn random k) m))).
Proof.
  induction d as [d IHd] using lt_wf_ind.
  intros k m Hd Hk He fuel Hfuel.
  assert (IH : (k < n)%nat -> forall m' : M, Entering (S k) m' -> forall fuel,
      (2 * (n - S k) + 1 <= fuel)%nat ->
      FailedAt o n (errs (pred n))
        (drive o asyncFn random fuel 0
           (place (asPromise (runAttempt o asyncFn random (S k)) m')))).
  { intros Hlt m' He' fuel' Hf'.
    apply (IHd (n - S k)%nat); [lia|reflexivity|lia|exact He'|exact Hf']. }
  clear IHd.
  destruct m as [h ts tm nt oc rc l].
  destruct He as (Hh & Ho & Hn & Ht & Hl).
  cbn [hook opCalls nextTimer timers log] in Hh, Ho, Hn, Ht, Hl. subst h oc nt tm.
  pose proof (Hfail (pred k) ltac:(lia)) as Hf.
  assert (HS : S (pred k) = k) by lia.
  destruct (asyncFn (pred k)) as [[v|e]|e] eqn:Hc; cbn in Hf; try discriminate;
    injection Hf as ->; unfold asPromise.
  - (* the promise rejects: one step of the host to the [catch] block *)
    rewrite (runAttempt_returns o asyncFn random
               (mkMachine (attemptHook k) ts [] k (pred k) rc l) k _ eq_refl Hc).
    destruct fuel as [|fuel]; [lia|].
    cbn [afterCall place noteSettled settled].
    rewrite (drive_AwaitOp o asyncFn random fuel k (Reject (errs (pred k))));
      [|reflexivity].
    rewrite resumeAfterOp_reject, HS.
    apply drive_from_catch; [exact IH|lia| |lia].
    rewrite onFailureCalls_app, Hl. reflexivity.
  - (* the call throws: the [catch] block runs at once *)
    rewrite (runAttempt_throws o asyncFn random
               (mkMachine (attemptHook k) ts [] k (pred k) rc l) k _ eq_refl Hc).
    cbn [afterCall]. rewrite HS.
    match goal with
    | |- context [catchBlock o random k ?e ?m'] =>
        change (FailedAt o n (errs (pred n))
                  (drive o asyncFn random fuel 0
                     (place (asPromise (catchBlock o random k e) m'))))
    end.
    apply drive_from_catch; [exact IH|lia| |lia].
    rewrite onFailureCalls_app, Hl. reflexivity.
Qed.

(** [execute()] on a fresh hook, driven until its promise settles. *)
Lemma failing_sequence (fuel : nat) :
  (1 <= n)%nat -> (2 * n <= fuel)%nat ->
  FailedAt o n (errs (pred n))
    (drive o asyncFn random fuel 0
       (step o asyncFn random initialMachine (CallExecute false))).
Proof.
  intros Hn Hfuel. cbn [step].
  rewrite spawn_asPromise_place; [|apply Framed_execute|reflexivity].
  unfold asPromise. rewrite execute_false.
  apply (drive_from_attempt (n - 1) 1); [reflexivity|lia| |lia].
  repeat split.
Qed.
End FailingRun.

(** ** Whole sequences *)

Section SequenceClaims.
Context {T Err : Type}.
Variable o : UseRetryOptions T Err.
Variable asyncFn : nat -> CallResult T Err.
Variable random : nat -> Q.

Local Abbreviation M := (Machine T Err).

Lemma failureTask_onFailure (e : Err) (n : nat) (f : Err -> nat -> Completion Err unit) :
  onFailure o = Some f ->
  failureTask o e n =
    match f e n with Normal _ => Fulfilled None | Thrown x => Rejected x end /\
  reported o e n = [(e, n)].
Proof.
  intros Hf. unfold failureTask, failureOutcome, reported. rewrite Hf.
  destruct (f e n); split; reflexivity.
Qed.

(** C1: on a fresh hook with [maxAttempts = m >= 1], an operation that fails
    at every call (by throwing or by rejecting) and a [shouldRetry] that
    always returns true, [execute()] driven by the host calls the operation
    exactly [m] times and ends with [isFailed] true, [attempt = m], [error]
    the error of the last call, and exactly one call of [onFailure], with
    that error and [m]; the promise of [execute()] is then settled. *)
Theorem always_failing_exhausts_attempts (errs : nat -> Err)
    (f : Err -> nat -> Completion Err unit) (fuel : nat) :
  (1 <= maxAttempts o)%nat ->
  (forall k, failure (asyncFn k) = Some (errs k)) ->
  (forall e k, shouldRetry o e k = Normal true) ->
  onFailure o = Some f ->
  (2 * maxAttempts o <= fuel)%nat ->
  let final :=
    drive o asyncFn random fuel 0
      (step o asyncFn random initialMachine (CallExecute false)) in
  let lastError := errs (pred (maxAttempts o)) in
  opCalls final = maxAttempts o /\
  isFailed (hook final) = true /\ isSuccess (hook final) = false /\
  isRetrying (hook final) = false /\
  attempt (hook final) = maxAttempts o /\
  error (hook final) = Some lastError /\
  onFailureCalls (log final) = [(lastError, maxAttempts o)] /\
  tasks final =
    [match f lastError (maxAttempts o) with
     | Normal _ => Fulfilled None
     | Thrown x => Rejected x
     end].
Proof.
  intros Hm Hfail Hretry Hf Hfuel final lastError.
  assert (H : FailedAt o (maxAttempts o) lastError final).
  { apply failing_sequence; auto.
    intros k Hk. split; [lia|apply Hretry]. }
  destruct H as (Hh & Ht & Ho & Hl & _).
  destruct (failureTask_onFailure lastError (maxAttempts o) f Hf) as [Hft Hrep].
  rewrite Hh, Ht, Ho, Hl, Hft, Hrep. repeat split.
Qed.

(** C7: when the first [n - 1] failures are retried and [shouldRetry]
    returns false for the failure at attempt [n], with attempts remaining
    ([n < maxAttempts]), the sequence ends there: the operation has been
    called exactly [n] times, [isFailed] is true, [error] is that failure and
    [onFailure] has been called once, with it and [n].  The hook, the promise
    and the calls of [onFailure] are those the same run leaves when the
    attempts are exhausted at [n], that is with [maxAttempts = n]. *)
Theorem disqualified_failure_is_terminal (n : nat) (errs : nat -> Err)
    (f : Err -> nat -> Completion Err unit) (fuel : nat) :
  (1 <= n < maxAttempts o)%nat ->
  (forall k, (k < n)%nat -> failure (asyncFn k) = Some (errs k)) ->
  (forall k, (1 <= k < n)%nat -> shouldRetry o (errs (pred k)) k = Normal true) ->
  shouldRetry o (errs (pred n)) n = Normal false ->
  onFailure o = Some f ->
  (2 * n <= fuel)%nat ->
  let final :=
    drive o asyncFn random fuel 0
      (step o asyncFn random initialMachine (CallExecute false)) in
  let exhausted :=
    drive (withMaxAttempts o n) asyncFn random fuel 0
      (step (withMaxAttempts o n) asyncFn random initialMachine (CallExecute false)) in
  opCalls final = n /\
  isFailed (hook final) = true /\ attempt (hook final) = n /\
  error (hook final) = Some (errs (pred n)) /\
  onFailureCalls (log final) = [(errs (pred n), n)] /\
  tasks final =
    [match f (errs (pred n)) n with
     | Normal _ => Fulfilled None
     | Thrown x => Rejected x
     end] /\
  hook final = hook exhausted /\ tasks final = tasks exhausted /\
  opCalls final = opCalls exhausted /\
  onFailureCalls (log final) = onFailureCalls (log exhausted).
Proof.
  intros Hn Hfail Hretry Hstop Hf Hfuel final exhausted.
  assert (H : FailedAt o n (errs (pred n)) final).
  { apply failing_sequence; auto; try lia.
    intros k Hk. split; [lia|apply Hretry, Hk]. }
  assert (H' : FailedAt (withMaxAttempts o n) n (errs (pred n)) exhausted).
  { apply failing_sequence; [exact Hfail| |left; cbn; lia|lia|lia].
    intros k Hk. split; [cbn; lia|apply Hretry, Hk]. }
  destruct H as (Hh & Ht & Ho & Hl & _). destruct H' as (Hh' & Ht' & Ho' & Hl' & _).
  destruct (failureTask_onFailure (errs (pred n)) n f Hf) as [Hft Hrep].
  change (failureTask (withMaxAttempts o n) (errs (pred n)) n)
    with (failureTask o (errs (pred n)) n) in Ht'.
  change (reported (withMaxAttempts o n) (errs (pred n)) n)
    with (reported o (errs (pred n)) n) in Hl'.
  rewrite Hh', Ht', Ho', Hl', Hh, Ht, Ho, Hl, Hft, Hrep.
  repeat split.
Qed.
End SequenceClaims.

Section RecoveryClaim.
Context {T Err : Type}.
Variable o : UseRetryOptions T Err.
Variable asyncFn : nat -> CallResult T Err.
Variable random : nat -> Q.
Variable e : Err.
Variable v : T.
Variable f : T -> Completion Err unit.
Hypothesis Hmax : (2 <= maxAttempts o)%nat.
Hypothesis Hsecond : asyncFn 1%nat = Returns (Resolve v).
Hypothesis Hretry : shouldRetry o e 1 = Normal true.
Hypothesis HonSuccess : onSuccess o = Some f.
Hypothesis Hreturns : f v = Normal tt.

Local Abbreviation M := (Machine T Err).

(** From the [catch] block of the first attempt to the success of the
    second. *)
Lemma drive_to_success (ts : list (Task T Err)) (rc : nat) (l : list (Event T Err))
    (fuel : nat) :
  (2 <= fuel)%nat ->
  drive o asyncFn random fuel 0
    (place (asPromise (catchBlock o random 1 e)
              (mkMachine (mkHook 1 false false false 0%Q None false None 1)
                         ts [] 1 1 rc l))) =
  mkMachine (mkHook 2 false true false 0%Q None false (Some 1%nat) 2)
            [Fulfilled (Some v)] [] 2 2 (S rc)
            (l ++ [CalledShouldRetry e 1; CalledOp; CalledOnSuccess v;
                   PromiseSettled 0 (Fulfilled (Some v))]).
Proof.
  intros Hfuel. destruct fuel as [|[|fuel]]; try lia.
  unfold asPromise.
  rewrite (catchBlock_retry _ _ _ _ _ Hmax Hretry).
  cbn [place waitingMachine noteSettled settled].
  rewrite (drive_AwaitTimer o asyncFn random (S fuel) 1); [|reflexivity|reflexivity].
  cbn [nextTimer pred disarm]. rewrite removeTimer_single.
  unfold asPromise. rewrite resumeAfterWait_eq.
  cbn [hook abortRef setTimeoutRef setIsRetrying setDelayMs withHook
       setAttempt setAttemptRef Nat.add].
  match goal with
  | |- context [runAttempt o asyncFn random 2 ?m'] =>
      rewrite (runAttempt_returns o asyncFn random m' 2 _ eq_refl Hsecond)
  end.
  cbn [afterCall place noteSettled settled].
  rewrite (drive_AwaitOp o asyncFn random fuel 2 (Resolve v)); [|reflexivity].
  unfold asPromise, resumeAfterOp, tryCatch, bind, callOnSuccess.
  rewrite HonSuccess. cbn. rewrite Hreturns. cbn.
  rewrite (drive_settled _ _ _ _ _ _ (Fulfilled (Some v))); [|reflexivity|reflexivity].
  rewrite <- !app_assoc. reflexivity.
Qed.

Lemma recovered_machine (fuel : nat) :
  failure (asyncFn 0%nat) = Some e -> (3 <= fuel)%nat ->
  drive o asyncFn random fuel 0
    (step o asyncFn random initialMachine (CallExecute false)) =
  mkMachine (mkHook 2 false true false 0%Q None false (Some 1%nat) 2)
            [Fulfilled (Some v)] [] 2 2 1
            [CalledOp; CalledShouldRetry e 1; CalledOp; CalledOnSuccess v;
             PromiseSettled 0 (Fulfilled (Some v))].
Proof.
  intros Hfirst Hfuel. cbn [step].
  rewrite spawn_asPromise_place; [|apply Framed_execute|reflexivity].
  unfold asPromise. rewrite execute_false.
  cbn [withHook initialMachine hook isRetrying timeoutRef initialHook].
  destruct (asyncFn 0%nat) as [[v0|e0]|e0] eqn:Hc; cbn in Hfirst; try discriminate;
    injection Hfirst as ->.
  - match goal with
    | |- context [runAttempt o asyncFn random 1 ?m'] =>
        rewrite (runAttempt_returns o asyncFn random m' 1 _ eq_refl Hc)
    end.
    destruct fuel as [|fuel]; [lia|].
    cbn [afterCall place noteSettled settled].
    rewrite (drive_AwaitOp o asyncFn random fuel 1 (Reject e)); [|reflexivity].
    rewrite resumeAfterOp_reject.
    rewrite drive_to_success by lia. reflexivity.
  - match goal with
    | |- context [runAttempt o asyncFn random 1 ?m'] =>
        rewrite (runAttempt_throws o asyncFn random m' 1 _ eq_refl Hc)
    end.
    cbn [afterCall].
    match goal with
    | |- context [catchBlock o random 1 e ?m'] =>
        change (drive o asyncFn random fuel 0
                  (place (asPromise (catchBlock o random 1 e) m')) =
                mkMachine (mkHook 2 false true false 0%Q None false (Some 1%nat) 2)
                  [Fulfilled (Some v)] [] 2 2 1
                  [CalledOp; CalledShouldRetry e 1; CalledOp; CalledOnSuccess v;
                   PromiseSettled 0 (Fulfilled (Some v))])
    end.
    rewrite drive_to_success by lia. reflexivity.
Qed.
End RecoveryClaim.

Section RecoveryTheorem.
Context {T Err : Type}.
Variable o : UseRetryOptions T Err.
Variable asyncFn : nat -> CallResult T Err.
Variable random : nat -> Q.

(** C6: on a fresh hook with [maxAttempts] at least 2 (3 in particular), an
    operation that fails at its first call and resolves with [v] at its
    second, the first failure being retried, [execute()] driven by the host
    resolves with [v]; [isSuccess] is true, [isFailed] and [isRetrying]
    false, the operation has been called exactly twice and [onSuccess]
    exactly once, with [v], before the promise settled: the log ends with
    the call of [onSuccess] followed by the settlement. *)
Theorem fail_once_then_succeed (e : Err) (v : T) (f : T -> Completion Err unit)
    (fuel : nat) :
  (2 <= maxAttempts o)%nat ->
  failure (asyncFn 0%nat) = Some e ->
  asyncFn 1%nat = Returns (Resolve v) ->
  shouldRetry o e 1 = Normal true ->
  onSuccess o = Some f -> f v = Normal tt ->
  (3 <= fuel)%nat ->
  let final :=
    drive o asyncFn random fuel 0
      (step o asyncFn random initialMachine (CallExecute false)) in
  tasks final = [Fulfilled (Some v)] /\
  isSuccess (hook final) = true /\ isFailed (hook final) = false /\
  isRetrying (hook final) = false /\ attempt (hook final) = 2%nat /\
  opCalls final = 2%nat /\
  onSuccessCalls (log final) = [v] /\
  log final = [CalledOp; CalledShouldRetry e 1; CalledOp; CalledOnSuccess v;
               PromiseSettled 0 (Fulfilled (Some v))].
Proof.
  intros Hmax Hfirst Hsecond Hretry Hon Hret Hfuel final. subst final.
  rewrite (recovered_machine o asyncFn random e v f Hmax Hsecond Hretry Hon Hret
             fuel Hfirst Hfuel).
  repeat split.
Qed.
End RecoveryTheorem.

(** ** The scenarios, run *)

Lemma always_failing_exhausts_attempts_witness :
  opCalls exhaustedMachine = 3%nat /\
  isFailed (hook exhaustedMachine) = true /\ isSuccess (hook exhaustedMachine) = false /\
  isRetrying (hook exhaustedMachine) = false /\
  attempt (hook exhaustedMachine) = 3%nat /\
  error (hook exhaustedMachine) = Some 102%nat /\
  onFailureCalls (log exhaustedMachine) = [(102%nat, 3%nat)] /\
  tasks exhaustedMachine = [Fulfilled None].
Proof.
  apply (always_failing_exhausts_attempts threeAttempts alwaysRejects midpoint
           (fun k => 100 + k)%nat (fun _ _ => Normal tt) 6).
  - cbn. lia.
  - intros k. reflexivity.
  - intros e k. reflexivity.
  - reflexivity.
  - cbn. lia.
Defined.



Lemma fail_once_then_succeed_witness :
  let final :=
    drive threeAttempts failsOnce midpoint 3 0
      (step threeAttempts failsOnce midpoint initialMachine (CallExecute false)) in
  tasks final = [Fulfilled (Some 42%nat)] /\
  isSuccess (hook final) = true /\ isFailed (hook final) = false /\
  isRetrying (hook final) = false /\ attempt (hook final) = 2%nat /\
  opCalls final = 2%nat /\
  onSuccessCalls (log final) = [42%nat] /\
  log final = [CalledOp; CalledShouldRetry 7%nat 1; CalledOp; CalledOnSuccess 42%nat;
               PromiseSettled 0 (Fulfilled (Some 42%nat))].
Proof.
  apply (fail_once_then_succeed threeAttempts failsOnce midpoint 7%nat 42%nat
           (fun _ => Normal tt) 3).
  - cbn. lia.
  - reflexivity.
  - reflexivity.
  - reflexivity.
  - reflexivity.
  - reflexivity.
  - lia.
Defined.

Lemma disqualified_failure_is_terminal_witness :
  let final :=
    drive fiveAttemptsNoRetry alwaysRejects midpoint 2 0
      (step fiveAttemptsNoRetry alwaysRejects midpoint initialMachine
         (CallExecute false)) in
  opCalls final = 1%nat /\
  isFailed (hook final) = true /\ attempt (hook final) = 1%nat /\
  error (hook final) = Some 100%nat /\
  onFailureCalls (log final) = [(100%nat, 1%nat)] /\
  tasks final = [Fulfilled None].
Proof.
  pose proof (disqualified_failure_is_terminal fiveAttemptsNoRetry alwaysRejects
                midpoint 1 (fun k => 100 + k)%nat (fun _ _ => Normal tt) 2) as H.
  cbn zeta in H.
  destruct H as (H1 & H2 & H3 & H4 & H5 & H6 & _).
  - cbn. lia.
  - intros k Hk. reflexivity.
  - intros k Hk. lia.
  - reflexivity.
  - reflexivity.
  - lia.
  - repeat split; assumption.
Defined.

Lemma callback_throw_rejects_execute_witness :
  let m := step throwingShouldRetry alwaysRejects midpoint initialMachine
             (CallExecute false) in
  tasks m !! 0%nat = Some (AwaitOp 1 (Reject 100%nat)) /\
  tasks (step throwingShouldRetry alwaysRejects midpoint m (OpSettles 0)) !! 0%nat
    = Some (Rejected 66%nat).
Proof.
  cbn zeta. split; [reflexivity|].
  apply (callback_throw_rejects_execute throwingShouldRetry alwaysRejects midpoint
           _ 0 1 100%nat 66%nat).
  - reflexivity.
  - left. split; [cbn; lia|reflexivity].
Defined.


(** * Further properties *)

(** ** The backoff schedule *)

Section BackoffFacts.
Context {T Err : Type}.
Variable o : UseRetryOptions T Err.


End BackoffFacts.

(** ** The budget of attempts *)

Section BudgetFacts.
Context {T Err : Type}.
Variable o : UseRetryOptions T Err.
Variable asyncFn : nat -> CallResult T Err.
Variable random : nat -> Q.

Local Abbreviation M := (Machine T Err).

(** What the [catch] block hands back, and what it leaves alone. *)
Lemma catchBlock_shape (m : M) (n : nat) (e : Err) :
  opCalls (snd (catchBlock o random n e m)) = opCalls m /\
  attempt (hook (snd (catchBlock o random n e m))) = attempt (hook m) /\
  match fst (catchBlock o random n e m) with
  | Normal t => okAt o n t
  | Thrown _ => True
  end.
Proof.
  explode m.
  unfold catchBlock, bind, callShouldRetry, callOnFailure, bind, emit, call, okAt.
  cbn. destruct (maxAttempts o <=? n)%nat eqn:Hle; cbn.
  - destruct (onFailure o) as [f'|]; cbn; [destruct (f' e n)|]; cbn; auto.
  - apply Nat.leb_gt in Hle.
    destruct (shouldRetry o e n) as [[|]|]; cbn; auto.
    + repeat split. right. right. eauto.
    + destruct (onFailure o) as [f'|]; cbn; [destruct (f' e n)|]; cbn; auto.
Qed.

Lemma okAt_asPromise (c : Sync (Task T Err)) (m : M) (n : nat) :
  match fst (c m) with Normal t => okAt o n t | Thrown _ => True end ->
  okAt o n (fst (asPromise c m)).
Proof.
  unfold asPromise. destruct (c m) as [[t|x] m1]; cbn; [auto|].
  intros _. left. reflexivity.
Qed.

Lemma resumeAfterOp_shape (m : M) (n : nat) (p : Settled T Err) :
  opCalls (snd (resumeAfterOp o random n p m)) = opCalls m /\
  attempt (hook (snd (resumeAfterOp o random n p m))) = attempt (hook m) /\
  match fst (resumeAfterOp o random n p m) with
  | Normal t => okAt o n t
  | Thrown _ => True
  end.
Proof.
  destruct p as [v|e]; [|rewrite resumeAfterOp_reject; apply catchBlock_shape].
  unfold resumeAfterOp, tryCatch, bind, callOnSuccess.
  destruct (modifyHook (setIsSuccess true) m) as [c0 m0] eqn:E0.
  assert (H0 : c0 = Normal tt /\ opCalls m0 = opCalls m /\
               attempt (hook m0) = attempt (hook m)).
  { explode m. cbn in E0. injection E0 as <- <-. repeat split. }
  destruct H0 as (-> & Ho & Ha).
  destruct (onSuccess o) as [f'|].
  - unfold bind, emit, call. destruct m0 as [h ts tm nt oc rc l]. cbn in *.
    destruct (f' v) as [[]|x]; cbn.
    + repeat split; auto. left. reflexivity.
    + pose proof (catchBlock_shape
                    (mkMachine h ts tm nt oc rc (l ++ [CalledOnSuccess v])) n x)
        as (H1 & H2 & H3).
      cbn in H1, H2. rewrite H1, H2. auto.
  - cbn. repeat split; auto. left. reflexivity.
Qed.

Lemma runAttempt_shape (m : M) (n : nat) :
  abortRef (hook m) = false ->
  opCalls (snd (runAttempt o asyncFn random n m)) = S (opCalls m) /\
  attempt (hook (snd (runAttempt o asyncFn random n m))) = attempt (hook m) /\
  match fst (runAttempt o asyncFn random n m) with
  | Normal t => okAt o n t
  | Thrown _ => True
  end.
Proof.
  intros Ha. destruct (asyncFn (opCalls m)) as [p|x] eqn:Hc.
  - rewrite (runAttempt_returns _ _ _ _ _ _ Ha Hc). destruct m. cbn.
    repeat split. right. left. eauto.
  - rewrite (runAttempt_throws _ _ _ _ _ _ Ha Hc).
    pose proof (catchBlock_shape (afterCall m) n x) as (H1 & H2 & H3).
    rewrite H1, H2. destruct m. cbn. auto.
Qed.

Lemma okAt_budget (n : nat) (t : Task T Err) :
  (1 <= n <= attemptCap o)%nat -> okAt o n t ->
  taskInRange o t /\ (n <= callsUsed o t)%nat.
Proof.
  intros Hn [Hs|[[p ->]|[tid [-> Hlt]]]].
  - destruct t; try discriminate Hs; split; cbn; auto; lia.
  - split; cbn; [exact Hn|lia].
  - split; cbn; lia.
Qed.

Lemma list_sum_insert {A} (f : A -> nat) (l : list A) (i : nat) (x y : A) :
  l !! i = Some x ->
  (list_sum (map f (<[i := y]> l)) + f x = list_sum (map f l) + f y)%nat.
Proof.
  revert i. induction l as [|a l IH]; intros [|i] Hi; cbn in Hi; try discriminate.
  - injection Hi as ->. cbn. lia.
  - specialize (IH i Hi). unfold list_sum in *.
    change (<[S i := y]> (a :: l)) with (a :: <[i := y]> l).
    cbn [map fold_right]. lia.
Qed.

Lemma attemptCap_bounds : (1 <= attemptCap o)%nat /\ (maxAttempts o <= attemptCap o)%nat.
Proof. unfold attemptCap. lia. Qed.

Lemma asPromise_parts (c : Sync (Task T Err)) (m : M) :
  asPromise c m = (fst (asPromise c m), snd (c m)).
Proof. unfold asPromise. destruct (c m) as [[t|x] m1]; reflexivity. Qed.

Lemma WithinBudget_spawn (c : Sync (Task T Err)) (m : M) (n : nat) :
  WithinBudget o m -> Framed c ->
  (1 <= n <= attemptCap o)%nat ->
  okAt o n (fst (asPromise c m)) ->
  (attempt (hook (snd (c m))) <= attemptCap o)%nat ->
  (opCalls (snd (c m)) <= opCalls m + n)%nat ->
  WithinBudget o (spawn (asPromise c m)).
Proof.
  intros (Hr & _ & Hb) Hc Hn Hok Ha Ho.
  destruct (okAt_budget n _ Hn Hok) as [Hin Hu].
  pose proof (proj1 (Hc m)) as Ht.
  rewrite asPromise_parts. destruct (snd (c m)) as [h ts tm nt oc rc l].
  cbn [tasks hook opCalls] in *. subst ts.
  repeat split; cbn [spawn tasks hook opCalls].
  - apply Forall_app. split; [exact Hr|]. constructor; [exact Hin|constructor].
  - exact Ha.
  - rewrite map_app, list_sum_app. cbn [map list_sum fold_right]. lia.
Qed.

Lemma WithinBudget_store (c : Sync (Task T Err)) (m : M) (i n : nat)
    (t0 : Task T Err) :
  WithinBudget o m -> Framed c -> tasks m !! i = Some t0 ->
  (1 <= n <= attemptCap o)%nat ->
  okAt o n (fst (asPromise c m)) ->
  (attempt (hook (snd (c m))) <= attemptCap o)%nat ->
  (opCalls (snd (c m)) + callsUsed o t0 <= opCalls m + n)%nat ->
  WithinBudget o (store i (asPromise c m)).
Proof.
  intros (Hr & _ & Hb) Hc Hi Hn Hok Ha Ho.
  destruct (okAt_budget n _ Hn Hok) as [Hin Hu].
  pose proof (proj1 (Hc m)) as Ht.
  rewrite asPromise_parts. destruct (snd (c m)) as [h ts tm nt oc rc l].
  cbn [tasks hook opCalls] in *. subst ts.
  repeat split; cbn [store tasks hook opCalls].
  - apply Forall_insert; assumption.
  - exact Ha.
  - pose proof (list_sum_insert (callsUsed o) (tasks m) i t0
                  (fst (asPromise c m)) Hi) as Hs.
    lia.
Qed.

Lemma execute_shape (m : M) (seen : bool) :
  (opCalls (snd (execute o asyncFn random seen m)) <= S (opCalls m))%nat /\
  (attempt (hook (snd (execute o asyncFn random seen m))) = attempt (hook m) \/
   attempt (hook (snd (execute o asyncFn random seen m))) = 1%nat) /\
  okAt o 1 (fst (asPromise (execute o asyncFn random seen) m)).
Proof.
  destruct seen.
  - cbn. repeat split; auto. left. reflexivity.
  - pose proof (okAt_asPromise (execute o asyncFn random false) m 1) as Hok.
    rewrite execute_false in *.
    match goal with
    | |- context [runAttempt o asyncFn random 1 ?m0] =>
        destruct (runAttempt_shape m0 1) as (H1 & H2 & H3);
          [destruct m; reflexivity|]
    end.
    rewrite H1, H2. split; [destruct m; cbn; lia|].
    split; [right; destruct m; reflexivity|]. exact (Hok H3).
Qed.

Lemma resumeAfterWait_shape (m : M) (n : nat) :
  (opCalls (snd (resumeAfterWait o asyncFn random n m)) <= S (opCalls m))%nat /\
  (attempt (hook (snd (resumeAfterWait o asyncFn random n m))) = attempt (hook m) \/
   attempt (hook (snd (resumeAfterWait o asyncFn random n m))) = S n) /\
  okAt o (S n) (fst (asPromise (resumeAfterWait o asyncFn random n) m)).
Proof.
  pose proof (okAt_asPromise (resumeAfterWait o asyncFn random n) m (S n)) as Hok.
  rewrite resumeAfterWait_eq in *. rewrite Nat.add_1_r in *.
  destruct (abortRef (hook m)) eqn:Ha.
  - split; [cbn; lia|]. split; [left; reflexivity|]. apply Hok. left. reflexivity.
  - match goal with
    | |- context [runAttempt o asyncFn random (S n) ?m0] =>
        destruct (runAttempt_shape m0 (S n)) as (H1 & H2 & H3);
          [destruct m as [[] ? ? ? ? ? ?]; cbn in *; exact Ha|]
    end.
    rewrite H1, H2. split; [destruct m; cbn; lia|].
    split; [right; destruct m as [[] ? ? ? ? ? ?]; reflexivity|]. exact (Hok H3).
Qed.

Lemma WithinBudget_disarm (tid : nat) (m : M) :
  WithinBudget o m -> WithinBudget o (disarm tid m).
Proof. destruct m. exact (fun H => H). Qed.

Lemma step_WithinBudget (m : M) (a : Action) :
  WithinBudget o m -> WithinBudget o (step o asyncFn random m a).
Proof.
  intros Hm. pose proof attemptCap_bounds as [Hcap1 Hcap2].
  pose proof Hm as (Hr & Hatt & Hb).
  destruct a as [seen| | |i|i]; cbn [step].
  - (* execute *)
    destruct (execute_shape m seen) as (H1 & H2 & H3).
    apply (WithinBudget_spawn _ m 1); auto; try lia.
    apply Framed_execute.
  - (* abort *)
    pose proof (proj1 (Framed_abort (T := T) (Err := Err) m)) as Ht.
    assert (H : opCalls (snd (abort m)) = opCalls m /\
                attempt (hook (snd (abort m))) = attempt (hook m)).
    { explode m. destruct tr; split; reflexivity. }
    destruct H as [Ho Ha]. repeat split; rewrite ?Ht, ?Ho, ?Ha; assumption.
  - (* reset *)
    pose proof (proj1 (Framed_reset (T := T) (Err := Err) m)) as Ht.
    pose proof (reset_frame m) as [_ Ho]. pose proof (hook_reset m) as Hh.
    repeat split; rewrite ?Ht, ?Ho, ?Hh; cbn; auto; lia.
  - (* the operation settles *)
    destruct (tasks m !! i) as [[n p|n tid|r|x]|] eqn:Hi; try exact Hm.
    rewrite Forall_lookup in Hr. pose proof (Hr i _ Hi) as Hn. cbn in Hn.
    destruct (resumeAfterOp_shape m n p) as (H1 & H2 & H3).
    apply (WithinBudget_store _ m i n (AwaitOp n p)); auto.
    + apply Framed_resumeAfterOp.
    + apply okAt_asPromise, H3.
    + rewrite H2. exact Hatt.
    + rewrite H1. cbn [callsUsed]. lia.
  - (* the timer fires *)
    destruct (tasks m !! i) as [[n p|n tid|r|x]|] eqn:Hi; try exact Hm.
    destruct (timerLive tid (timers m)); [|exact Hm].
    rewrite Forall_lookup in Hr. pose proof (Hr i _ Hi) as Hn. cbn in Hn.
    destruct (resumeAfterWait_shape (disarm tid m) n) as (H1 & H2 & H3).
    assert (Hd : tasks (disarm tid m) = tasks m /\ opCalls (disarm tid m) = opCalls m /\
                 hook (disarm tid m) = hook m) by (destruct m; repeat split).
    destruct Hd as (Hd1 & Hd2 & Hd3).
    apply (WithinBudget_store _ (disarm tid m) i (S n) (AwaitTimer n tid)); auto.
    + apply WithinBudget_disarm, Hm.
    + apply Framed_resumeAfterWait.
    + rewrite Hd1. exact Hi.
    + lia.
    + rewrite Hd3 in H2. destruct H2 as [-> | ->]; lia.
    + cbn [callsUsed]. lia.
Qed.

Lemma run_WithinBudget (l : list Action) (m : M) :
  WithinBudget o m -> WithinBudget o (run o asyncFn random m l).
Proof.
  revert m. induction l as [|a l IH]; intros m Hm; [exact Hm|].
  cbn. apply IH, step_WithinBudget, Hm.
Qed.

Lemma length_tasks_step (m : M) (a : Action) :
  length (tasks (step o asyncFn random m a)) =
  (length (tasks m) + if isExecute a then 1 else 0)%nat.
Proof.
  destruct a as [seen| | |i|i]; cbn [step isExecute].
  - pose proof (proj1 (Framed_execute o asyncFn random seen m)) as Ht.
    rewrite asPromise_parts. destruct (snd (execute o asyncFn random seen m)).
    cbn in *. subst. rewrite length_app. reflexivity.
  - rewrite (proj1 (Framed_abort (T := T) (Err := Err) m)). lia.
  - rewrite (proj1 (Framed_reset (T := T) (Err := Err) m)). lia.
  - destruct (tasks m !! i) as [[n p|n tid|r|x]|] eqn:Hi; try lia.
    pose proof (proj1 (Framed_resumeAfterOp o random n p m)) as Ht.
    rewrite asPromise_parts. destruct (snd (resumeAfterOp o random n p m)).
    cbn in *. subst. rewrite length_insert. lia.
  - destruct (tasks m !! i) as [[n p|n tid|r|x]|] eqn:Hi; try lia.
    destruct (timerLive tid (timers m)); [|lia].
    pose proof (proj1 (Framed_resumeAfterWait o asyncFn random n (disarm tid m))) as Ht.
    rewrite asPromise_parts.
    destruct (snd (resumeAfterWait o asyncFn random n (disarm tid m))).
    cbn in *. subst. rewrite length_insert. destruct m; cbn. lia.
Qed.

Lemma length_tasks_run (l : list Action) (m : M) :
  length (tasks (run o asyncFn random m l)) =
  (length (tasks m) + length (List.filter isExecute l))%nat.
Proof.
  revert m. induction l as [|a l IH]; intros m; [cbn; lia|].
  change (run o asyncFn random m (a :: l))
    with (run o asyncFn random (step o asyncFn random m a) l).
  rewrite IH, length_tasks_step. cbn [List.filter].
  destruct (isExecute a); cbn [length]; lia.
Qed.

Lemma list_sum_callsUsed (ts : list (Task T Err)) :
  Forall (taskInRange o) ts ->
  (list_sum (map (callsUsed o) ts) <= length ts * attemptCap o)%nat.
Proof.
  pose proof attemptCap_bounds as [Hcap1 Hcap2].
  induction 1 as [|t ts Ht _ IH]; cbn [map list_sum fold_right length]; [lia|].
  change (fold_right Nat.add 0%nat (map (callsUsed o) ts))
    with (list_sum (map (callsUsed o) ts)).
  assert (callsUsed o t <= attemptCap o)%nat by (destruct t; cbn in *; lia).
  lia.
Qed.

(** X6: however [execute], [abort], [reset] and the host interleave, the
    operation is called at most [max(1, maxAttempts)] times for each call of
    [execute]. *)
Theorem operation_calls_within_budget (l : list Action) :
  (opCalls (run o asyncFn random initialMachine l)
   <= length (List.filter isExecute l) * Nat.max 1 (maxAttempts o))%nat.
Proof.
  assert (H0 : WithinBudget o (@initialMachine T Err)).
  { repeat split; cbn; [constructor|lia|lia]. }
  pose proof (run_WithinBudget l _ H0) as (Hr & _ & Hb).
  pose proof (list_sum_callsUsed _ Hr) as Hs.
  rewrite length_tasks_run in Hs. cbn in Hs. exact (Nat.le_trans _ _ _ Hb Hs).
Qed.

(** X7: the [attempt] counter never exceeds [max(1, maxAttempts)]. *)
Theorem attempt_counter_within_budget (l : list Action) :
  (attempt (hook (run o asyncFn random initialMachine l))
   <= Nat.max 1 (maxAttempts o))%nat.
Proof.
  assert (H0 : WithinBudget o (@initialMachine T Err)).
  { repeat split; cbn; [constructor|lia|lia]. }
  exact (proj1 (proj2 (run_WithinBudget l _ H0))).
Qed.
End BudgetFacts.

(** ** Abort, and what it leaves running *)

Section AbortMore.
Context {T Err : Type}.
Variable o : UseRetryOptions T Err.
Variable asyncFn : nat -> CallResult T Err.
Variable random : nat -> Q.

Local Abbreviation M := (Machine T Err).

Lemma resumeAfterOp_abortRef (m : M) (n : nat) (p : Settled T Err) :
  abortRef (hook (snd (resumeAfterOp o random n p m))) = abortRef (hook m).
Proof.
  destruct p as [v|e].
  - unfold resumeAfterOp, tryCatch, bind, callOnSuccess. explode m. cbn.
    destruct (onSuccess o) as [f'|]; cbn; [|reflexivity].
    destruct (f' v) as [[]|x]; cbn; [reflexivity|].
    match goal with
    | |- context [catchBlock o random n x ?m0] =>
        exact (proj2 (proj2 (proj2 (catchBlock_frame o random m0 n x))))
    end.
  - rewrite resumeAfterOp_reject.
    exact (proj2 (proj2 (proj2 (catchBlock_frame o random m n e)))).
Qed.

(** While the abort flag is set, no step but a call of [execute] resets it
    or calls the operation. *)
Lemma step_aborted (m : M) (a : Action) :
  abortRef (hook m) = true -> isExecute a = false ->
  abortRef (hook (step o asyncFn random m a)) = true /\
  opCalls (step o asyncFn random m a) = opCalls m.
Proof.
  intros Ha Hx. destruct a as [seen| | |i|i]; try discriminate Hx; cbn [step].
  - explode m. cbn in *. destruct tr; split; reflexivity.
  - rewrite hook_reset. split; [reflexivity|apply reset_frame].
  - destruct (tasks m !! i) as [[n p|n tid|r|x]|]; auto.
    rewrite asPromise_parts.
    pose proof (resumeAfterOp_abortRef m n p) as H1.
    pose proof (proj1 (resumeAfterOp_shape o random m n p)) as H2.
    destruct (snd (resumeAfterOp o random n p m)). cbn in *. split; congruence.
  - destruct (tasks m !! i) as [[n p|n tid|r|x]|]; auto.
    destruct (timerLive tid (timers m)); auto.
    unfold asPromise. rewrite resumeAfterWait_eq.
    assert (Hd : abortRef (hook (disarm tid m)) = true) by (destruct m; exact Ha).
    rewrite Hd. destruct m. cbn in *. auto.
Qed.

(** X11: after [abort()], and as long as [execute] is not called again, the
    operation is never called again, whatever settles or fires and however
    often [abort] and [reset] are called. *)
Theorem aborted_hook_never_calls_operation (m : M) (l : list Action) :
  abortRef (hook m) = true -> forallb (fun a => negb (isExecute a)) l = true ->
  opCalls (run o asyncFn random m l) = opCalls m /\
  abortRef (hook (run o asyncFn random m l)) = true.
Proof.
  revert m. induction l as [|a l IH]; intros m Ha Hl; [auto|].
  cbn [forallb] in Hl. apply andb_true_iff in Hl as [Hx Hl].
  apply negb_true_iff in Hx.
  destruct (step_aborted m a Ha Hx) as [Ha' Ho'].
  change (run o asyncFn random m (a :: l))
    with (run o asyncFn random (step o asyncFn random m a) l).
  destruct (IH _ Ha' Hl) as [Ho'' Ha'']. split; congruence.
Qed.

(** X12: [abort()] while the operation is in flight does not discard its
    result: when the promise resolves, [isSuccess] is set, [onSuccess] is
    called and the promise of [execute()] resolves with the value. *)
Theorem abort_in_flight_keeps_result (m : M) (i n : nat) (v : T) :
  tasks m !! i = Some (AwaitOp n (Resolve v)) ->
  (forall f, onSuccess o = Some f -> f v = Normal tt) ->
  let m' := step o asyncFn random (step o asyncFn random m CallAbort) (OpSettles i) in
  tasks m' !! i = Some (Fulfilled (Some v)) /\
  isSuccess (hook m') = true /\ abortRef (hook m') = true /\
  onSuccessCalls (log m') =
    onSuccessCalls (log m) ++ match onSuccess o with Some _ => [v] | None => [] end.
Proof.
  intros Hi Hf. cbn zeta.
  set (m1 := step o asyncFn random m CallAbort).
  assert (H1 : tasks m1 = tasks m /\ abortRef (hook m1) = true /\ log m1 = log m).
  { subst m1. cbn [step]. explode m. destruct tr; repeat split. }
  destruct H1 as (Ht & Ha & Hl). rewrite <- Ht in Hi. rewrite <- Hl.
  clearbody m1. clear Ht Hl m.
  rewrite (step_OpSettles _ _ _ _ _ _ _ Hi).
  explode m1. cbn in Hi, Ha. subst ab.
  unfold asPromise, resumeAfterOp, tryCatch, bind, callOnSuccess.
  destruct (onSuccess o) as [f'|] eqn:Ho.
  - cbn. rewrite (Hf f' eq_refl). cbn.
    split; [apply list_lookup_insert_eq, lookup_lt_is_Some; eauto|].
    repeat split. unfold noteSettled, onSuccessCalls. cbn.
    rewrite !flat_map_app. cbn. rewrite app_nil_r. reflexivity.
  - cbn.
    split; [apply list_lookup_insert_eq, lookup_lt_is_Some; eauto|].
    repeat split. unfold noteSettled, onSuccessCalls. cbn.
    rewrite !flat_map_app. cbn. rewrite !app_nil_r. reflexivity.
Qed.

(** X13: [abort()] while the operation is in flight, followed by a failure that
    is retried: the [catch] block still arms a timer and sets [isRetrying];
    when the timer fires the sequence ends with [null] and the operation is
    not called again, but [isRetrying] is left true. *)
Theorem abort_in_flight_then_failure (m : M) (i n : nat) (e : Err) :
  tasks m !! i = Some (AwaitOp n (Reject e)) ->
  (n < maxAttempts o)%nat -> shouldRetry o e n = Normal true ->
  let m1 := step o asyncFn random (step o asyncFn random m CallAbort) (OpSettles i) in
  let m2 := step o asyncFn random m1 (TimerFires i) in
  tasks m1 !! i = Some (AwaitTimer n (nextTimer m)) /\
  timerLive (nextTimer m) (timers m1) = true /\
  isRetrying (hook m1) = true /\
  tasks m2 !! i = Some (Fulfilled None) /\
  opCalls m2 = opCalls m /\
  isRetrying (hook m2) = true /\ isFailed (hook m2) = isFailed (hook m).
Proof.
  intros Hi Hlt Hs. cbn zeta.
  set (m0 := step o asyncFn random m CallAbort).
  assert (H0 : tasks m0 = tasks m /\ abortRef (hook m0) = true /\
               nextTimer m0 = nextTimer m /\ opCalls m0 = opCalls m /\
               isFailed (hook m0) = isFailed (hook m)).
  { subst m0. cbn [step]. explode m. destruct tr; repeat split. }
  destruct H0 as (Ht & Ha & Hn & Ho & Hf).
  rewrite <- Ht in Hi. rewrite <- Hn, <- Ho, <- Hf. clearbody m0. clear Ht Hn Ho Hf m.
  rewrite (step_OpSettles _ _ _ _ _ _ _ Hi), resumeAfterOp_reject.
  explode m0. cbn in Hi, Ha. subst ab.
  assert (Hlen : (i < length ts)%nat) by (apply lookup_lt_is_Some; eauto).
  match goal with
  | |- context [store i ?r] =>
      assert (Hm1 : store i r =
        mkMachine (mkHook a true s f (calculateDelay o (random rc) n) e0 true (Some nt) ar)
                  (<[i := AwaitTimer n nt]> ts) (nt :: tm) (S nt) oc (S rc)
                  (l ++ [CalledShouldRetry e n]))
        by (unfold asPromise; rewrite (catchBlock_retry _ _ _ _ _ Hlt Hs); reflexivity);
      rewrite Hm1; clear Hm1
  end.
  cbn [tasks timers hook nextTimer opCalls isRetrying isFailed].
  rewrite list_lookup_insert_eq by exact Hlen.
  rewrite timerLive_head.
  split; [reflexivity|]. split; [reflexivity|]. split; [reflexivity|].
  cbn [step tasks]. rewrite list_lookup_insert_eq by exact Hlen.
  cbn [timers]. rewrite timerLive_head.
  unfold asPromise. rewrite resumeAfterWait_eq. cbn.
  rewrite list_lookup_insert_eq by (rewrite length_insert; exact Hlen).
  repeat split.
Qed.
End AbortMore.

(** ** One sequence, one outcome *)

Section OutcomeFacts.
Context {T Err : Type}.
Variable o : UseRetryOptions T Err.
Variable asyncFn : nat -> CallResult T Err.
Variable random : nat -> Q.

Local Abbreviation M := (Machine T Err).

(** X9: when the first call resolves, nothing else happens: one call of the
    operation, no draw of [Math.random()], no timer, [attempt] stays 1 and
    the promise resolves with the value, whatever [maxAttempts] is. *)
Theorem first_attempt_success (v : T) (fuel : nat) :
  asyncFn 0%nat = Returns (Resolve v) ->
  (forall f, onSuccess o = Some f -> f v = Normal tt) ->
  (1 <= fuel)%nat ->
  let final :=
    drive o asyncFn random fuel 0
      (step o asyncFn random initialMachine (CallExecute false)) in
  hook final = mkHook 1 false true false 0%Q None false None 1 /\
  tasks final = [Fulfilled (Some v)] /\
  opCalls final = 1%nat /\ randCalls final = 0%nat /\
  timers final = [] /\ nextTimer final = 1%nat /\
  onSuccessCalls (log final) = match onSuccess o with Some _ => [v] | None => [] end.
Proof.
  intros Hc Hf Hfuel. cbn zeta. destruct fuel as [|fuel]; [lia|].
  cbn [step]. rewrite spawn_asPromise_place; [|apply Framed_execute|reflexivity].
  unfold asPromise. rewrite execute_false.
  cbn [withHook initialMachine hook isRetrying timeoutRef initialHook].
  match goal with
  | |- context [runAttempt o asyncFn random 1 ?m'] =>
      rewrite (runAttempt_returns o asyncFn random m' 1 _ eq_refl Hc)
  end.
  cbn [afterCall place noteSettled settled].
  rewrite (drive_AwaitOp o asyncFn random fuel 1 (Resolve v)); [|reflexivity].
  unfold asPromise, resumeAfterOp, tryCatch, bind, callOnSuccess.
  destruct (onSuccess o) as [f'|] eqn:Ho.
  - cbn. rewrite (Hf f' eq_refl). cbn.
    rewrite (drive_settled _ _ _ _ _ _ (Fulfilled (Some v))); [|reflexivity|reflexivity].
    repeat split.
  - cbn.
    rewrite (drive_settled _ _ _ _ _ _ (Fulfilled (Some v))); [|reflexivity|reflexivity].
    repeat split.
Qed.

Hypothesis Hcb : callbacksReturn o.

Lemma catchBlock_outcome (m : M) (n : nat) (e : Err) :
  isSuccess (hook m) = false -> isFailed (hook m) = false ->
  outcomeOk (catchBlock o random n e m).
Proof.
  intros Hs Hf. unfold outcomeOk.
  destruct (Nat.le_gt_cases (maxAttempts o) n) as [Hle|Hgt].
  - rewrite (catchBlock_exhausted _ _ _ _ _ Hle), (failureOutcome_returns o Hcb).
    eexists; split; [reflexivity|]. explode m. cbn in *. subst. split; [reflexivity|].
    discriminate.
  - destruct Hcb as (Hsr & _ & _). destruct (Hsr e n) as [[|] Hb].
    + rewrite (catchBlock_retry _ _ _ _ _ Hgt Hb).
      eexists; split; [reflexivity|]. explode m. cbn in *. subst. auto.
    + rewrite (catchBlock_disqualified _ _ _ _ _ Hgt Hb),
        (failureOutcome_returns o Hcb).
      eexists; split; [reflexivity|]. explode m. cbn in *. subst.
      split; [reflexivity|discriminate].
Qed.

Lemma runAttempt_outcome (m : M) (n : nat) :
  isSuccess (hook m) = false -> isFailed (hook m) = false ->
  outcomeOk (runAttempt o asyncFn random n m).
Proof.
  intros Hs Hf. destruct (abortRef (hook m)) eqn:Ha.
  - rewrite (runAttempt_aborted _ _ _ _ _ Ha). exists (Fulfilled None). cbn.
    rewrite Hs, Hf. auto.
  - destruct (asyncFn (opCalls m)) as [p|x] eqn:Hc.
    + rewrite (runAttempt_returns _ _ _ _ _ _ Ha Hc). exists (AwaitOp n p).
      destruct m. cbn in *. rewrite Hs, Hf. auto.
    + rewrite (runAttempt_throws _ _ _ _ _ _ Ha Hc).
      apply catchBlock_outcome; destruct m; assumption.
Qed.

Lemma resumeAfterOp_outcome (m : M) (n : nat) (p : Settled T Err) :
  isSuccess (hook m) = false -> isFailed (hook m) = false ->
  outcomeOk (resumeAfterOp o random n p m).
Proof.
  intros Hs Hf. destruct p as [v|e];
    [|rewrite resumeAfterOp_reject; apply catchBlock_outcome; assumption].
  explode m. cbn in Hs, Hf. subst.
  unfold resumeAfterOp, tryCatch, bind, callOnSuccess, outcomeOk. cbn.
  destruct (onSuccess o) as [f'|] eqn:E; cbn.
  - destruct Hcb as (_ & _ & Hos). rewrite (Hos f' v E). cbn.
    eexists; split; [reflexivity|]. split; [reflexivity|discriminate].
  - eexists; split; [reflexivity|]. split; [reflexivity|discriminate].
Qed.

Lemma resumeAfterWait_outcome (m : M) (n : nat) :
  isSuccess (hook m) = false -> isFailed (hook m) = false ->
  outcomeOk (resumeAfterWait o asyncFn random n m).
Proof.
  intros Hs Hf. rewrite resumeAfterWait_eq. destruct (abortRef (hook m)).
  - exists (Fulfilled None). cbn. rewrite Hs, Hf. auto.
  - apply runAttempt_outcome; explode m; assumption.
Qed.

Lemma OneOutcome_store (c : Sync (Task T Err)) (m : M) (t : Task T Err) :
  tasks m = [t] -> Framed c -> outcomeOk (c m) ->
  OneOutcome (store 0 (asPromise c m)).
Proof.
  intros Ht Hc (t' & Hfst & Hflags & Hpend).
  pose proof (proj1 (Hc m)) as Htasks. rewrite Ht in Htasks.
  unfold asPromise. destruct (c m) as [c0 [h ts tm nt oc rc l]].
  cbn in Hfst, Hflags, Hpend, Htasks. subst c0 ts.
  exists t'. cbn. auto.
Qed.

Lemma step_OneOutcome (m : M) (a : Action) :
  OneOutcome m -> isExecute a = false ->
  OneOutcome (step o asyncFn random m a).
Proof.
  intros (t & Ht & Hflags & Hpend) Hx.
  destruct a as [seen| | |i|i]; try discriminate Hx; cbn [step].
  - exists t. explode m. cbn in *. destruct tr; cbn; auto.
  - exists t. rewrite hook_reset, (proj1 (reset_frame m)). cbn. auto.
  - rewrite Ht. destruct i as [|i]; cbn [lookup list_lookup];
      [|exists t; auto].
    destruct t as [n p|n tid|r|x]; try (eexists; eauto; fail).
    destruct (Hpend eq_refl) as [Hs Hf].
    apply (OneOutcome_store _ m (AwaitOp n p) Ht);
      [apply Framed_resumeAfterOp|apply resumeAfterOp_outcome; assumption].
  - rewrite Ht. destruct i as [|i]; cbn [lookup list_lookup];
      [|exists t; auto].
    destruct t as [n p|n tid|r|x]; try (eexists; eauto; fail).
    destruct (timerLive tid (timers m)); [|eexists; eauto].
    destruct (Hpend eq_refl) as [Hs Hf].
    apply (OneOutcome_store _ (disarm tid m) (AwaitTimer n tid));
      [destruct m; exact Ht|apply Framed_resumeAfterWait|].
    apply resumeAfterWait_outcome; destruct m; assumption.
Qed.

Lemma execute_OneOutcome :
  OneOutcome (step o asyncFn random initialMachine (CallExecute false)).
Proof.
  cbn [step].
  assert (H : outcomeOk (execute o asyncFn random false initialMachine)).
  { rewrite execute_false. apply runAttempt_outcome; reflexivity. }
  destruct H as (t' & Hfst & Hflags & Hpend).
  pose proof (proj1 (Framed_execute o asyncFn random false initialMachine)) as Htasks.
  unfold asPromise.
  destruct (execute o asyncFn random false initialMachine)
    as [c0 [h ts tm nt oc rc l]].
  cbn in Hfst, Hflags, Hpend, Htasks. subst c0 ts.
  exists t'. cbn. auto.
Qed.
End OutcomeFacts.

Section OutcomeTheorem.
Context {T Err : Type}.
Variable o : UseRetryOptions T Err.
Variable asyncFn : nat -> CallResult T Err.
Variable random : nat -> Q.

(** X10: with callbacks that return, a sequence never reports both outcomes:
    from [execute()] on a fresh hook, whatever settles or fires and however
    [abort] and [reset] are called in between, [isSuccess] and [isFailed]
    are never both true. *)
Theorem success_and_failure_exclude (l : list Action) :
  callbacksReturn o ->
  forallb (fun a => negb (isExecute a)) l = true ->
  let m := run o asyncFn random
             (step o asyncFn random initialMachine (CallExecute false)) l in
  isSuccess (hook m) && isFailed (hook m) = false.
Proof.
  intros Hcb Hl. cbn zeta.
  assert (H : OneOutcome
                (run o asyncFn random
                   (step o asyncFn random initialMachine (CallExecute false)) l)).
  { generalize (execute_OneOutcome o asyncFn random Hcb).
    generalize (step o asyncFn random initialMachine (CallExecute false)).
    induction l as [|a l IH]; intros m Hm; [exact Hm|].
    cbn [forallb] in Hl. apply andb_true_iff in Hl as [Hx Hl].
    apply negb_true_iff in Hx.
    change (run o asyncFn random m (a :: l))
      with (run o asyncFn random (step o asyncFn random m a) l).
    apply (IH Hl), step_OneOutcome; assumption. }
  destruct H as (t & _ & Hflags & _). exact Hflags.
Qed.
End OutcomeTheorem.

(** ** Unmount, and how abort and reset compose *)

Section UnmountFacts.
Context {T Err : Type}.
Variable o : UseRetryOptions T Err.
Variable asyncFn : nat -> CallResult T Err.
Variable random : nat -> Q.

Local Abbreviation M := (Machine T Err).

Lemma removeTimer_not_live (tid : nat) (l : list nat) :
  timerLive tid l = false -> removeTimer tid l = l.
Proof.
  unfold timerLive, removeTimer. induction l as [|a l IH]; [reflexivity|].
  cbn. destruct (Nat.eqb tid a); cbn; [discriminate|].
  intros H. rewrite (IH H). reflexivity.
Qed.

(** X14: unmounting during the wait clears the timer and nothing else: the state
    cells, the refs and the abort flag are as before, and the promise of the
    waiting sequence never settles, whatever happens afterwards. *)
Theorem unmount_strands_waiting_sequence (m : M) (i n tid : nat) :
  tasks m !! i = Some (AwaitTimer n tid) ->
  timeoutRef (hook m) = Some tid -> (tid < nextTimer m)%nat ->
  let m' := snd (unmountCleanup m) in
  hook m' = hook m /\ opCalls m' = opCalls m /\
  timerLive tid (timers m') = false /\
  forall l, Stuck i n tid (run o asyncFn random m' l).
Proof.
  intros Ht Hr Hn. cbn zeta. explode m. cbn in Ht, Hr, Hn. subst tr.
  cbn. do 2 (split; [reflexivity|]). split; [apply timerLive_removeTimer|].
  intros l'. apply run_Stuck. repeat split; cbn; [exact Ht| |exact Hn].
  apply timerLive_removeTimer.
Qed.

(** X15: unmounting while no wait is pending changes nothing: the abort flag is
    not set, so a sequence whose attempt is in flight goes on, and retries,
    after the unmount. *)
Theorem unmount_leaves_running_sequence (m : M) :
  (forall tid, timeoutRef (hook m) = Some tid -> timerLive tid (timers m) = false) ->
  snd (unmountCleanup m) = m.
Proof.
  intros H. explode m. cbn in H. destruct tr as [tid|]; [|reflexivity].
  cbn. rewrite (removeTimer_not_live tid tm (H tid eq_refl)). reflexivity.
Qed.

(** X16: [abort] is idempotent, [reset] is idempotent, and [reset] absorbs an
    [abort] made just before it. *)
Theorem abort_reset_compose (m : M) :
  snd (abort (snd (abort m))) = snd (abort m) /\
  snd (reset (snd (reset m))) = snd (reset m) /\
  snd (reset (snd (abort m))) = snd (reset m).
Proof. explode m. destruct tr; repeat split. Qed.
End UnmountFacts.

(** * useErrorHandler *)

Section SliceFacts.
Context {A : Type}.

Lemma sliceTo_nonneg (stop : Z) (l : list A) :
  (0 <= stop)%Z -> sliceTo stop l = firstn (Z.to_nat stop) l.
Proof.
  intros H. unfold sliceTo. destruct (Z.ltb_spec stop 0); [lia|].
  destruct (Z.le_gt_cases stop (Z.of_nat (length l))) as [Hle|Hgt].
  - rewrite Z.min_l by lia. reflexivity.
  - rewrite Z.min_r by lia. rewrite Nat2Z.id.
    rewrite !firstn_all2 by lia. reflexivity.
Qed.

Lemma sliceTo_singleton_nonpos (stop : Z) (x : A) :
  (stop <= 0)%Z -> sliceTo stop [x] = [].
Proof.
  intros H. unfold sliceTo. cbn [length].
  destruct (Z.ltb_spec stop 0).
  - rewrite Z.max_r by lia. reflexivity.
  - rewrite Z.min_l by lia. replace stop with 0%Z by lia. reflexivity.
Qed.

Lemma firstn_cons_firstn (k : nat) (x : A) (l : list A) :
  firstn k (x :: firstn k l) = firstn k (x :: l).
Proof.
  destruct k as [|k]; [reflexivity|]. cbn [firstn]. f_equal.
  rewrite firstn_firstn. f_equal. lia.
Qed.
End SliceFacts.

Section HandlerFacts.
Context {Err : Type}.
Variable o : UseErrorHandlerOptions Err.

Lemma handlerRun_snoc (s : HandlerState Err) (l : list (HandlerCall (Err := Err)))
    (c : HandlerCall) :
  handlerRun o s (l ++ [c]) = handlerStep o (handlerRun o s l) c.
Proof. unfold handlerRun. rewrite fold_left_app. reflexivity. Qed.

Lemma handlerStep_bounded (s : HandlerState Err) (c : HandlerCall) :
  (length (errors s) <= Z.to_nat (maxErrors o))%nat ->
  (length (errors (handlerStep o s c)) <= Z.to_nat (maxErrors o))%nat.
Proof.
  intros Hs. destruct c as [e|]; cbn [handlerStep]; [|cbn; lia].
  assert (Hslice : (length (sliceTo (maxErrors o) (e :: errors s))
                    <= Z.to_nat (maxErrors o))%nat).
  { destruct (Z.le_gt_cases 0 (maxErrors o)) as [Hge|Hlt].
    - rewrite sliceTo_nonneg by exact Hge. rewrite length_firstn. lia.
    - assert (Hnil : errors s = []).
      { destruct (errors s); [reflexivity|]. cbn in Hs. lia. }
      rewrite Hnil, sliceTo_singleton_nonpos by lia. cbn. lia. }
  unfold handleError. destruct (onError o) as [f|]; [destruct (f e)|]; cbn; auto.
Qed.

(** X17: the history never holds more than [maxErrors] errors, whatever is
    handled and cleared; with [maxErrors] at or below 0 it stays empty. *)
Theorem history_bounded (l : list (HandlerCall (Err := Err))) :
  (length (errors (handlerRun o initialHandler l)) <= Z.to_nat (maxErrors o))%nat.
Proof.
  induction l as [|c l IH] using rev_ind; [cbn; lia|].
  rewrite handlerRun_snoc. apply handlerStep_bounded, IH.
Qed.

(** X18: the history is the latest errors, newest first: after handling the
    errors [es] in order, with an [onError] that returns (or none), it holds
    the last [maxErrors] of them in reverse order of arrival. *)
Theorem history_is_latest_first (es : list Err) :
  (forall f e, onError o = Some f -> f e = Normal tt) ->
  errors (handlerRun o initialHandler (map HandleError es)) =
  firstn (Z.to_nat (maxErrors o)) (rev es).
Proof.
  intros Hf. induction es as [|e es IH] using rev_ind.
  - cbn. rewrite firstn_nil. reflexivity.
  - rewrite map_app. cbn [map]. rewrite handlerRun_snoc. cbn [handlerStep].
    rewrite rev_app_distr. cbn [rev app].
    assert (Hh : errors (snd (handleError o e
                   (handlerRun o initialHandler (map HandleError es)))) =
                 sliceTo (maxErrors o)
                   (e :: errors (handlerRun o initialHandler (map HandleError es)))).
    { unfold handleError. destruct (onError o) as [f|] eqn:E; [|reflexivity].
      rewrite (Hf f e eq_refl). reflexivity. }
    rewrite Hh, IH.
    destruct (Z.le_gt_cases 0 (maxErrors o)) as [Hge|Hlt].
    + rewrite sliceTo_nonneg by exact Hge. apply firstn_cons_firstn.
    + replace (Z.to_nat (maxErrors o)) with 0%nat by lia. cbn [firstn].
      apply sliceTo_singleton_nonpos. lia.
Qed.

(** X19: with room for at least one error, the error just handled is
    [latestError]. *)
Theorem latestError_after_handleError (e : Err) (s : HandlerState Err) :
  (1 <= maxErrors o)%Z ->
  (forall f, onError o = Some f -> f e = Normal tt) ->
  fst (handleError o e s) = Normal tt /\
  latestError (snd (handleError o e s)) = Some e.
Proof.
  intros Hm Hf.
  assert (Hs : head (sliceTo (maxErrors o) (e :: errors s)) = Some e).
  { rewrite sliceTo_nonneg by lia.
    destruct (Z.to_nat (maxErrors o)) as [|k] eqn:E; [lia|reflexivity]. }
  unfold handleError, latestError.
  destruct (onError o) as [f|] eqn:E; [rewrite (Hf f eq_refl)|]; cbn; auto.
Qed.

(** X20: [onError] is called once for each error handled, in order, whether or
    not it throws and whether or not the error is kept. *)
Theorem onError_called_for_each_error (f : Err -> Completion Err unit) (es : list Err) :
  onError o = Some f ->
  onErrorCalls (handlerRun o initialHandler (map HandleError es)) = es.
Proof.
  intros Hf. induction es as [|e es IH] using rev_ind; [reflexivity|].
  rewrite map_app. cbn [map]. rewrite handlerRun_snoc. cbn [handlerStep].
  unfold handleError. rewrite Hf. destruct (f e); cbn; rewrite IH; reflexivity.
Qed.

(** X21: when [onError] throws, [handleError] throws the same value and the
    error is not recorded: the history is as before. *)
Theorem throwing_onError_skips_history (f : Err -> Completion Err unit) (e x : Err)
    (s : HandlerState Err) :
  onError o = Some f -> f e = Thrown x ->
  fst (handleError o e s) = Thrown x /\
  errors (snd (handleError o e s)) = errors s /\
  latestError (snd (handleError o e s)) = latestError s.
Proof.
  intros Hf Hx. unfold handleError, latestError. rewrite Hf, Hx. repeat split.
Qed.
End HandlerFacts.

(** ** Success after retries *)

Section RecoveringRun.
Context {T Err : Type}.
Variable o : UseRetryOptions T Err.
Variable asyncFn : nat -> CallResult T Err.
Variable random : nat -> Q.
(** The first [n - 1] calls fail and are retried; call number [n] resolves
    with [v], and [onSuccess] returns. *)
Variable n : nat.
Variable errs : nat -> Err.
Variable v : T.
Hypothesis Hfail : forall k, (S k < n)%nat -> failure (asyncFn k) = Some (errs k).
Hypothesis Hretry : forall k, (1 <= k < n)%nat ->
  (k < maxAttempts o)%nat /\ shouldRetry o (errs (pred k)) k = Normal true.
Hypothesis Hlast : asyncFn (pred n) = Returns (Resolve v).
Hypothesis HonSuccess : forall f, onSuccess o = Some f -> f v = Normal tt.

Local Abbreviation M := (Machine T Err).
Local Abbreviation attemptHook k :=
  (mkHook k false false false 0%Q None false (lastTimer k) k).

Lemma onSuccessCalls_app (l1 l2 : list (Event T Err)) :
  onSuccessCalls (l1 ++ l2) = onSuccessCalls l1 ++ onSuccessCalls l2.
Proof. unfold onSuccessCalls. apply flat_map_app. Qed.

(** The last attempt: the call, its settlement, the success. *)
Lemma drive_last_attempt (ts : list (Task T Err)) (rc : nat) (l : list (Event T Err))
    (fuel : nat) :
  (1 <= n)%nat -> (1 <= fuel)%nat ->
  onFailureCalls l = [] -> onSuccessCalls l = [] ->
  SucceededAt o n v
    (drive o asyncFn random fuel 0
       (place (asPromise (runAttempt o asyncFn random n)
                 (mkMachine (attemptHook n) ts [] n (pred n) rc l)))).
Proof.
  intros Hn Hfuel Hl Hs. destruct fuel as [|fuel]; [lia|].
  unfold asPromise.
  rewrite (runAttempt_returns o asyncFn random
             (mkMachine (attemptHook n) ts [] n (pred n) rc l) n _ eq_refl Hlast).
  cbn [afterCall place noteSettled settled].
  rewrite (drive_AwaitOp o asyncFn random fuel n (Resolve v)); [|reflexivity].
  assert (HS : S (pred n) = n) by lia. rewrite HS.
  unfold asPromise, resumeAfterOp, tryCatch, bind, callOnSuccess.
  destruct (onSuccess o) as [f'|] eqn:Ho.
  - cbn. rewrite (HonSuccess f' eq_refl). cbn.
    rewrite (drive_settled _ _ _ _ _ _ (Fulfilled (Some v))); [|reflexivity|reflexivity].
    unfold SucceededAt. rewrite Ho. cbn [hook tasks opCalls log timers].
    repeat split.
    + rewrite !onFailureCalls_app, Hl. reflexivity.
    + rewrite !onSuccessCalls_app, Hs. reflexivity.
  - cbn.
    rewrite (drive_settled _ _ _ _ _ _ (Fulfilled (Some v))); [|reflexivity|reflexivity].
    unfold SucceededAt. rewrite Ho. cbn [hook tasks opCalls log timers].
    repeat split.
    + rewrite !onFailureCalls_app, Hl. reflexivity.
    + rewrite !onSuccessCalls_app, Hs. reflexivity.
Qed.

(** From the [catch] block of an earlier attempt to its retry. *)
Lemma drive_retry (k : nat) (ts : list (Task T Err)) (rc : nat)
    (l : list (Event T Err)) (fuel : nat) :
  (1 <= k < n)%nat ->
  drive o asyncFn random (S fuel) 0
    (place (asPromise (catchBlock o random k (errs (pred k)))
              (mkMachine (attemptHook k) ts [] k k rc l))) =
  drive o asyncFn random fuel 0
    (place (asPromise (runAttempt o asyncFn random (S k))
              (mkMachine (attemptHook (S k)) [AwaitTimer k k] [] (S k) k (S rc)
                         (l ++ [CalledShouldRetry (errs (pred k)) k])))).
Proof.
  intros Hk. destruct (Hretry k Hk) as [Hlt Hs].
  unfold asPromise at 1. rewrite (catchBlock_retry _ _ _ _ _ Hlt Hs).
  cbn [place waitingMachine noteSettled settled].
  rewrite (drive_AwaitTimer o asyncFn random fuel k); [|reflexivity|reflexivity].
  cbn [nextTimer pred disarm]. rewrite removeTimer_single.
  unfold asPromise. rewrite resumeAfterWait_eq.
  cbn [hook abortRef setTimeoutRef setIsRetrying setDelayMs withHook
       setAttempt setAttemptRef].
  rewrite Nat.add_1_r. destruct k as [|k]; [lia|]. reflexivity.
Qed.

Lemma drive_recovering (d : nat) :
  forall k (ts : list (Task T Err)) (rc : nat) (l : list (Event T Err)) (fuel : nat),
  (n - k = d)%nat -> (1 <= k <= n)%nat ->
  onFailureCalls l = [] -> onSuccessCalls l = [] ->
  (2 * (n - k) + 1 <= fuel)%nat ->
  SucceededAt o n v
    (drive o asyncFn random fuel 0
       (place (asPromise (runAttempt o asyncFn random k)
                 (mkMachine (attemptHook k) ts [] k (pred k) rc l)))).
Proof.
  induction d as [d IHd] using lt_wf_ind.
  intros k ts rc l fuel Hd Hk Hl Hs Hfuel.
  destruct (Nat.eq_dec k n) as [->|Hne].
  { apply drive_last_attempt; auto; lia. }
  assert (HS : S (pred k) = k) by lia.
  pose proof (Hfail (pred k) ltac:(lia)) as Hf.
  assert (Hnext : forall ts' rc' l' fuel',
    onFailureCalls l' = [] -> onSuccessCalls l' = [] ->
    (2 * (n - k) <= fuel')%nat ->
    SucceededAt o n v
      (drive o asyncFn random fuel' 0
         (place (asPromise (catchBlock o random k (errs (pred k)))
                   (mkMachine (attemptHook k) ts' [] k k rc' l'))))).
  { intros ts' rc' l' fuel' Hl' Hs' Hf'. destruct fuel' as [|fuel']; [lia|].
    rewrite drive_retry by lia.
    apply (IHd (n - S k)%nat); [lia|reflexivity|lia| | |lia].
    - rewrite onFailureCalls_app, Hl'. reflexivity.
    - rewrite onSuccessCalls_app, Hs'. reflexivity. }
  destruct (asyncFn (pred k)) as [[v0|e]|e] eqn:Hc; cbn in Hf; try discriminate;
    injection Hf as ->; unfold asPromise.
  - rewrite (runAttempt_returns o asyncFn random
               (mkMachine (attemptHook k) ts [] k (pred k) rc l) k _ eq_refl Hc).
    destruct fuel as [|fuel]; [lia|].
    cbn [afterCall place noteSettled settled].
    rewrite (drive_AwaitOp o asyncFn random fuel k (Reject (errs (pred k))));
      [|reflexivity].
    rewrite resumeAfterOp_reject, HS.
    apply Hnext; [| |lia].
    + rewrite onFailureCalls_app, Hl. reflexivity.
    + rewrite onSuccessCalls_app, Hs. reflexivity.
  - rewrite (runAttempt_throws o asyncFn random
               (mkMachine (attemptHook k) ts [] k (pred k) rc l) k _ eq_refl Hc).
    cbn [afterCall]. rewrite HS.
    match goal with
    | |- context [catchBlock o random k ?e ?m'] =>
        change (SucceededAt o n v
                  (drive o asyncFn random fuel 0
                     (place (asPromise (catchBlock o random k e) m'))))
    end.
    apply Hnext; [| |lia].
    + rewrite onFailureCalls_app, Hl. reflexivity.
    + rewrite onSuccessCalls_app, Hs. reflexivity.
Qed.
End RecoveringRun.

Section RecoveringTheorem.
Context {T Err : Type}.
Variable o : UseRetryOptions T Err.
Variable asyncFn : nat -> CallResult T Err.
Variable random : nat -> Q.

(** X8: when the first [n - 1] calls fail and are retried and call number [n]
    resolves with [v], [execute()] on a fresh hook ends in success at
    attempt [n]: the operation has been called exactly [n] times, the
    promise resolves with [v], [isSuccess] is true and [isFailed] false,
    [onSuccess] is called once and [onFailure] never. *)
Theorem retries_then_success (n : nat) (errs : nat -> Err) (v : T) (fuel : nat) :
  (1 <= n)%nat ->
  (forall k, (S k < n)%nat -> failure (asyncFn k) = Some (errs k)) ->
  (forall k, (1 <= k < n)%nat ->
     (k < maxAttempts o)%nat /\ shouldRetry o (errs (pred k)) k = Normal true) ->
  asyncFn (pred n) = Returns (Resolve v) ->
  (forall f, onSuccess o = Some f -> f v = Normal tt) ->
  (2 * n <= fuel)%nat ->
  let final :=
    drive o asyncFn random fuel 0
      (step o asyncFn random initialMachine (CallExecute false)) in
  tasks final = [Fulfilled (Some v)] /\
  opCalls final = n /\ attempt (hook final) = n /\
  isSuccess (hook final) = true /\ isFailed (hook final) = false /\
  isRetrying (hook final) = false /\ error (hook final) = None /\
  onFailureCalls (log final) = [] /\
  onSuccessCalls (log final) = match onSuccess o with Some _ => [v] | None => [] end.
Proof.
  intros Hn Hfail Hretry Hlast Hos Hfuel. cbn zeta.
  assert (H : SucceededAt o n v
                (drive o asyncFn random fuel 0
                   (step o asyncFn random initialMachine (CallExecute false)))).
  { cbn [step].
    rewrite spawn_asPromise_place; [|apply Framed_execute|reflexivity].
    unfold asPromise. rewrite execute_false.
    apply (drive_recovering o asyncFn random n errs v Hfail Hretry Hlast Hos
             (n - 1) 1 [] 0 []); auto; lia. }
  destruct H as (Hh & Ht & Ho & Hf & Hs & _).
  rewrite Hh, Ht, Ho, Hf, Hs. repeat split.
Qed.
End RecoveringTheorem.

Lemma retries_then_success_witness :
  let final :=
    drive threeAttempts failsOnce midpoint 4 0
      (step threeAttempts failsOnce midpoint initialMachine (CallExecute false)) in
  tasks final = [Fulfilled (Some 42%nat)] /\
  opCalls final = 2%nat /\ attempt (hook final) = 2%nat /\
  isSuccess (hook final) = true /\ isFailed (hook final) = false /\
  isRetrying (hook final) = false /\ error (hook final) = None /\
  onFailureCalls (log final) = [] /\
  onSuccessCalls (log final) = [42%nat].
Proof.
  apply (retries_then_success threeAttempts failsOnce midpoint 2 (fun _ => 7%nat)
           42%nat 4).
  - lia.
  - intros k Hk. assert (k = 0)%nat as -> by lia. reflexivity.
  - intros k Hk. assert (k = 1)%nat as -> by lia. split; [cbn; lia|reflexivity].
  - reflexivity.
  - intros f [= <-]. reflexivity.
  - lia.
Defined.

(** ** The further properties, run *)


Lemma aborted_hook_never_calls_operation_witness :
  let m := step threeAttempts alwaysRejects midpoint waitingMachine1 CallAbort in
  let l := [TimerFires 0; OpSettles 0; CallReset; CallAbort] in
  opCalls (run threeAttempts alwaysRejects midpoint m l) = opCalls m /\
  abortRef (hook (run threeAttempts alwaysRejects midpoint m l)) = true.
Proof.
  cbn zeta.
  apply (aborted_hook_never_calls_operation threeAttempts alwaysRejects midpoint);
    reflexivity.
Defined.

Lemma abort_in_flight_keeps_result_witness :
  let m' := step threeAttempts alwaysResolves midpoint
              (step threeAttempts alwaysResolves midpoint resolvingMachine CallAbort)
              (OpSettles 0) in
  tasks resolvingMachine !! 0%nat = Some (AwaitOp 1 (Resolve 42%nat)) /\
  tasks m' !! 0%nat = Some (Fulfilled (Some 42%nat)) /\
  isSuccess (hook m') = true /\ abortRef (hook m') = true.
Proof.
  cbn zeta. split; [reflexivity|].
  pose proof (abort_in_flight_keeps_result threeAttempts alwaysResolves midpoint
                resolvingMachine 0 1 42%nat eq_refl) as H.
  destruct H as (H1 & H2 & H3 & _).
  - intros f [= <-]. reflexivity.
  - split; [exact H1|]. split; [exact H2|exact H3].
Defined.

Lemma abort_in_flight_then_failure_witness :
  let m1 := step threeAttempts alwaysRejects midpoint
              (step threeAttempts alwaysRejects midpoint runningMachine CallAbort)
              (OpSettles 0) in
  let m2 := step threeAttempts alwaysRejects midpoint m1 (TimerFires 0) in
  tasks m1 !! 0%nat = Some (AwaitTimer 1 1) /\
  tasks m2 !! 0%nat = Some (Fulfilled None) /\
  opCalls m2 = 1%nat /\ isRetrying (hook m2) = true.
Proof.
  cbn zeta.
  pose proof (abort_in_flight_then_failure threeAttempts alwaysRejects midpoint
                runningMachine 0 1 100%nat eq_refl) as H.
  destruct H as (H1 & _ & _ & H4 & H5 & H6 & _).
  - cbn. lia.
  - reflexivity.
  - split; [exact H1|]. split; [exact H4|]. split; [exact H5|exact H6].
Defined.

Lemma first_attempt_success_witness :
  let final := drive threeAttempts alwaysResolves midpoint 1 0 resolvingMachine in
  hook final = mkHook 1 false true false 0%Q None false None 1 /\
  tasks final = [Fulfilled (Some 42%nat)] /\
  opCalls final = 1%nat /\ randCalls final = 0%nat /\
  timers final = [] /\ nextTimer final = 1%nat /\
  onSuccessCalls (log final) = [42%nat].
Proof.
  apply (first_attempt_success threeAttempts alwaysResolves midpoint 42%nat 1).
  - reflexivity.
  - intros f [= <-]. reflexivity.
  - lia.
Defined.

Lemma success_and_failure_exclude_witness :
  let m := run threeAttempts failsOnce midpoint
             (step threeAttempts failsOnce midpoint initialMachine (CallExecute false))
             [TimerFires 0; CallAbort; OpSettles 0; CallReset] in
  isSuccess (hook m) && isFailed (hook m) = false.
Proof.
  apply (success_and_failure_exclude threeAttempts failsOnce midpoint
           [TimerFires 0; CallAbort; OpSettles 0; CallReset]
           threeAttempts_callbacksReturn).
  reflexivity.
Defined.

Lemma unmount_strands_waiting_sequence_witness :
  let m' := snd (unmountCleanup waitingMachine1) in
  hook m' = hook waitingMachine1 /\ opCalls m' = 1%nat /\
  timerLive 1 (timers m') = false /\
  forall l, Stuck 0 1 1 (run threeAttempts alwaysRejects midpoint m' l).
Proof.
  apply (unmount_strands_waiting_sequence threeAttempts alwaysRejects midpoint
           waitingMachine1 0 1 1); [reflexivity|reflexivity|cbn; lia].
Defined.

Lemma unmount_leaves_running_sequence_witness :
  snd (unmountCleanup runningMachine) = runningMachine.
Proof.
  apply (unmount_leaves_running_sequence runningMachine).
  intros tid H. discriminate H.
Defined.

Lemma history_is_latest_first_witness :
  errors (handlerRun keepTwo initialHandler (map HandleError [1; 2; 3]%nat)) =
  [3; 2]%nat.
Proof.
  apply (history_is_latest_first keepTwo [1; 2; 3]%nat).
  intros f e [= <-]. reflexivity.
Defined.

Lemma latestError_after_handleError_witness :
  fst (handleError keepTwo 9%nat (mkHandler [1; 2]%nat [])) = Normal tt /\
  latestError (snd (handleError keepTwo 9%nat (mkHandler [1; 2]%nat []))) = Some 9%nat.
Proof.
  apply (latestError_after_handleError keepTwo 9%nat (mkHandler [1; 2]%nat [])).
  - cbn. lia.
  - intros f [= <-]. reflexivity.
Defined.

Lemma onError_called_for_each_error_witness :
  onErrorCalls (handlerRun throwingOnError initialHandler (map HandleError [1; 2]%nat)) =
  [1; 2]%nat.
Proof.
  apply (onError_called_for_each_error throwingOnError (fun _ => Thrown 55%nat)
           [1; 2]%nat).
  reflexivity.
Defined.

Lemma throwing_onError_skips_history_witness :
  fst (handleError throwingOnError 9%nat (mkHandler [1]%nat [])) = Thrown 55%nat /\
  errors (snd (handleError throwingOnError 9%nat (mkHandler [1]%nat []))) = [1]%nat /\
  latestError (snd (handleError throwingOnError 9%nat (mkHandler [1]%nat []))) =
    Some 1%nat.
Proof.
  apply (throwing_onError_skips_history throwingOnError (fun _ => Thrown 55%nat)
           9%nat 55%nat (mkHandler [1]%nat [])); reflexivity.
Defined.

(** ** Errors of the operation, from the call to the outcome *)

Section SwallowClaim.
Context {T Err : Type}.
Variable o : UseRetryOptions T Err.
Variable random : nat -> Q.

Local Abbreviation M := (Machine T Err).

(** The [catch] block does not read the promises. *)
Lemma catchBlock_tasks (n : nat) (e : Err) (h : HookState Err)
    (ts ts' : list (Task T Err)) (tm : list nat) (nt oc rc : nat)
    (l : list (Event T Err)) :
  catchBlock o random n e (mkMachine h ts' tm nt oc rc l) =
  let '(c, mkMachine h1 _ tm1 nt1 oc1 rc1 l1) :=
    catchBlock o random n e (mkMachine h ts tm nt oc rc l) in
  (c, mkMachine h1 ts' tm1 nt1 oc1 rc1 l1).
Proof.
  destruct h as [a r s f d e0 ab tr ar].
  unfold catchBlock, bind, callShouldRetry, callOnFailure, bind, emit, call.
  cbn. destruct (maxAttempts o <=? n)%nat; cbn.
  - destruct (onFailure o) as [f'|]; cbn; [destruct (f' e n)|]; reflexivity.
  - destruct (shouldRetry o e n) as [[|]|]; cbn; try reflexivity.
    destruct (onFailure o) as [f'|]; cbn; [destruct (f' e n)|]; reflexivity.
Qed.

(** It suspends at the wait only, never at the operation. *)
Lemma catchBlock_not_AwaitOp (m : M) (n k : nat) (e : Err) (p : Settled T Err) :
  fst (catchBlock o random n e m) <> Normal (AwaitOp k p).
Proof.
  explode m.
  unfold catchBlock, bind, callShouldRetry, callOnFailure, bind, emit, call.
  cbn. destruct (maxAttempts o <=? n)%nat; cbn.
  - destruct (onFailure o) as [f'|]; cbn; [destruct (f' e n)|]; discriminate.
  - destruct (shouldRetry o e n) as [[|]|]; cbn; try discriminate.
    destruct (onFailure o) as [f'|]; cbn; [destruct (f' e n)|]; discriminate.
Qed.

Lemma insert_length_snoc {A : Type} (l : list A) (x y : A) :
  <[length l := y]> (l ++ [x]) = l ++ [y].
Proof.
  rewrite <- (Nat.add_0_r (length l)). rewrite insert_app_r. reflexivity.
Qed.

Lemma lookup_length_snoc {A : Type} (l : list A) (x : A) :
  (l ++ [x]) !! length l = Some x.
Proof.
  rewrite <- (Nat.add_0_r (length l)). rewrite lookup_app_r by lia.
  replace (length l + 0 - length l)%nat with 0%nat by lia. reflexivity.
Qed.

(** [execute()] past its guard, as one step of the machine. *)
Lemma step_execute_false (asyncFn : nat -> CallResult T Err) (m : M) :
  step o asyncFn random m (CallExecute false) =
  spawn (asPromise (runAttempt o asyncFn random 1)
           (withHook (mkHook 1 (isRetrying (hook m)) false false 0%Q None
                             false (timeoutRef (hook m)) 1) m)).
Proof. cbn [step]. unfold asPromise. rewrite execute_false. reflexivity. Qed.

(** [execute()] whose first call of the operation fails, once the failure
    has been delivered: the promise it returned holds what the [catch]
    block made of the failure. *)
Lemma execute_failure_delivered (asyncFn : nat -> CallResult T Err) (m : M) (e : Err) :
  failure (asyncFn (opCalls m)) = Some e ->
  step o asyncFn random
    (step o asyncFn random m (CallExecute false)) (OpSettles (length (tasks m))) =
  spawn (asPromise (catchBlock o random 1 e)
           (afterCall (withHook (mkHook 1 (isRetrying (hook m)) false false 0%Q None
                                        false (timeoutRef (hook m)) 1) m))).
Proof.
  intros Hf. rewrite step_execute_false.
  set (h0 := mkHook 1 (isRetrying (hook m)) false false 0%Q None false
                    (timeoutRef (hook m)) 1).
  assert (Ha : abortRef (hook (withHook h0 m)) = false) by (destruct m; reflexivity).
  assert (Ho : opCalls (withHook h0 m) = opCalls m) by (destruct m; reflexivity).
  assert (Hts : tasks (afterCall (withHook h0 m)) = tasks m) by (destruct m; reflexivity).
  pose proof (catchBlock_frame o random (afterCall (withHook h0 m)) 1 e) as (_ & Ht & _).
  cbn zeta in Ht. rewrite Hts in Ht. clear Hts.
  destruct (asyncFn (opCalls m)) as [[v|e']|e'] eqn:Hc; cbn in Hf; try discriminate;
    injection Hf as ->.
  - (* the promise rejects *)
    unfold asPromise at 1.
    rewrite (runAttempt_returns o asyncFn random (withHook h0 m) 1 (Reject e) Ha)
      by (rewrite Ho; exact Hc).
    revert Ht. generalize h0. clear. intros h0 Ht.
    destruct m as [h ts tm nt oc rc l].
    cbn [withHook afterCall spawn noteSettled settled tasks] in *.
    cbn [step tasks]. rewrite lookup_length_snoc.
    rewrite resumeAfterOp_reject. unfold asPromise.
    rewrite (catchBlock_tasks 1 e h0 ts (ts ++ [AwaitOp 1 (Reject e)])).
    destruct (catchBlock o random 1 e _) as [[t|x] [h1 ts1 tm1 nt1 oc1 rc1 l1]];
      cbn in Ht; subst ts1; cbn [store spawn]; rewrite insert_length_snoc; reflexivity.
  - (* the call throws *)
    unfold asPromise at 1.
    rewrite (runAttempt_throws o asyncFn random (withHook h0 m) 1 e Ha)
      by (rewrite Ho; exact Hc).
    pose proof (fun k p => catchBlock_not_AwaitOp (afterCall (withHook h0 m)) 1 k e p) as Hno.
    unfold asPromise.
    destruct (catchBlock o random 1 e _) as [[t|x] [h1 ts1 tm1 nt1 oc1 rc1 l1]];
      cbn in Ht; subst ts1; cbn [step spawn tasks]; rewrite lookup_length_snoc;
      [|reflexivity].
    destruct t as [k p| | |]; try reflexivity. exfalso. exact (Hno k p eq_refl).
Qed.

(** C5: with callbacks that return, errors of the operation stay inside
    [execute()].  (1) Whatever the operation does and however calls,
    settlements and timers interleave, no promise of [execute()] is ever
    rejected.  (2) A throw of the call itself is handled as a rejection of
    its promise: once the rejection is delivered, the machine is the one the
    throw leaves.  (3) The failure of the first call reaches the [catch]
    block on the promise [execute()] returned: when it is terminal the
    promise resolves with [null], [isFailed] and [error] carry the failure
    and [onFailure] is told; when attempts remain, [shouldRetry] is
    consulted and the promise waits for the retry timer.  (4) A whole
    sequence of failures, the last of them terminal, ends with the promise
    resolved with [null], the last error in [error] and one report to
    [onFailure]. *)
Theorem operation_errors_are_swallowed :
  callbacksReturn o ->
  (forall asyncFn l i x,
      tasks (run o asyncFn random initialMachine l) !! i <> Some (Rejected x)) /\
  (forall asyncFnT asyncFnR (m : M) e,
      asyncFnT (opCalls m) = Throws e -> asyncFnR (opCalls m) = Returns (Reject e) ->
      let i := length (tasks m) in
      let mR := step o asyncFnR random m (CallExecute false) in
      tasks mR !! i = Some (AwaitOp 1 (Reject e)) /\
      opCalls mR = S (opCalls m) /\
      step o asyncFnR random mR (OpSettles i) =
      step o asyncFnT random m (CallExecute false)) /\
  (forall asyncFn (m : M) e,
      failure (asyncFn (opCalls m)) = Some e ->
      let i := length (tasks m) in
      let m' := step o asyncFn random
                  (step o asyncFn random m (CallExecute false)) (OpSettles i) in
      opCalls m' = S (opCalls m) /\
      ((maxAttempts o <= 1)%nat \/ shouldRetry o e 1 = Normal false ->
         tasks m' !! i = Some (Fulfilled None) /\
         isFailed (hook m') = true /\ error (hook m') = Some e /\
         isSuccess (hook m') = false /\
         onFailureCalls (log m') = onFailureCalls (log m) ++ reported o e 1) /\
      ((1 < maxAttempts o)%nat -> shouldRetry o e 1 = Normal true ->
         tasks m' !! i = Some (AwaitTimer 1 (nextTimer m)) /\
         timerLive (nextTimer m) (timers m') = true /\
         isRetrying (hook m') = true /\ isFailed (hook m') = false /\
         log m' = log m ++ [CalledOp; CalledShouldRetry e 1])) /\
  (forall asyncFn n errs fuel,
      (1 <= n)%nat ->
      (forall k, (k < n)%nat -> failure (asyncFn k) = Some (errs k)) ->
      (forall k, (1 <= k < n)%nat ->
         (k < maxAttempts o)%nat /\ shouldRetry o (errs (pred k)) k = Normal true) ->
      (maxAttempts o <= n)%nat \/ shouldRetry o (errs (pred n)) n = Normal false ->
      (2 * n <= fuel)%nat ->
      let final := drive o asyncFn random fuel 0
                     (step o asyncFn random initialMachine (CallExecute false)) in
      tasks final = [Fulfilled None] /\ opCalls final = n /\
      isFailed (hook final) = true /\ error (hook final) = Some (errs (pred n)) /\
      onFailureCalls (log final) = reported o (errs (pred n)) n).
Proof.
  intros Hcb. split; [|split; [|split]].
  - intros asyncFn l i x Hi.
    assert (Hall : allNotRejected (run o asyncFn random initialMachine l)).
    { apply run_notRejected; [exact Hcb|]. constructor. }
    unfold allNotRejected in Hall. rewrite Forall_lookup in Hall.
    specialize (Hall i _ Hi). discriminate.
  - intros asyncFnT asyncFnR m e HT HR i mR.
    assert (HfR : failure (asyncFnR (opCalls m)) = Some e) by (rewrite HR; reflexivity).
    assert (HfT : failure (asyncFnT (opCalls m)) = Some e) by (rewrite HT; reflexivity).
    pose proof (execute_failure_delivered asyncFnR m e HfR) as HdR.
    pose proof (execute_failure_delivered asyncFnT m e HfT) as HdT.
    assert (HmR : tasks mR !! i = Some (AwaitOp 1 (Reject e)) /\ opCalls mR = S (opCalls m)).
    { subst mR i. cbn [step]. unfold asPromise. rewrite execute_false.
      rewrite (runAttempt_returns o asyncFnR random _ 1 (Reject e))
        by (destruct m; first [reflexivity | exact HR]).
      destruct m as [h ts tm nt oc rc l]. cbn. split; [apply lookup_length_snoc|reflexivity]. }
    destruct HmR as [Hl Hoc]. split; [exact Hl|]. split; [exact Hoc|].
    subst mR i. rewrite HdR, <- HdT.
    (* after the throw the promise is no longer waiting for the operation *)
    rewrite step_execute_false.
    set (m0 := withHook _ m).
    assert (Hm0 : tasks (afterCall m0) = tasks m) by (destruct m; reflexivity).
    unfold asPromise.
    rewrite (runAttempt_throws o asyncFnT random m0 1 e)
      by (destruct m; first [reflexivity | exact HT]).
    pose proof (fun k p => catchBlock_not_AwaitOp (afterCall m0) 1 k e p) as Hno.
    pose proof (catchBlock_frame o random (afterCall m0) 1 e) as (_ & Hts & _).
    cbn zeta in Hts. rewrite Hm0 in Hts.
    destruct (catchBlock o random 1 e _) as [[t|x] [h1 ts1 tm1 nt1 oc1 rc1 l1]];
      cbn in Hts; subst ts1; cbn [step spawn tasks]; rewrite lookup_length_snoc;
      [|reflexivity].
    destruct t as [k p| | |]; try reflexivity. exfalso. exact (Hno k p eq_refl).
  - intros asyncFn m e Hf i m'. subst m' i.
    rewrite (execute_failure_delivered asyncFn m e Hf).
    set (h0 := mkHook 1 (isRetrying (hook m)) false false 0%Q None false
                      (timeoutRef (hook m)) 1).
    split; [|split].
    + pose proof (catchBlock_frame o random (afterCall (withHook h0 m)) 1 e)
        as (_ & _ & Hoc & _).
      unfold asPromise.
      destruct (catchBlock o random 1 e _) as [[t|x] [h1 ts1 tm1 nt1 oc1 rc1 l1]];
        cbn in Hoc |- *; rewrite Hoc; destruct m; reflexivity.
    + intros Hterm. unfold asPromise.
      destruct (catchBlock_terminal o random (afterCall (withHook h0 m)) 1 e Hterm)
        as [asked ->].
      rewrite (failureOutcome_returns o Hcb).
      destruct m as [h ts tm nt oc rc l].
      cbn [withHook afterCall failedMachine spawn tasks hook log noteSettled settled].
      split; [apply lookup_length_snoc|].
      do 3 (split; [reflexivity|]).
      unfold reported.
      destruct (onFailure o), asked;
        rewrite ?onFailureCalls_app; cbn [onFailureCalls flat_map app];
        rewrite ?app_nil_r; reflexivity.
    + intros Hlt Hs. unfold asPromise.
      rewrite (catchBlock_retry o random _ _ _ Hlt Hs).
      destruct m as [h ts tm nt oc rc l].
      cbn [withHook afterCall waitingMachine spawn tasks hook log noteSettled settled
           nextTimer timers].
      split; [apply lookup_length_snoc|].
      split; [apply timerLive_head|].
      do 2 (split; [reflexivity|]).
      rewrite <- app_assoc. reflexivity.
  - intros asyncFn n errs fuel Hn Hfail Hretry Hstop Hfuel final.
    pose proof (failing_sequence o asyncFn random n errs Hfail Hretry Hstop fuel Hn Hfuel)
      as (Hh & Ht & Ho & Hl & _).
    fold final in Hh, Ht, Ho, Hl.
    unfold failureTask in Ht. rewrite (failureOutcome_returns o Hcb) in Ht.
    rewrite Hh, Ht, Ho, Hl. repeat split.
Qed.
End SwallowClaim.

Lemma operation_errors_are_swallowed_witness :
  callbacksReturn threeAttempts /\
  (* a throw at the first call, against a rejection delivered by the host *)
  step threeAttempts alwaysRejects midpoint runningMachine (OpSettles 0) =
  step threeAttempts (fun _ => Throws 100%nat) midpoint initialMachine (CallExecute false) /\
  (* the first failure is retried: shouldRetry is consulted, the timer armed *)
  tasks waitingMachine1 !! 0%nat = Some (AwaitTimer 1 1) /\
  log waitingMachine1 = [CalledOp; CalledShouldRetry 100%nat 1] /\
  (* the sequence ends with null, the error in the state and one report *)
  tasks exhaustedMachine = [Fulfilled None] /\
  isFailed (hook exhaustedMachine) = true /\
  error (hook exhaustedMachine) = Some 102%nat /\
  onFailureCalls (log exhaustedMachine) = [(102%nat, 3%nat)].
Proof.
  pose proof (operation_errors_are_swallowed threeAttempts midpoint
                threeAttempts_callbacksReturn) as (_ & H2 & H3 & H4).
  split; [exact threeAttempts_callbacksReturn|].
  split.
  { apply (H2 (fun _ => Throws 100%nat) alwaysRejects initialMachine 100%nat);
      reflexivity. }
  destruct (H3 alwaysRejects initialMachine 100%nat eq_refl) as (_ & _ & Hretry).
  destruct Hretry as (Ht & _ & _ & _ & Hl); [cbn; lia|reflexivity|].
  split; [exact Ht|]. split; [exact Hl|].
  destruct (H4 alwaysRejects 3%nat (fun k => 100 + k)%nat 6%nat) as (Ht' & _ & Hf & He & Hl').
  - lia.
  - intros k Hk. reflexivity.
  - intros k Hk. split; [cbn; lia|reflexivity].
  - left. cbn. lia.
  - lia.
  - split; [exact Ht'|]. split; [exact Hf|]. split; [exact He|exact Hl'].
Defined.

(** ** The guard of execute *)

Section GuardFacts.
Context {T Err : Type}.
Variable o : UseRetryOptions T Err.
Variable asyncFn : nat -> CallResult T Err.
Variable random : nat -> Q.

Local Abbreviation M := (Machine T Err).
Local Abbreviation C := (Component T Err).

(** Past the guard [execute()] calls the operation, whatever the state. *)
Lemma execute_false_calls (m : M) :
  let m' := step o asyncFn random m (CallExecute false) in
  opCalls m' = S (opCalls m) /\ attempt (hook m') = 1%nat /\
  abortRef (hook m') = false /\ length (tasks m') = S (length (tasks m)).
Proof.
  cbn zeta. rewrite step_execute_false.
  set (m0 := withHook _ m).
  assert (Ha : abortRef (hook m0) = false) by (destruct m; reflexivity).
  assert (Ho : opCalls m0 = opCalls m) by (destruct m; reflexivity).
  assert (Hat : attempt (hook m0) = 1%nat) by (destruct m; reflexivity).
  assert (Hts : tasks m0 = tasks m) by (destruct m; reflexivity).
  unfold asPromise.
  destruct (asyncFn (opCalls m)) as [p|x] eqn:Hc.
  - rewrite (runAttempt_returns o asyncFn random m0 1 p Ha) by (rewrite Ho; exact Hc).
    destruct m0 as [h ts tm nt oc rc l]. cbn in *. subst.
    rewrite length_app. cbn.
    repeat split; first [assumption | lia].
  - rewrite (runAttempt_throws o asyncFn random m0 1 x Ha) by (rewrite Ho; exact Hc).
    pose proof (catchBlock_frame o random (afterCall m0) 1 x) as (_ & Ht & Hoc & Hab).
    pose proof (catchBlock_shape o random (afterCall m0) 1 x) as (_ & Hatt & _).
    assert (H1 : opCalls (afterCall m0) = S (opCalls m)) by (destruct m0; cbn in *; lia).
    assert (H2 : abortRef (hook (afterCall m0)) = false) by (destruct m0; exact Ha).
    assert (H3 : attempt (hook (afterCall m0)) = 1%nat) by (destruct m0; exact Hat).
    assert (H4 : tasks (afterCall m0) = tasks m) by (destruct m0; exact Hts).
    cbn zeta in Ht, Hoc, Hab. rewrite H1 in Hoc. rewrite H2 in Hab. rewrite H3 in Hatt.
    rewrite H4 in Ht.
    destruct (catchBlock o random 1 x (afterCall m0)) as [[t|y] [h ts tm nt oc rc l]];
      cbn in *; subst; rewrite length_app; cbn;
      repeat split; first [assumption | congruence | lia].
Qed.

(** Behind the guard it does nothing but hand out a promise of [null]. *)
Lemma execute_true_noop (m : M) :
  let m' := step o asyncFn random m (CallExecute true) in
  hook m' = hook m /\ opCalls m' = opCalls m /\ timers m' = timers m /\
  nextTimer m' = nextTimer m /\ randCalls m' = randCalls m /\
  tasks m' = tasks m ++ [Fulfilled None].
Proof. destruct m. cbn. repeat split. Qed.

Lemma captured_stable (l : list Occurrence) (c : C) :
  forallb stableDeps l = true ->
  captured (componentRun o asyncFn random c l) = captured c.
Proof.
  revert c. induction l as [|ev l IH]; intros c Hl; [reflexivity|].
  cbn [forallb] in Hl. apply andb_true_iff in Hl as [Hev Hl].
  cbn [componentRun fold_left]. fold (componentRun o asyncFn random).
  change (captured (componentRun o asyncFn random (componentStep o asyncFn random c ev) l)
          = captured c).
  rewrite (IH _ Hl). destruct c as [m seen].
  destruct ev as [[|]| | | | |]; try reflexivity. discriminate.
Qed.

End GuardFacts.


(** C3 as stated fails during the wait as well, when the caller's [execute]
    is the closure of an earlier render: the hook is waiting, [isRetrying]
    is true, and the call goes through: the state is re-initialised and the
    operation runs a second time. *)
Lemma execute_while_waiting_calls_again :
  let c := componentStep threeAttempts alwaysRejects midpoint waitingStale ExecuteCalled in
  tasks (machine waitingStale) = [AwaitTimer 1 1] /\
  isRetrying (hook (machine waitingStale)) = true /\
  opCalls (machine waitingStale) = 1%nat /\
  opCalls (machine c) = 2%nat /\ attempt (hook (machine c)) = 1%nat /\
  tasks (machine c) = [AwaitTimer 1 1; AwaitOp 1 (Reject 101%nat)].
Proof. repeat split. Qed.

(** ** reset, and the sequence that follows it *)

Section ReplayFacts.
Context {T Err : Type}.
Variable o : UseRetryOptions T Err.
Variable asyncFn : nat -> CallResult T Err.
Variable random : nat -> Q.
Variable before : Machine T Err.

Local Abbreviation M := (Machine T Err).
Local Abbreviation sh := (shiftTimer before).
Local Abbreviation later := (Replays before).
Local Abbreviation asyncFn' := (laterCalls before asyncFn).
Local Abbreviation random' := (laterDraws before random).

Lemma Replays_ret {A : Type} (g : A -> A) (a : A) :
  later g (@ret T Err A (g a)) (ret a).
Proof. intros f. reflexivity. Qed.

Lemma Replays_throw {A : Type} (g : A -> A) (x : Err) :
  later g (@throw T Err A x) (throw x).
Proof. intros f. reflexivity. Qed.

Lemma Replays_call {A : Type} (c : Completion Err A) :
  later (fun a => a) (@call T Err A c) (call c).
Proof. intros f. unfold call. destruct c; reflexivity. Qed.

Lemma Replays_bind {A B : Type} (g : A -> A) (g' : B -> B)
    (cm cf : @Sync T Err A) (km kf : A -> @Sync T Err B) :
  later g cm cf -> (forall a, later g' (km (g a)) (kf a)) ->
  later g' (bind cm km) (bind cf kf).
Proof.
  intros H K f. unfold bind. rewrite (H f).
  destruct (cf f) as [[a|x] f']; cbn [mapCompletion fst snd]; [apply K|reflexivity].
Qed.

Lemma Replays_tryCatch {A : Type} (g : A -> A)
    (bm bf : @Sync T Err A) (hm hf : Err -> @Sync T Err A) :
  later g bm bf -> (forall x, later g (hm x) (hf x)) ->
  later g (tryCatch bm hm) (tryCatch bf hf).
Proof.
  intros H K f. unfold tryCatch. rewrite (H f).
  destruct (bf f) as [[a|x] f']; cbn [mapCompletion fst snd];
    [reflexivity|apply K].
Qed.

Lemma Replays_emit (e : Event T Err) :
  later (fun u => u) (emit (rebaseEvent before e)) (emit e).
Proof.
  intros [h ts tm nt oc rc l]. cbn. rewrite fmap_app, app_assoc. reflexivity.
Qed.

Lemma Replays_modifyHook (fm ff : HookState Err -> HookState Err) :
  (forall h, fm (rebaseHook before h) = rebaseHook before (ff h)) ->
  later (fun u => u) (modifyHook fm) (modifyHook ff).
Proof. intros H [h ts tm nt oc rc l]. cbn. rewrite H. reflexivity. Qed.

Lemma Replays_readHook {A : Type} (g : A -> A) (pm pf : HookState Err -> A) :
  (forall h, pm (rebaseHook before h) = g (pf h)) ->
  later g (readHook pm) (readHook pf).
Proof. intros H [h ts tm nt oc rc l]. cbn. unfold readHook. cbn. rewrite H. reflexivity. Qed.

Lemma Replays_callAsyncFn :
  later (fun p => p) (callAsyncFn asyncFn) (callAsyncFn asyncFn').
Proof.
  intros [h ts tm nt oc rc l]. unfold callAsyncFn, laterCalls, rebase.
  destruct (asyncFn (oc + opCalls before)); cbn;
    rewrite fmap_app, app_assoc; reflexivity.
Qed.

Lemma Replays_drawDelay (n : nat) :
  later (fun d => d) (drawDelay o random n) (drawDelay o random' n).
Proof. intros [h ts tm nt oc rc l]. reflexivity. Qed.

Lemma Replays_setTimeout : later sh setTimeout setTimeout.
Proof. intros [h ts tm nt oc rc l]. reflexivity. Qed.

Lemma shiftTimer_eqb (a b : nat) : Nat.eqb (sh a) (sh b) = Nat.eqb a b.
Proof.
  unfold shiftTimer. destruct (Nat.eqb a b) eqn:E.
  - apply Nat.eqb_eq in E. subst. apply Nat.eqb_refl.
  - apply Nat.eqb_neq in E. apply Nat.eqb_neq. lia.
Qed.

Lemma removeTimer_shift (tid : nat) (tm : list nat) :
  removeTimer (sh tid) (sh <$> tm) = sh <$> removeTimer tid tm.
Proof.
  unfold removeTimer. induction tm as [|t tm IH]; [reflexivity|].
  cbn. rewrite shiftTimer_eqb. destruct (Nat.eqb tid t); cbn; [exact IH|].
  f_equal. exact IH.
Qed.

Lemma timerLive_shift (tid : nat) (tm : list nat) :
  timerLive (sh tid) (sh <$> tm) = timerLive tid tm.
Proof.
  unfold timerLive. induction tm as [|t tm IH]; [reflexivity|].
  cbn. rewrite shiftTimer_eqb. f_equal. exact IH.
Qed.

Lemma Replays_clearTimeout (tid : nat) :
  later (fun u => u) (clearTimeout (sh tid)) (clearTimeout tid).
Proof.
  intros [h ts tm nt oc rc l]. cbn. rewrite removeTimer_shift. reflexivity.
Qed.

Ltac hook_eq := intros [? ? ? ? ? ? ? ? ?]; reflexivity.
Ltac set_hook := apply Replays_modifyHook; hook_eq.

Lemma Replays_callShouldRetry (e : Err) (n : nat) :
  later (fun b => b) (callShouldRetry o e n) (callShouldRetry o e n).
Proof.
  unfold callShouldRetry.
  apply (Replays_bind (fun u => u)); [apply (Replays_emit (CalledShouldRetry e n))|].
  intros _. apply Replays_call.
Qed.

Lemma Replays_callOnSuccess (v : T) :
  later (fun u => u) (callOnSuccess o v) (callOnSuccess o v).
Proof.
  unfold callOnSuccess. destruct (onSuccess o) as [f|]; [|apply (Replays_ret (fun u => u))].
  apply (Replays_bind (fun u => u)); [apply (Replays_emit (CalledOnSuccess v))|].
  intros _. apply Replays_call.
Qed.

Lemma Replays_callOnFailure (e : Err) (n : nat) :
  later (fun u => u) (callOnFailure o e n) (callOnFailure o e n).
Proof.
  unfold callOnFailure. destruct (onFailure o) as [f|]; [|apply (Replays_ret (fun u => u))].
  apply (Replays_bind (fun u => u)); [apply (Replays_emit (CalledOnFailure e n))|].
  intros _. apply Replays_call.
Qed.

Lemma Replays_catchBlock (n : nat) (e : Err) :
  later (rebaseTask before) (catchBlock o random n e) (catchBlock o random' n e).
Proof.
  unfold catchBlock.
  apply (Replays_bind (fun b : bool => b)).
  - destruct (maxAttempts o <=? n)%nat; [apply (Replays_ret (fun b : bool => b))|].
    apply (Replays_bind (fun b : bool => b)); [apply Replays_callShouldRetry|].
    intros again. apply (Replays_ret (fun b : bool => b)).
  - intros [|].
    + apply (Replays_bind (fun u => u)); [set_hook|]. intros _.
      apply (Replays_bind (fun u => u)); [set_hook|]. intros _.
      apply (Replays_bind (fun u => u)); [apply Replays_callOnFailure|]. intros _.
      apply (Replays_ret (rebaseTask before) (Fulfilled None)).
    + apply (Replays_bind (fun d => d)); [apply Replays_drawDelay|]. intros delay.
      apply (Replays_bind (fun u => u)); [set_hook|]. intros _.
      apply (Replays_bind (fun u => u)); [set_hook|]. intros _.
      apply (Replays_bind sh); [apply Replays_setTimeout|]. intros tid.
      apply (Replays_bind (fun u => u)); [set_hook|]. intros _.
      apply (Replays_ret (rebaseTask before) (AwaitTimer n tid)).
Qed.

Lemma Replays_runAttempt (n : nat) :
  later (rebaseTask before) (runAttempt o asyncFn random n) (runAttempt o asyncFn' random' n).
Proof.
  unfold runAttempt.
  apply (Replays_bind (fun b : bool => b)); [apply Replays_readHook; hook_eq|].
  intros [|]; [apply (Replays_ret (rebaseTask before) (Fulfilled None))|].
  apply Replays_tryCatch; [|intros x; apply Replays_catchBlock].
  apply (Replays_bind (fun p => p)); [apply Replays_callAsyncFn|].
  intros p. apply (Replays_ret (rebaseTask before) (AwaitOp n p)).
Qed.

Lemma Replays_resumeAfterOp (n : nat) (p : Settled T Err) :
  later (rebaseTask before) (resumeAfterOp o random n p) (resumeAfterOp o random' n p).
Proof.
  unfold resumeAfterOp.
  apply Replays_tryCatch; [|intros x; apply Replays_catchBlock].
  destruct p as [v|e]; [|apply Replays_throw].
  apply (Replays_bind (fun u => u)); [set_hook|]. intros _.
  apply (Replays_bind (fun u => u)); [apply Replays_callOnSuccess|]. intros _.
  apply (Replays_ret (rebaseTask before) (Fulfilled (Some v))).
Qed.

Lemma Replays_resumeAfterWait (n : nat) :
  later (rebaseTask before) (resumeAfterWait o asyncFn random n)
        (resumeAfterWait o asyncFn' random' n).
Proof.
  unfold resumeAfterWait.
  apply (Replays_bind (fun b : bool => b)); [apply Replays_readHook; hook_eq|].
  intros [|]; [apply (Replays_ret (rebaseTask before) (Fulfilled None))|].
  apply (Replays_bind (fun u => u)); [set_hook|]. intros _.
  apply (Replays_bind (fun u => u)); [set_hook|]. intros _.
  apply (Replays_bind (fun u => u)); [set_hook|]. intros _.
  apply (Replays_bind (fun u => u)); [set_hook|]. intros _.
  apply Replays_runAttempt.
Qed.

Lemma Replays_execute (seen : bool) :
  later (rebaseTask before) (execute o asyncFn random seen) (execute o asyncFn' random' seen).
Proof.
  unfold execute.
  destruct seen; [apply (Replays_ret (rebaseTask before) (Fulfilled None))|].
  do 7 (apply (Replays_bind (fun u => u)); [set_hook|]; intros _).
  apply Replays_runAttempt.
Qed.

Lemma Replays_abort : later (fun u => u) abort abort.
Proof.
  unfold abort.
  apply (Replays_bind (fun u => u)); [set_hook|]. intros _.
  apply (Replays_bind (option_map sh)); [apply Replays_readHook; hook_eq|].
  intros current.
  apply (Replays_bind (fun u => u)).
  - destruct current as [tid|]; [|apply (Replays_ret (fun u => u))].
    apply (Replays_bind (fun u => u)); [apply Replays_clearTimeout|]. intros _. set_hook.
  - intros _. apply (Replays_bind (fun u => u)); [set_hook|]. intros _. set_hook.
Qed.

Lemma Replays_reset : later (fun u => u) reset reset.
Proof.
  unfold reset.
  apply (Replays_bind (fun u => u)); [apply Replays_abort|]. intros _.
  do 5 (apply (Replays_bind (fun u => u)); [set_hook|]; intros _).
  set_hook.
Qed.

(** The same, for the promises. *)
Lemma asPromise_rebase (cm cf : Sync (Task T Err)) (f : M) :
  later (rebaseTask before) cm cf ->
  asPromise cm (rebase before f) =
  (rebaseTask before (fst (asPromise cf f)), rebase before (snd (asPromise cf f))).
Proof.
  intros H. unfold asPromise. rewrite (H f).
  destruct (cf f) as [[t|x] f']; reflexivity.
Qed.

Lemma settled_rebaseTask (t : Task T Err) : settled (rebaseTask before t) = settled t.
Proof. destruct t; reflexivity. Qed.

Lemma spawn_rebase (t : Task T Err) (f : M) :
  spawn (rebaseTask before t, rebase before f) = rebase before (spawn (t, f)).
Proof.
  destruct f as [h ts tm nt oc rc l]. cbn [rebase spawn].
  unfold noteSettled. rewrite settled_rebaseTask, length_app, length_fmap.
  rewrite fmap_app, app_assoc. f_equal.
  destruct (settled t); [|reflexivity].
  rewrite fmap_app, app_assoc. reflexivity.
Qed.

Lemma store_rebase (i : nat) (t : Task T Err) (f : M) :
  store (length (tasks before) + i) (rebaseTask before t, rebase before f) =
  rebase before (store i (t, f)).
Proof.
  destruct f as [h ts tm nt oc rc l]. cbn [rebase store].
  unfold noteSettled. rewrite settled_rebaseTask.
  rewrite insert_app_r, list_fmap_insert. f_equal.
  destruct (settled t); [|reflexivity].
  rewrite fmap_app, app_assoc. reflexivity.
Qed.

Lemma disarm_rebase (tid : nat) (f : M) :
  disarm (sh tid) (rebase before f) = rebase before (disarm tid f).
Proof.
  destruct f as [h ts tm nt oc rc l]. cbn. rewrite removeTimer_shift. reflexivity.
Qed.

Lemma lookup_rebase (i : nat) (f : M) :
  tasks (rebase before f) !! (length (tasks before) + i)%nat =
  rebaseTask before <$> (tasks f !! i).
Proof.
  destruct f as [h ts tm nt oc rc l]. cbn [rebase tasks].
  rewrite lookup_app_r by lia.
  replace (length (tasks before) + i - length (tasks before))%nat with i by lia.
  apply list_lookup_fmap.
Qed.

Lemma timers_rebase (f : M) : timers (rebase before f) = sh <$> timers f.
Proof. destruct f; reflexivity. Qed.

(** One action of the later sequence is one action of the first. *)
Lemma step_rebase (f : M) (a a' : Action) :
  rebaseAction before a = Some a' ->
  step o asyncFn random (rebase before f) a =
  rebase before (step o asyncFn' random' f a').
Proof.
  destruct a as [seen| | |j|j]; cbn [rebaseAction].
  - intros [= <-]. cbn [step].
    rewrite (asPromise_rebase _ _ f (Replays_execute seen)).
    rewrite spawn_rebase. destruct (asPromise _ f); reflexivity.
  - intros [= <-]. cbn [step]. rewrite (Replays_abort f). reflexivity.
  - intros [= <-]. cbn [step]. rewrite (Replays_reset f). reflexivity.
  - destruct (j <? length (tasks before))%nat eqn:E; [discriminate|].
    apply Nat.ltb_ge in E. intros [= <-].
    replace j with (length (tasks before) + (j - length (tasks before)))%nat at 1 by lia.
    set (i := (j - length (tasks before))%nat).
    cbn [step]. rewrite lookup_rebase.
    destruct (tasks f !! i) as [[n p|n tid|r|x]|]; cbn [fmap option_fmap option_map rebaseTask];
      try reflexivity.
    rewrite (asPromise_rebase _ _ f (Replays_resumeAfterOp n p)).
    rewrite store_rebase. destruct (asPromise _ f); reflexivity.
  - destruct (j <? length (tasks before))%nat eqn:E; [discriminate|].
    apply Nat.ltb_ge in E. intros [= <-].
    replace j with (length (tasks before) + (j - length (tasks before)))%nat at 1 by lia.
    set (i := (j - length (tasks before))%nat).
    cbn [step]. rewrite lookup_rebase.
    destruct (tasks f !! i) as [[n p|n tid|r|x]|]; cbn [fmap option_fmap option_map rebaseTask];
      try reflexivity.
    rewrite timers_rebase, timerLive_shift.
    destruct (timerLive tid (timers f)); [|reflexivity].
    rewrite disarm_rebase.
    rewrite (asPromise_rebase _ _ (disarm tid f) (Replays_resumeAfterWait n)).
    rewrite store_rebase. destruct (asPromise _ (disarm tid f)); reflexivity.
Qed.

(** The promises of [before] are settled: the host has nothing to deliver
    to them. *)
Lemma step_settled_before (f : M) (a : Action) :
  Forall (fun t => settled t = true) (tasks before) ->
  rebaseAction before a = None ->
  step o asyncFn random (rebase before f) a = rebase before f.
Proof.
  intros Hs. destruct a as [seen| | |j|j]; cbn [rebaseAction]; try discriminate;
    destruct (j <? length (tasks before))%nat eqn:E; try discriminate; intros _;
    apply Nat.ltb_lt in E;
    destruct (lookup_lt_is_Some_2 (tasks before) j E) as [t Ht];
    pose proof (proj1 (Forall_lookup _ _) Hs j t Ht) as Hst;
    cbn [step];
    (assert (Hl : tasks (rebase before f) !! j = Some t)
       by (destruct f as [h0 ts0 tm0 nt0 oc0 rc0 l0]; cbn [rebase tasks];
           rewrite lookup_app_l by exact E; exact Ht));
    rewrite Hl; destruct t; try discriminate; reflexivity.
Qed.

Lemma run_rebase (l : list Action) (f : M) :
  Forall (fun t => settled t = true) (tasks before) ->
  run o asyncFn random (rebase before f) l =
  rebase before (run o asyncFn' random' f (omap (rebaseAction before) l)).
Proof.
  intros Hs. revert f. induction l as [|a l IH]; intros f; [reflexivity|].
  cbn [run fold_left omap list_omap].
  change (fold_left (step o asyncFn random) l ?m) with (run o asyncFn random m l).
  destruct (rebaseAction before a) as [a'|] eqn:E.
  - rewrite (step_rebase f a a' E). rewrite IH. reflexivity.
  - rewrite (step_settled_before f a Hs E). rewrite IH. reflexivity.
Qed.

(** [reset()] then [execute()] on a hook with nothing pending: the first
    call on a fresh hook, seen from there. *)
Lemma reset_execute_rebase :
  quiescent before ->
  step o asyncFn random (step o asyncFn random before CallReset) (CallExecute false) =
  rebase before (step o asyncFn' random' initialMachine (CallExecute false)).
Proof.
  intros (_ & Htm & Hnt).
  rewrite !step_execute_false.
  match goal with
  | |- spawn (asPromise _ ?m0) = rebase before (spawn (asPromise _ ?f0)) =>
      assert (Hbase : m0 = rebase before f0)
  end.
  { destruct before as [[a r s f d e ab tr ar] ts tm nt oc rc l].
    cbn in Htm, Hnt. subst tm.
    assert (Hs : S (nt - 1) = nt) by lia.
    destruct tr; cbn; unfold shiftTimer; cbn; rewrite !app_nil_r, Hs; reflexivity. }
  rewrite Hbase.
  rewrite (asPromise_rebase _ _ _ (Replays_runAttempt 1)).
  rewrite spawn_rebase. destruct (asPromise _ _); reflexivity.
Qed.
End ReplayFacts.

(** ** Timers and the promises that wait for them *)

Section PendingFacts.
Context {T Err : Type}.
Variable o : UseRetryOptions T Err.
Variable asyncFn : nat -> CallResult T Err.
Variable random : nat -> Q.

Local Abbreviation M := (Machine T Err).

Lemma timerLive_cons (tid t : nat) (l : list nat) :
  timerLive tid (t :: l) = true -> tid = t \/ timerLive tid l = true.
Proof.
  unfold timerLive. cbn. intros H. apply orb_true_iff in H as [H|H]; [|auto].
  left. apply Nat.eqb_eq, H.
Qed.

Lemma ArmsOwn_catchBlock (n : nat) (e : Err) : ArmsOwn (catchBlock o random n e).
Proof.
  intros m. explode m.
  unfold catchBlock, bind, callShouldRetry, callOnFailure, bind, emit, call.
  cbn. destruct (maxAttempts o <=? n)%nat; cbn.
  - destruct (onFailure o) as [f'|]; cbn; [destruct (f' e n)|]; cbn; auto.
  - destruct (shouldRetry o e n) as [[|]|]; cbn; auto.
    + split; [reflexivity|]. intros tid H. apply timerLive_cons in H as [->|H]; eauto.
    + destruct (onFailure o) as [f'|]; cbn; [destruct (f' e n)|]; cbn; auto.
Qed.

Lemma ArmsOwn_runAttempt (n : nat) : ArmsOwn (runAttempt o asyncFn random n).
Proof.
  intros m. destruct (abortRef (hook m)) eqn:Ha.
  - rewrite (runAttempt_aborted _ _ _ _ _ Ha). cbn. auto.
  - destruct (asyncFn (opCalls m)) as [p|x] eqn:Hc.
    + rewrite (runAttempt_returns _ _ _ _ _ _ Ha Hc). destruct m; cbn. auto.
    + rewrite (runAttempt_throws _ _ _ _ _ _ Ha Hc).
      destruct (ArmsOwn_catchBlock n x (afterCall m)) as [Ht Hl].
      destruct m; exact (conj Ht Hl).
Qed.

Lemma ArmsOwn_resumeAfterOp (n : nat) (p : Settled T Err) :
  ArmsOwn (resumeAfterOp o random n p).
Proof.
  destruct p as [v|e]; [|rewrite resumeAfterOp_reject; apply ArmsOwn_catchBlock].
  intros m. explode m. unfold resumeAfterOp, tryCatch, bind, callOnSuccess.
  destruct (onSuccess o) as [f'|]; cbn; [|auto].
  destruct (f' v) as [[]|x]; cbn; [auto|].
  exact (ArmsOwn_catchBlock n x _).
Qed.

Lemma ArmsOwn_resumeAfterWait (n : nat) : ArmsOwn (resumeAfterWait o asyncFn random n).
Proof.
  intros m. rewrite resumeAfterWait_eq. destruct (abortRef (hook m)); [cbn; auto|].
  destruct (ArmsOwn_runAttempt (n + 1) (withHook
              (setDelayMs 0%Q (setIsRetrying false
                 (setAttempt (n + 1) (setAttemptRef (n + 1) (hook m))))) m)) as [Ht Hl].
  destruct m; exact (conj Ht Hl).
Qed.

Lemma ArmsOwn_execute (seen : bool) : ArmsOwn (execute o asyncFn random seen).
Proof.
  intros m. destruct seen; [cbn; auto|]. rewrite execute_false.
  destruct (ArmsOwn_runAttempt 1 (withHook
              (mkHook 1 (isRetrying (hook m)) false false 0%Q None false
                      (timeoutRef (hook m)) 1) m)) as [Ht Hl].
  destruct m; exact (conj Ht Hl).
Qed.

Lemma ArmsOwn_asPromise (c : Sync (Task T Err)) (m : M) :
  ArmsOwn c ->
  tasks (snd (asPromise c m)) = tasks m /\
  forall tid, timerLive tid (timers (snd (asPromise c m))) = true ->
    timerLive tid (timers m) = true \/ exists n, fst (asPromise c m) = AwaitTimer n tid.
Proof.
  intros Hc. destruct (Hc m) as [Ht Hl]. unfold asPromise.
  destruct (c m) as [[t|x] m1]; cbn [fst snd] in *; split; try exact Ht;
    intros tid H; destruct (Hl tid H) as [|[n Hn]]; auto; [|discriminate].
  right. exists n. congruence.
Qed.

Lemma TimersAwaited_spawn (c : Sync (Task T Err)) (m : M) :
  ArmsOwn c -> TimersAwaited m -> TimersAwaited (spawn (asPromise c m)).
Proof.
  intros Hc Hm tid. destruct (ArmsOwn_asPromise c m Hc) as [Ht Hl].
  destruct (asPromise c m) as [t [h ts tm nt oc rc l]]. cbn in *. subst ts.
  intros H. destruct (Hl tid H) as [Hold|[n ->]].
  - destruct (Hm tid Hold) as (i & n & Hi). exists i, n.
    rewrite lookup_app_l; [exact Hi|]. apply lookup_lt_is_Some. eauto.
  - exists (length (tasks m)), n. apply lookup_length_snoc.
Qed.

Lemma TimersAwaited_store (c : Sync (Task T Err)) (i : nat) (m : M) :
  ArmsOwn c -> is_Some (tasks m !! i) ->
  (forall tid, timerLive tid (timers m) = true ->
     exists j n, j <> i /\ tasks m !! j = Some (AwaitTimer n tid)) ->
  TimersAwaited (store i (asPromise c m)).
Proof.
  intros Hc Hi Hm tid. destruct (ArmsOwn_asPromise c m Hc) as [Ht Hl].
  destruct (asPromise c m) as [t [h ts tm nt oc rc l]]. cbn in *. subst ts.
  intros H. destruct (Hl tid H) as [Hold|[n ->]].
  - destruct (Hm tid Hold) as (j & n & Hji & Hj). exists j, n.
    rewrite list_lookup_insert_ne by auto. exact Hj.
  - exists i, n. apply list_lookup_insert_eq. apply lookup_lt_is_Some. exact Hi.
Qed.

Lemma step_TimersAwaited (m : M) (a : Action) :
  TimersAwaited m -> TimersAwaited (step o asyncFn random m a).
Proof.
  intros Hm. destruct a as [seen| | |i|i]; cbn [step].
  - apply TimersAwaited_spawn; [apply ArmsOwn_execute|exact Hm].
  - intros tid H. rewrite (proj1 (Framed_abort (T:=T) (Err:=Err) m)). apply Hm.
    revert H. explode m. destruct tr; cbn; [apply timerLive_removeTimer_inv|auto].
  - intros tid H. rewrite (proj1 (Framed_reset (T:=T) (Err:=Err) m)). apply Hm.
    revert H. explode m. destruct tr; cbn; [apply timerLive_removeTimer_inv|auto].
  - destruct (tasks m !! i) as [[n p|n tid|r|x]|] eqn:Hi; try exact Hm.
    apply TimersAwaited_store; [apply ArmsOwn_resumeAfterOp|eauto|].
    intros tid H. destruct (Hm tid H) as (j & k & Hj). exists j, k.
    split; [intros ->; congruence|exact Hj].
  - destruct (tasks m !! i) as [[n p|n tid|r|x]|] eqn:Hi; try exact Hm.
    destruct (timerLive tid (timers m)) eqn:Hlive; [|exact Hm].
    apply TimersAwaited_store; [apply ArmsOwn_resumeAfterWait| |].
    + rewrite (proj1 (Grows_disarm tid m)). eauto.
    + intros tid' H.
      assert (Hne : tid' <> tid).
      { intros ->. destruct m as [h0 ts0 tm0 nt0 oc0 rc0 l0]; cbn [disarm timers] in H.
        rewrite timerLive_removeTimer in H. discriminate. }
      assert (Hold : timerLive tid' (timers m) = true).
      { destruct m as [h0 ts0 tm0 nt0 oc0 rc0 l0]; cbn [disarm timers] in H |- *.
        exact (timerLive_removeTimer_inv _ _ _ H). }
      destruct (Hm tid' Hold) as (j & k & Hj). exists j, k.
      rewrite (proj1 (Grows_disarm tid m)).
      split; [intros ->; congruence|exact Hj].
Qed.

Lemma run_TimersAwaited (l : list Action) (m : M) :
  TimersAwaited m -> TimersAwaited (run o asyncFn random m l).
Proof.
  revert m. induction l as [|a l IH]; intros m Hm; [exact Hm|].
  cbn. apply IH, step_TimersAwaited, Hm.
Qed.

Lemma nextTimer_step (m : M) (a : Action) :
  (nextTimer m <= nextTimer (step o asyncFn random m a))%nat.
Proof.
  destruct a as [seen| | |i|i]; cbn [step].
  - pose proof (Grows_asPromise _ m (Framed_execute o asyncFn random seen)) as (_ & G & _).
    destruct (asPromise _ m) as [t [h ts tm nt oc rc l]]. exact G.
  - exact (proj1 (proj2 (Framed_abort (T:=T) (Err:=Err) m))).
  - exact (proj1 (proj2 (Framed_reset (T:=T) (Err:=Err) m))).
  - destruct (tasks m !! i) as [[n p|n tid|r|x]|]; try lia.
    pose proof (Grows_asPromise _ m (Framed_resumeAfterOp o random n p)) as (_ & G & _).
    destruct (asPromise _ m) as [t [h ts tm nt oc rc l]]. exact G.
  - destruct (tasks m !! i) as [[n p|n tid|r|x]|]; try lia.
    destruct (timerLive tid (timers m)); [|lia].
    pose proof (Grows_asPromise _ (disarm tid m)
                  (Framed_resumeAfterWait o asyncFn random n)) as (_ & G & _).
    pose proof (Grows_disarm tid m) as (_ & G' & _).
    destruct (asPromise _ (disarm tid m)) as [t [h ts tm nt oc rc l]]. cbn in *. lia.
Qed.

Lemma nextTimer_run (l : list Action) (m : M) :
  (nextTimer m <= nextTimer (run o asyncFn random m l))%nat.
Proof.
  revert m. induction l as [|a l IH]; intros m; [cbn; lia|].
  cbn. eapply Nat.le_trans; [apply (nextTimer_step m a)|apply IH].
Qed.

(** On a hook that was mounted fresh, nothing is pending once every promise
    has settled: no timer is armed then. *)
Lemma settled_quiescent (l : list Action) :
  let m := run o asyncFn random initialMachine l in
  Forall (fun t => settled t = true) (tasks m) -> quiescent m.
Proof.
  intros m Hs. split; [exact Hs|]. split.
  - assert (Ha : TimersAwaited m).
    { apply run_TimersAwaited. intros tid H. discriminate. }
    destruct (timers m) as [|t tm] eqn:Et; [reflexivity|]. exfalso.
    destruct (Ha t) as (i & n & Hi); [rewrite Et; apply timerLive_head|].
    pose proof (proj1 (Forall_lookup _ _) Hs i _ Hi) as H. discriminate.
  - apply (nextTimer_run l initialMachine).
Qed.
End PendingFacts.

Section ResetClaim.
Context {T Err : Type}.
Variable o : UseRetryOptions T Err.
Variable asyncFn : nat -> CallResult T Err.
Variable random : nat -> Q.

Local Abbreviation M := (Machine T Err).
Local Abbreviation C := (Component T Err).

Lemma hook_rebase (before f : M) :
  let h := hook (rebase before f) in
  attempt h = attempt (hook f) /\ isRetrying h = isRetrying (hook f) /\
  isSuccess h = isSuccess (hook f) /\ isFailed h = isFailed (hook f) /\
  delayMs h = delayMs (hook f) /\ error h = error (hook f) /\
  abortRef h = abortRef (hook f) /\ attemptRef h = attemptRef (hook f).
Proof. explode f. cbn. repeat split. Qed.

Lemma onFailureCalls_rebase (before : M) (l : list (Event T Err)) :
  onFailureCalls (rebaseEvent before <$> l) = onFailureCalls l.
Proof.
  induction l as [|e l IH]; [reflexivity|].
  cbn [fmap list_fmap]. change (?x :: ?y) with ([x] ++ y).
  rewrite !onFailureCalls_app. f_equal; [|exact IH]. destruct e; reflexivity.
Qed.

End ResetClaim.


(** [reset()] while an attempt is in flight does not end the sequence: the
    [execute()] that follows clears the abort flag again, and the old
    sequence goes on next to the new one.  Both run to exhaustion: six calls
    of the operation and two reports to [onFailure], where a first call on a
    fresh hook makes three calls and one report. *)
Lemma reset_in_flight_keeps_old_sequence :
  let m := step threeAttempts alwaysRejects midpoint
             (step threeAttempts alwaysRejects midpoint runningMachine CallReset)
             (CallExecute false) in
  let final := drive threeAttempts alwaysRejects midpoint 6 1
                 (drive threeAttempts alwaysRejects midpoint 6 0 m) in
  tasks m = [AwaitOp 1 (Reject 100%nat); AwaitOp 1 (Reject 101%nat)] /\
  tasks final = [Fulfilled None; Fulfilled None] /\
  opCalls final = 6%nat /\
  length (onFailureCalls (log final)) = 2%nat /\
  opCalls exhaustedMachine = 3%nat /\
  length (onFailureCalls (log exhaustedMachine)) = 1%nat.
Proof. repeat split. Qed.

(** [reset(); execute()] through the [execute] of a render made during the
    wait: the guard holds, no sequence starts. *)
Lemma reset_then_guarded_execute_starts_nothing :
  let c := componentRun threeAttempts alwaysRejects midpoint waitingFresh
             [ResetCalled; ExecuteCalled] in
  isRetrying (hook (machine waitingFresh)) = true /\ captured waitingFresh = true /\
  attempt (hook (machine c)) = 0%nat /\ abortRef (hook (machine c)) = true /\
  opCalls (machine c) = opCalls (machine waitingFresh) /\
  tasks (machine c) = [AwaitTimer 1 1; Fulfilled None].
Proof. repeat split. Qed.

(** ** autoStart *)

Section AutoStartFacts.
Context {T Err : Type}.
Variable o : UseRetryOptions T Err.
Variable asyncFn : nat -> CallResult T Err.
Variable random : nat -> Q.

Local Abbreviation C := (Component T Err).

(** X22: with [autoStart] the mount effect calls [execute()] once, and calls
    it again after every render at which a dependency of [execute] has
    changed, [execute] being a dependency of the effect: unless the hook is
    waiting at that render, the operation is called once more.  A render that
    changes no dependency calls nothing, and without [autoStart] no render
    does. *)
Theorem autoStart_runs_again_on_new_execute :
  (autoStart o = true ->
     opCalls (machine (mount o asyncFn random)) = 1%nat /\
     (forall c : C, isRetrying (hook (machine c)) = false ->
        opCalls (machine (componentStep o asyncFn random c (Renders true))) =
        S (opCalls (machine c))) /\
     (forall c : C, isRetrying (hook (machine c)) = true ->
        opCalls (machine (componentStep o asyncFn random c (Renders true))) =
        opCalls (machine c))) /\
  (autoStart o = false ->
     machine (mount o asyncFn random) = initialMachine /\
     forall (c : C) depsChanged,
       machine (componentStep o asyncFn random c (Renders depsChanged)) = machine c) /\
  (forall c : C, componentStep o asyncFn random c (Renders false) = c).
Proof.
  split; [|split].
  - intros Ha. unfold mount. rewrite Ha. cbn [machine].
    split; [exact (proj1 (execute_false_calls o asyncFn random initialMachine))|].
    split; intros [m seen] Hr; cbn [machine] in Hr; cbn [componentStep];
      rewrite Hr, Ha; cbn [machine].
    + exact (proj1 (execute_false_calls o asyncFn random m)).
    + exact (proj1 (proj2 (execute_true_noop o asyncFn random m))).
  - intros Ha. unfold mount. rewrite Ha. split; [reflexivity|].
    intros [m seen] [|]; cbn [componentStep]; rewrite ?Ha; reflexivity.
  - intros [m seen]. reflexivity.
Qed.
End AutoStartFacts.

Lemma autoStart_runs_again_on_new_execute_witness :
  autoStart autoStarted = true /\
  opCalls (machine (mount autoStarted alwaysResolves midpoint)) = 1%nat /\
  opCalls (machine (componentStep autoStarted alwaysResolves midpoint
                      (mount autoStarted alwaysResolves midpoint) (Renders true))) = 2%nat.
Proof.
  destruct (autoStart_runs_again_on_new_execute autoStarted alwaysResolves midpoint)
    as (H & _ & _).
  destruct (H eq_refl) as (H1 & H2 & _).
  split; [reflexivity|]. split; [exact H1|].
  rewrite (H2 (mount autoStarted alwaysResolves midpoint) eq_refl), H1. reflexivity.
Defined.

(** * The delay, on binary64 numbers *)

(** ** Rounding to the nearest number *)

Section RoundingFacts.
Local Open Scope Q_scope.

Lemma pow2_pos (e : Z) : 0 < pow2 e.
Proof. apply Qpower_0_lt. reflexivity. Qed.

Lemma pow2_add (a b : Z) : pow2 (a + b) == pow2 a * pow2 b.
Proof. unfold pow2. apply Qpower_plus. discriminate. Qed.

Lemma pow2_le (a b : Z) : (a <= b)%Z -> pow2 a <= pow2 b.
Proof. intros H. apply Qpower_le_compat_l; [exact H|]. discriminate. Qed.

Lemma pow2_Z (e : Z) : (0 <= e)%Z -> pow2 e == inject_Z (2 ^ e).
Proof. intros H. unfold pow2. rewrite (Zpower_Qpower 2 e H). reflexivity. Qed.

Lemma pow2_lt (a b : Z) : (a < b)%Z -> pow2 a < pow2 b.
Proof.
  intros H. replace b with (a + (b - a))%Z by lia. rewrite pow2_add.
  assert (H1 : pow2 1 <= pow2 (b - a)) by (apply pow2_le; lia).
  assert (H2 : pow2 1 == 2) by reflexivity.
  pose proof (pow2_pos a). rewrite H2 in H1. nra.
Qed.

Lemma pow2_lt_inv (a b : Z) : pow2 a < pow2 b -> (a < b)%Z.
Proof.
  intros H. destruct (Z_lt_le_dec a b) as [|Hle]; [assumption|].
  apply pow2_le in Hle. lra.
Qed.

Lemma Q_num_den (q : Q) : q * inject_Z (Zpos (Qden q)) == inject_Z (Qnum q).
Proof. destruct q as [n d]. unfold Qeq. cbn. lia. Qed.

Lemma inject_Z_pow2_log2 (n : Z) :
  (0 < n)%Z -> pow2 (Z.log2 n) <= inject_Z n /\ inject_Z n < pow2 (Z.log2 n + 1).
Proof.
  intros Hn. pose proof (Z.log2_spec n Hn) as [H1 H2].
  pose proof (Z.log2_nonneg n) as H0.
  rewrite !pow2_Z by lia. rewrite <- Zle_Qle, <- Zlt_Qlt.
  replace (Z.log2 n + 1)%Z with (Z.succ (Z.log2 n)) by lia. split; assumption.
Qed.

Lemma ilog2_bounds (q : Q) :
  0 < q ->
  let k := (Z.log2 (Qnum q) - Z.log2 (Zpos (Qden q)))%Z in
  pow2 (k - 1) <= q /\ q < pow2 (k + 1).
Proof.
  intros Hq k.
  assert (Hn : (0 < Qnum q)%Z).
  { destruct q as [n d]. unfold Qlt in Hq. cbn in *. lia. }
  pose proof (inject_Z_pow2_log2 (Qnum q) Hn) as [HA1 HA2].
  pose proof (inject_Z_pow2_log2 (Zpos (Qden q)) ltac:(lia)) as [HB1 HB2].
  pose proof (Q_num_den q) as Hqd.
  set (a := Z.log2 (Qnum q)) in *. set (b := Z.log2 (Zpos (Qden q))) in *.
  set (N := inject_Z (Qnum q)) in *. set (D := inject_Z (Zpos (Qden q))) in *.
  assert (E1 : pow2 (k - 1) * pow2 (b + 1) == pow2 a).
  { rewrite <- pow2_add. subst k. replace (a - b - 1 + (b + 1))%Z with a by lia. reflexivity. }
  assert (E2 : pow2 (k + 1) * pow2 b == pow2 (a + 1)).
  { rewrite <- pow2_add. subst k. replace (a - b + 1 + b)%Z with (a + 1)%Z by lia. reflexivity. }
  pose proof (pow2_pos b) as Pb. pose proof (pow2_pos (b + 1)) as Pb1.
  pose proof (pow2_pos (k - 1)) as Pk1. pose proof (pow2_pos (k + 1)) as Pk2.
  split.
  - apply Qnot_lt_le. intros Hlt.
    assert (q * pow2 (b + 1) < pow2 (k - 1) * pow2 (b + 1)) by nra.
    assert (q * D < q * pow2 (b + 1)) by nra.
    lra.
  - apply Qnot_le_lt. intros Hle.
    assert (pow2 (k + 1) * pow2 b <= q * pow2 b) by nra.
    assert (q * pow2 b <= q * D) by nra.
    lra.
Qed.

Lemma ilog2_spec (q : Q) :
  0 < q -> pow2 (ilog2 q) <= q /\ q < pow2 (ilog2 q + 1).
Proof.
  intros Hq. pose proof (ilog2_bounds q Hq) as [H1 H2]. cbn zeta in H1, H2.
  unfold ilog2.
  set (k := (Z.log2 (Qnum q) - Z.log2 (Zpos (Qden q)))%Z) in *.
  destruct (Qle_bool (pow2 k) q) eqn:E.
  - apply Qle_bool_iff in E. split; assumption.
  - split; [exact H1|]. replace (k - 1 + 1)%Z with k by lia.
    apply Qnot_le_lt. intros H. apply Qle_bool_iff in H. congruence.
Qed.

Lemma ilog2_unique (q : Q) (k : Z) :
  pow2 k <= q -> q < pow2 (k + 1) -> ilog2 q = k.
Proof.
  intros H1 H2.
  assert (Hq : 0 < q) by (pose proof (pow2_pos k); lra).
  pose proof (ilog2_spec q Hq) as [H3 H4].
  assert (pow2 k < pow2 (ilog2 q + 1)) by lra.
  assert (pow2 (ilog2 q) < pow2 (k + 1)) by lra.
  apply pow2_lt_inv in H, H0. lia.
Qed.

Lemma ilog2_le (x y : Q) : 0 < x -> x <= y -> (ilog2 x <= ilog2 y)%Z.
Proof.
  intros Hx Hxy. pose proof (ilog2_spec x Hx) as [H1 _].
  pose proof (ilog2_spec y ltac:(lra)) as [_ H2].
  assert (pow2 (ilog2 x) < pow2 (ilog2 y + 1)) by lra.
  apply pow2_lt_inv in H. lia.
Qed.

Lemma ilog2_comp (x y : Q) : 0 < x -> x == y -> ilog2 x = ilog2 y.
Proof.
  intros Hx E. pose proof (ilog2_spec x Hx) as [H1 H2].
  symmetry. apply ilog2_unique; rewrite <- E; assumption.
Qed.

Lemma ulpExp_le (x y : Q) : 0 < x -> x <= y -> (ulpExp x <= ulpExp y)%Z.
Proof. intros Hx Hxy. unfold ulpExp. pose proof (ilog2_le x y Hx Hxy). lia. Qed.

Lemma ulpExp_comp (x y : Q) : 0 < x -> x == y -> ulpExp x = ulpExp y.
Proof. intros Hx E. unfold ulpExp. rewrite (ilog2_comp x y Hx E). reflexivity. Qed.

Lemma roundEven_comp (x y : Q) : x == y -> roundEven x = roundEven y.
Proof.
  intros E. unfold roundEven. rewrite (Qfloor_comp x y E).
  assert (E' : x - inject_Z (Qfloor y) == y - inject_Z (Qfloor y)) by (rewrite E; reflexivity).
  rewrite (Qcompare_comp _ _ E' (1 # 2) (1 # 2) (Qeq_refl _)). reflexivity.
Qed.

Lemma roundEven_Z (z : Z) : roundEven (inject_Z z) = z.
Proof.
  unfold roundEven. rewrite Qfloor_Z.
  destruct (Qcompare_spec (inject_Z z - inject_Z z) (1 # 2)) as [H|H|H];
    [exfalso; lra|reflexivity|exfalso; lra].
Qed.

Lemma roundEven_floor (x : Q) :
  (Qfloor x <= roundEven x <= Qfloor x + 1)%Z.
Proof.
  unfold roundEven. destruct (x - inject_Z (Qfloor x) ?= 1 # 2); [|lia|lia].
  destruct (Z.even (Qfloor x)); lia.
Qed.

Lemma roundEven_mono (x y : Q) : x <= y -> (roundEven x <= roundEven y)%Z.
Proof.
  intros H. pose proof (Qfloor_resp_le x y H) as Hf.
  pose proof (roundEven_floor x) as Hx. pose proof (roundEven_floor y) as Hy.
  destruct (Z.eq_dec (Qfloor x) (Qfloor y)) as [E|NE]; [|lia].
  clear Hx Hy Hf. unfold roundEven. rewrite E.
  destruct (Qcompare_spec (x - inject_Z (Qfloor y)) (1 # 2)) as [Hx|Hx|Hx];
    destruct (Qcompare_spec (y - inject_Z (Qfloor y)) (1 # 2)) as [Hy|Hy|Hy];
    try lia; try (destruct (Z.even (Qfloor y)); lia); exfalso; lra.
Qed.

Lemma roundEven_ge (x : Q) (z : Z) : inject_Z z <= x -> (z <= roundEven x)%Z.
Proof. intros H. rewrite <- (roundEven_Z z). apply roundEven_mono, H. Qed.

Lemma roundEven_le (x : Q) (z : Z) : x <= inject_Z z -> (roundEven x <= z)%Z.
Proof. intros H. rewrite <- (roundEven_Z z). apply roundEven_mono, H. Qed.

(** Scaling [q > 0] by its last bit: below [2^53], and at least [2^52]
    unless [q] is subnormal. *)
Lemma scaled_lt (q : Q) : 0 < q -> q / pow2 (ulpExp q) < pow2 53.
Proof.
  intros Hq. pose proof (ilog2_spec q Hq) as [_ H2].
  pose proof (pow2_pos (ulpExp q)) as Hp.
  apply Qlt_shift_div_r; [exact Hp|].
  rewrite <- pow2_add.
  eapply Qlt_le_trans; [exact H2|]. apply pow2_le. unfold ulpExp. lia.
Qed.

Lemma scaled_ge (q : Q) :
  0 < q -> (-1074 < ulpExp q)%Z -> pow2 52 <= q / pow2 (ulpExp q).
Proof.
  intros Hq He. pose proof (ilog2_spec q Hq) as [H1 _].
  pose proof (pow2_pos (ulpExp q)) as Hp.
  apply Qle_shift_div_l; [exact Hp|].
  rewrite <- pow2_add.
  eapply Qle_trans; [|exact H1]. apply pow2_le. unfold ulpExp in *. lia.
Qed.

Lemma scaled_pos (q : Q) : 0 < q -> 0 < q / pow2 (ulpExp q).
Proof.
  intros Hq. apply Qlt_shift_div_l; [apply pow2_pos|]. lra.
Qed.

Lemma roundEven_scaled (q : Q) :
  0 < q ->
  (0 <= roundEven (q / pow2 (ulpExp q)) <= 2 ^ 53)%Z /\
  ((-1074 < ulpExp q)%Z -> (2 ^ 52 <= roundEven (q / pow2 (ulpExp q)))%Z).
Proof.
  intros Hq. split; [split|].
  - apply roundEven_ge. change (inject_Z 0) with 0. apply Qlt_le_weak, scaled_pos, Hq.
  - apply roundEven_le. pose proof (scaled_lt q Hq) as H.
    pose proof (pow2_Z 53 ltac:(lia)) as E. lra.
  - intros He. apply roundEven_ge. pose proof (scaled_ge q Hq He) as H.
    pose proof (pow2_Z 52 ltac:(lia)) as E. lra.
Qed.

Lemma roundPos_nonneg (q : Q) : 0 < q -> 0 <= roundPos q.
Proof.
  intros Hq. unfold roundPos. pose proof (roundEven_scaled q Hq) as [[H _] _].
  apply Qmult_le_0_compat; [|apply Qlt_le_weak, pow2_pos].
  change 0 with (inject_Z 0). rewrite <- Zle_Qle. exact H.
Qed.

Lemma roundPos_comp (x y : Q) : 0 < x -> x == y -> roundPos x == roundPos y.
Proof.
  intros Hx E. unfold roundPos. rewrite <- (ulpExp_comp x y Hx E).
  assert (E' : x / pow2 (ulpExp x) == y / pow2 (ulpExp x))
    by (apply Qdiv_comp; [exact E|reflexivity]).
  rewrite (roundEven_comp _ _ E'). reflexivity.
Qed.

Lemma roundPos_mono (x y : Q) : 0 < x -> x <= y -> roundPos x <= roundPos y.
Proof.
  intros Hx Hxy. assert (Hy : 0 < y) by lra.
  pose proof (ulpExp_le x y Hx Hxy) as He. unfold roundPos.
  pose proof (pow2_pos (ulpExp x)) as Px. pose proof (pow2_pos (ulpExp y)) as Py.
  destruct (Z.eq_dec (ulpExp x) (ulpExp y)) as [E|NE].
  - rewrite E in *.
    apply Qmult_le_compat_r; [|lra]. rewrite <- Zle_Qle. apply roundEven_mono.
    apply Qmult_le_compat_r; [exact Hxy|]. apply Qlt_le_weak, Qinv_lt_0_compat, Py.
  - assert (Hlt : (ulpExp x < ulpExp y)%Z) by lia.
    pose proof (roundEven_scaled x Hx) as [[_ Hx53] _].
    pose proof (roundEven_scaled y Hy) as [_ Hy52].
    specialize (Hy52 ltac:(unfold ulpExp in *; lia)).
    rewrite Zle_Qle in Hx53, Hy52.
    pose proof (pow2_Z 53 ltac:(lia)) as E53. pose proof (pow2_Z 52 ltac:(lia)) as E52.
    assert (H1 : inject_Z (roundEven (x / pow2 (ulpExp x))) * pow2 (ulpExp x)
                 <= pow2 53 * pow2 (ulpExp x)) by nra.
    assert (H2 : pow2 52 * pow2 (ulpExp y)
                 <= inject_Z (roundEven (y / pow2 (ulpExp y))) * pow2 (ulpExp y)) by nra.
    assert (H3 : pow2 53 * pow2 (ulpExp x) <= pow2 52 * pow2 (ulpExp y)).
    { rewrite <- !pow2_add. apply pow2_le. lia. }
    lra.
Qed.

(** A value with at most 53 bits above the smallest exponent is its own
    rounding. *)
Lemma roundPos_exact (n e0 : Z) (q : Q) :
  (0 < n < 2 ^ 53)%Z -> (-1074 <= e0)%Z -> q == inject_Z n * pow2 e0 ->
  roundPos q == q.
Proof.
  intros Hn He Hq.
  pose proof (inject_Z_pow2_log2 n ltac:(lia)) as [L1 L2].
  pose proof (pow2_pos e0) as Pe.
  assert (Hlog : (Z.log2 n < 53)%Z) by (apply Z.log2_lt_pow2; lia).
  pose proof (Z.log2_nonneg n) as Hlog0.
  assert (Hi : ilog2 q = (Z.log2 n + e0)%Z).
  { apply ilog2_unique.
    - rewrite Hq, pow2_add. nra.
    - rewrite Hq. replace (Z.log2 n + e0 + 1)%Z with ((Z.log2 n + 1) + e0)%Z by lia.
      rewrite pow2_add. nra. }
  unfold roundPos, ulpExp. rewrite Hi.
  set (e := Z.max (Z.log2 n + e0 - 52) (-1074)).
  assert (Hs : (0 <= e0 - e)%Z) by lia.
  assert (Hsc : q / pow2 e == inject_Z (n * 2 ^ (e0 - e))).
  { rewrite inject_Z_mult, <- pow2_Z by exact Hs. rewrite Hq.
    replace e0 with ((e0 - e) + e)%Z at 1 by lia. rewrite pow2_add.
    field. pose proof (pow2_pos e). lra. }
  rewrite (roundEven_comp _ _ Hsc), roundEven_Z.
  rewrite inject_Z_mult, <- pow2_Z by exact Hs. rewrite Hq.
  rewrite <- Qmult_assoc, <- pow2_add. replace (e0 - e + e)%Z with e0 by lia.
  reflexivity.
Qed.

Lemma roundPos_idem (q : Q) :
  0 < q -> 0 < roundPos q -> roundPos (roundPos q) == roundPos q.
Proof.
  intros Hq Hr. pose proof (roundEven_scaled q Hq) as [[H0 H53] _].
  unfold roundPos in Hr |- * at 2 3. set (n := roundEven (q / pow2 (ulpExp q))) in *.
  assert (Hn : (0 < n)%Z).
  { destruct (Z.eq_dec n 0%Z) as [E|]; [|lia]. rewrite E in Hr. exfalso.
    change (inject_Z 0) with 0 in Hr. lra. }
  assert (He : (-1074 <= ulpExp q)%Z) by (unfold ulpExp; lia).
  destruct (Z.eq_dec n (2 ^ 53)%Z) as [E|NE].
  - apply (roundPos_exact (2 ^ 52) (ulpExp q + 1)); [lia|lia|].
    rewrite E, pow2_add. change (pow2 1) with 2.
    change (inject_Z (2 ^ 53)) with (2 * inject_Z (2 ^ 52)). ring.
  - apply (roundPos_exact n (ulpExp q)); [lia|lia|reflexivity].
Qed.

Lemma roundQ_comp (x y : Q) : x == y -> roundQ x == roundQ y.
Proof.
  intros E. unfold roundQ.
  rewrite (Qcompare_comp _ _ E 0 0 (Qeq_refl _)).
  destruct (Qcompare_spec y 0) as [H|H|H]; [reflexivity| |].
  - apply Qopp_comp, roundPos_comp; [rewrite E; lra|rewrite E; reflexivity].
  - apply roundPos_comp; [rewrite E; lra|exact E].
Qed.

Lemma roundQ_pos (q : Q) : 0 < q -> roundQ q = roundPos q.
Proof.
  intros H. unfold roundQ. destruct (Qcompare_spec q 0) as [H'|H'|H']; [exfalso; lra|exfalso; lra|reflexivity].
Qed.

Lemma roundQ_neg (q : Q) : q < 0 -> roundQ q = - roundPos (- q).
Proof.
  intros H. unfold roundQ. destruct (Qcompare_spec q 0) as [H'|H'|H']; [exfalso; lra|reflexivity|exfalso; lra].
Qed.

Lemma roundQ_zero (q : Q) : q == 0 -> roundQ q = 0.
Proof.
  intros H. unfold roundQ. destruct (Qcompare_spec q 0) as [H'|H'|H']; [reflexivity|exfalso; lra|exfalso; lra].
Qed.

Lemma roundQ_nonneg (q : Q) : 0 <= q -> 0 <= roundQ q.
Proof.
  intros H. destruct (Qlt_le_dec 0 q) as [Hp|Hn].
  - rewrite (roundQ_pos q Hp). apply roundPos_nonneg, Hp.
  - rewrite (roundQ_zero q) by lra. lra.
Qed.

Lemma roundQ_opp (q : Q) : roundQ (- q) == - roundQ q.
Proof.
  destruct (Qcompare_spec q 0) as [H|H|H].
  - rewrite (roundQ_zero q H), (roundQ_zero (- q)) by lra. reflexivity.
  - rewrite (roundQ_neg q H), (roundQ_pos (- q)) by lra. ring.
  - rewrite (roundQ_pos q H), (roundQ_neg (- q)) by lra.
    apply Qopp_comp, roundPos_comp; [lra|ring].
Qed.

Lemma roundQ_nonpos (q : Q) : q <= 0 -> roundQ q <= 0.
Proof.
  intros H. pose proof (roundQ_nonneg (- q) ltac:(lra)) as H'.
  rewrite roundQ_opp in H'. lra.
Qed.

(** Rounding is monotone. *)
Lemma roundQ_mono (x y : Q) : x <= y -> roundQ x <= roundQ y.
Proof.
  intros H. destruct (Qlt_le_dec 0 x) as [Hx|Hx].
  - rewrite (roundQ_pos x Hx), (roundQ_pos y) by lra. apply roundPos_mono; assumption.
  - destruct (Qlt_le_dec y 0) as [Hy|Hy].
    + rewrite (roundQ_neg x), (roundQ_neg y) by lra.
      apply Qopp_le_compat. apply roundPos_mono; lra.
    + pose proof (roundQ_nonpos x Hx). pose proof (roundQ_nonneg y Hy). lra.
Qed.

(** Rounding a rounded value changes nothing. *)
Lemma roundQ_idem (q : Q) : roundQ (roundQ q) == roundQ q.
Proof.
  destruct (Qcompare_spec q 0) as [H|H|H].
  - rewrite (roundQ_zero q H). reflexivity.
  - rewrite (roundQ_neg q H).
    pose proof (roundPos_nonneg (- q) ltac:(lra)) as Hr.
    destruct (Qlt_le_dec 0 (roundPos (- q))) as [Hp|Hz].
    + rewrite roundQ_opp, (roundQ_pos _ Hp).
      apply Qopp_comp, roundPos_idem; [lra|exact Hp].
    + rewrite (roundQ_zero (- roundPos (- q))) by lra. lra.
  - rewrite (roundQ_pos q H).
    pose proof (roundPos_nonneg q H) as Hr.
    destruct (Qlt_le_dec 0 (roundPos q)) as [Hp|Hz].
    + rewrite (roundQ_pos _ Hp). apply roundPos_idem; assumption.
    + rewrite (roundQ_zero (roundPos q)) by lra. lra.
Qed.

Lemma roundQ_exact (n e0 : Z) (q : Q) :
  (Z.abs n < 2 ^ 53)%Z -> (-1074 <= e0)%Z -> q == inject_Z n * pow2 e0 ->
  roundQ q == q.
Proof.
  intros Hn He Hq. pose proof (pow2_pos e0) as Pe.
  destruct (Z.lt_trichotomy n 0%Z) as [Hneg|[Hz|Hpos]].
  - assert (Hlt : inject_Z n < 0) by (change 0 with (inject_Z 0); rewrite <- Zlt_Qlt; exact Hneg).
    assert (q < 0) by (rewrite Hq; nra).
    rewrite (roundQ_neg q) by assumption.
    rewrite (roundPos_exact (- n) e0 (- q)); [ring|lia|exact He|].
    rewrite Hq, inject_Z_opp. ring.
  - subst n. assert (q == 0) by (rewrite Hq; change (inject_Z 0) with 0; ring).
    rewrite (roundQ_zero q) by assumption. lra.
  - assert (Hgt : 0 < inject_Z n) by (change 0 with (inject_Z 0); rewrite <- Zlt_Qlt; exact Hpos).
    assert (0 < q) by (rewrite Hq; nra).
    rewrite (roundQ_pos q) by assumption.
    apply (roundPos_exact n e0); [lia|exact He|exact Hq].
Qed.

(** ** Numbers and their values *)

(** What [toNumber] returns for [q > 0]. *)
Lemma toNumber_spec (s : bool) (q : Q) :
  0 < q ->
  match toNumber s q with
  | S754_nan => False
  | S754_infinity s' => s' = s /\ pow2 1024 <= roundPos q
  | S754_zero s' => s' = s /\ roundPos q == 0
  | S754_finite s' m e => s' = s /\ inject_Z (Zpos m) * pow2 e == roundPos q
  end.
Proof.
  intros Hq. pose proof (roundEven_scaled q Hq) as [[H0 H53] H52].
  unfold toNumber, roundPos. set (e := ulpExp q) in *.
  set (n := roundEven (q / pow2 e)) in *.
  destruct (n =? 0)%Z eqn:En.
  - apply Z.eqb_eq in En. rewrite En. split; [reflexivity|].
    change (inject_Z 0) with 0. ring.
  - apply Z.eqb_neq in En.
    assert (Hcarry : exists n' e', (if (n =? 2 ^ 53)%Z then ((2 ^ 52)%Z, (e + 1)%Z) else (n, e))
                                   = (n', e') /\ (0 < n')%Z /\
                                   inject_Z n' * pow2 e' == inject_Z n * pow2 e /\
                                   ((-1074 < e')%Z -> (2 ^ 52 <= n')%Z)).
    { destruct (n =? 2 ^ 53)%Z eqn:Ec.
      - apply Z.eqb_eq in Ec. exists (2 ^ 52)%Z, (e + 1)%Z.
        split; [reflexivity|]. split; [lia|]. split; [|lia].
        rewrite Ec, pow2_add. change (pow2 1) with 2.
        change (inject_Z (2 ^ 53)) with (2 * inject_Z (2 ^ 52)). ring.
      - exists n, e. split; [reflexivity|]. split; [lia|]. split; [reflexivity|exact H52]. }
    destruct Hcarry as (n' & e' & -> & Hn' & Hval & Hnorm).
    destruct (971 <? e')%Z eqn:Eo.
    + apply Z.ltb_lt in Eo. split; [reflexivity|]. rewrite <- Hval.
      specialize (Hnorm ltac:(lia)). rewrite Zle_Qle in Hnorm.
      pose proof (pow2_Z 52 ltac:(lia)) as E52.
      assert (H1 : pow2 52 * pow2 972 <= inject_Z n' * pow2 e').
      { pose proof (pow2_le 972 e' ltac:(lia)). pose proof (pow2_pos 972).
        pose proof (pow2_pos 52). nra. }
      rewrite <- pow2_add in H1. exact H1.
    + split; [reflexivity|]. rewrite <- Hval.
      rewrite Z2Pos.id by exact Hn'. reflexivity.
Qed.

Lemma round64_spec (z : bool) (q : Q) :
  match round64 z q with
  | S754_nan => False
  | S754_infinity s => if s then roundQ q <= - pow2 1024 else pow2 1024 <= roundQ q
  | x => SF2Q x == roundQ q
  end.
Proof.
  unfold round64, roundQ.
  destruct (Qcompare_spec q 0) as [H|H|H].
  - reflexivity.
  - pose proof (toNumber_spec true (- q) ltac:(lra)) as He.
    destruct (toNumber true (- q)) as [s|s| |s m e]; [| |exact He|].
    + destruct He as [_ He]. cbn. lra.
    + destruct He as [-> He]. lra.
    + destruct He as [-> He]. cbn [SF2Q cond_Zopp]. rewrite <- He.
      change (Z.opp (Zpos m)) with (- Zpos m)%Z. rewrite inject_Z_opp. ring.
  - pose proof (toNumber_spec false q H) as He.
    destruct (toNumber false q) as [s|s| |s m e]; [| |exact He|].
    + destruct He as [_ He]. cbn. lra.
    + destruct He as [-> He]. exact He.
    + destruct He as [-> He]. cbn [SF2Q cond_Zopp]. exact He.
Qed.

Lemma round64_Holds (z : bool) (q : Q) :
  - pow2 1024 < roundQ q -> roundQ q < pow2 1024 ->
  Holds (round64 z q) (roundQ q).
Proof.
  intros H1 H2. pose proof (round64_spec z q) as Hs.
  unfold Holds. destruct (round64 z q) as [s|s| |s m e]; cbn [isFinite].
  - split; [reflexivity|]. split; [exact Hs|apply roundQ_idem].
  - exfalso. destruct s; lra.
  - contradiction.
  - split; [reflexivity|]. split; [exact Hs|apply roundQ_idem].
Qed.

(** A non-negative value rounds to a non-negative number, or overflows. *)
Lemma round64_nonneg (z : bool) (q : Q) :
  0 <= q ->
  round64 z q = S754_infinity false \/ Holds (round64 z q) (roundQ q).
Proof.
  intros Hq. pose proof (round64_spec z q) as Hs.
  pose proof (roundQ_nonneg q Hq) as Hr. pose proof (pow2_pos 1024) as Hp.
  unfold Holds. destruct (round64 z q) as [s|s| |s m e]; cbn [isFinite].
  - right. split; [reflexivity|]. split; [exact Hs|apply roundQ_idem].
  - left. destruct s; [exfalso; lra|reflexivity].
  - contradiction.
  - right. split; [reflexivity|]. split; [exact Hs|apply roundQ_idem].
Qed.

Lemma digits2_pos_spec (m : positive) : (Zpos m < 2 ^ Zpos (digits2_pos m))%Z.
Proof.
  induction m as [m IH|m IH|]; cbn [digits2_pos].
  - rewrite Pos2Z.inj_succ, Z.pow_succ_r by lia. lia.
  - rewrite Pos2Z.inj_succ, Z.pow_succ_r by lia. lia.
  - reflexivity.
Qed.

(** A binary64 number is its own rounding, and below [2^1024]. *)
Lemma valid_Holds (x : number) :
  valid_binary 53 1024 x = true -> isFinite x = true ->
  Holds x (SF2Q x) /\ - pow2 1024 < SF2Q x < pow2 1024.
Proof.
  intros Hv Hf. pose proof (pow2_pos 1024) as P.
  destruct x as [s|s| |s m e]; try discriminate.
  - split; [split; [reflexivity|split; reflexivity]|]. cbn. lra.
  - cbn [valid_binary] in Hv. unfold bounded, canonical_mantissa in Hv.
    apply andb_true_iff in Hv as [Hc He].
    apply Z.eqb_eq in Hc. apply Z.leb_le in He.
    unfold fexp, emin in Hc.
    pose proof (digits2_pos_spec m) as Hd.
    assert (Hd53 : (Zpos (digits2_pos m) <= 53)%Z) by lia.
    assert (Hm : (Zpos m < 2 ^ 53)%Z).
    { eapply Z.lt_le_trans; [exact Hd|]. apply Z.pow_le_mono_r; lia. }
    assert (Hemin : (-1074 <= e)%Z) by lia.
    split.
    + split; [reflexivity|]. split; [reflexivity|].
      apply (roundQ_exact (cond_Zopp s (Zpos m)) e); [destruct s; cbn; lia|exact Hemin|].
      reflexivity.
    + cbn [SF2Q].
      assert (Hb : inject_Z (Zpos m) * pow2 e < pow2 1024).
      { rewrite Zlt_Qlt in Hm. pose proof (pow2_Z 53 ltac:(lia)) as E53.
        pose proof (pow2_le e 971 ltac:(lia)). pose proof (pow2_pos e).
        assert (pow2 53 * pow2 971 == pow2 1024) by (rewrite <- pow2_add; reflexivity).
        assert (0 < inject_Z (Zpos m)) by (change 0 with (inject_Z 0); rewrite <- Zlt_Qlt; lia).
        nra. }
      assert (H0 : 0 < inject_Z (Zpos m) * pow2 e).
      { pose proof (pow2_pos e).
        assert (0 < inject_Z (Zpos m)) by (change 0 with (inject_Z 0); rewrite <- Zlt_Qlt; lia).
        nra. }
      destruct s; cbn [cond_Zopp].
      * change (Z.opp (Zpos m)) with (- Zpos m)%Z. rewrite inject_Z_opp. lra.
      * lra.
Qed.

Lemma Holds_comp (x : number) (a b : Q) : a == b -> Holds x a -> Holds x b.
Proof.
  intros E (H1 & H2 & H3). split; [exact H1|]. split; [rewrite <- E; exact H2|].
  rewrite <- (roundQ_comp a b E). rewrite H3. exact E.
Qed.

Lemma mul64_finite (x y : number) :
  isFinite x = true -> isFinite y = true ->
  exists z, mul64 x y = round64 z (SF2Q x * SF2Q y).
Proof.
  intros Hx Hy. destruct x, y; try discriminate; eexists; reflexivity.
Qed.

Lemma add64_finite (x y : number) :
  isFinite x = true -> isFinite y = true ->
  exists z, add64 x y = round64 z (SF2Q x + SF2Q y).
Proof.
  intros Hx Hy. destruct x, y; try discriminate; eexists; reflexivity.
Qed.

Lemma SF2Q_opp (y : number) : SF2Q (SFopp y) == - SF2Q y.
Proof.
  destruct y as [s|s| |s m e]; cbn [SFopp SF2Q]; try reflexivity.
  destruct s; cbn [negb cond_Zopp]; [|change (Z.opp (Zpos m)) with (- Zpos m)%Z;
    rewrite inject_Z_opp; ring].
  change (Z.opp (Zpos m)) with (- Zpos m)%Z. rewrite inject_Z_opp. ring.
Qed.

Lemma isFinite_opp (y : number) : isFinite (SFopp y) = isFinite y.
Proof. destruct y; reflexivity. Qed.

Lemma Holds_mul (x y : number) (a b : Q) :
  Holds x a -> Holds y b ->
  - pow2 1024 < roundQ (a * b) -> roundQ (a * b) < pow2 1024 ->
  Holds (mul64 x y) (roundQ (a * b)).
Proof.
  intros (Fx & Vx & _) (Fy & Vy & _) H1 H2.
  destruct (mul64_finite x y Fx Fy) as [z ->].
  assert (E : SF2Q x * SF2Q y == a * b) by (rewrite Vx, Vy; reflexivity).
  pose proof (roundQ_comp _ _ E) as Er.
  apply (Holds_comp _ _ _ Er). apply round64_Holds; rewrite Er; assumption.
Qed.

Lemma Holds_add (x y : number) (a b : Q) :
  Holds x a -> Holds y b ->
  - pow2 1024 < roundQ (a + b) -> roundQ (a + b) < pow2 1024 ->
  Holds (add64 x y) (roundQ (a + b)).
Proof.
  intros (Fx & Vx & _) (Fy & Vy & _) H1 H2.
  destruct (add64_finite x y Fx Fy) as [z ->].
  assert (E : SF2Q x + SF2Q y == a + b) by (rewrite Vx, Vy; reflexivity).
  pose proof (roundQ_comp _ _ E) as Er.
  apply (Holds_comp _ _ _ Er). apply round64_Holds; rewrite Er; assumption.
Qed.

Lemma Holds_sub (x y : number) (a b : Q) :
  Holds x a -> Holds y b ->
  - pow2 1024 < roundQ (a - b) -> roundQ (a - b) < pow2 1024 ->
  Holds (sub64 x y) (roundQ (a - b)).
Proof.
  intros (Fx & Vx & _) (Fy & Vy & _) H1 H2. unfold sub64.
  destruct (add64_finite x (SFopp y) Fx ltac:(rewrite isFinite_opp; exact Fy)) as [z ->].
  assert (E : SF2Q x + SF2Q (SFopp y) == a - b) by (rewrite SF2Q_opp, Vx, Vy; reflexivity).
  pose proof (roundQ_comp _ _ E) as Er.
  apply (Holds_comp _ _ _ Er). apply round64_Holds; rewrite Er; assumption.
Qed.

Lemma Holds_le64 (x y : number) (a b : Q) :
  Holds x a -> Holds y b -> (le64 x y = true <-> a <= b).
Proof.
  intros (Fx & Vx & _) (Fy & Vy & _).
  assert (E : le64 x y = Qle_bool (SF2Q x) (SF2Q y)).
  { destruct x, y; try discriminate; reflexivity. }
  rewrite E, Qle_bool_iff, Vx, Vy. reflexivity.
Qed.

Lemma Holds_lt64 (x y : number) (a b : Q) :
  Holds x a -> Holds y b -> (lt64 x y = true <-> a < b).
Proof.
  intros (Fx & Vx & _) (Fy & Vy & _).
  assert (E : lt64 x y = negb (Qle_bool (SF2Q y) (SF2Q x))).
  { destruct x, y; try discriminate; reflexivity. }
  rewrite E, negb_true_iff, <- not_true_iff_false, Qle_bool_iff, Vx, Vy.
  split; [apply Qnot_le_lt|apply Qlt_not_le].
Qed.

(** Rounding keeps a value within a power of two. *)
Lemma roundQ_bound (k : Z) (q : Q) :
  (-1074 <= k)%Z -> - pow2 k <= q -> q <= pow2 k ->
  - pow2 k <= roundQ q /\ roundQ q <= pow2 k.
Proof.
  intros Hk H1 H2.
  assert (E : roundQ (pow2 k) == pow2 k).
  { apply (roundQ_exact 1 k); [reflexivity|exact Hk|]. change (inject_Z 1) with 1. ring. }
  pose proof (roundQ_mono _ _ H1) as M1. pose proof (roundQ_mono _ _ H2) as M2.
  rewrite roundQ_opp in M1. lra.
Qed.

Lemma pow2_double (k : Z) : 2 * pow2 k == pow2 (k + 1).
Proof. rewrite pow2_add. change (pow2 1) with 2. ring. Qed.

Lemma roundQ_pow2 (k : Z) : (-1074 <= k)%Z -> roundQ (pow2 k) == pow2 k.
Proof.
  intros Hk. apply (roundQ_exact 1 k); [reflexivity|exact Hk|].
  change (inject_Z 1) with 1. ring.
Qed.

(** The window, on the values: every operation rounded. *)
Lemma window_values (vc vj vr : Q) :
  0 <= vc -> vc <= pow2 500 -> roundQ vc == vc ->
  0 <= vj -> vj <= pow2 500 -> 0 <= vr -> vr < 1 ->
  let ja := roundQ (vc * vj) in
  let lo := roundQ (vc - ja) in
  let hi := roundQ (vc + ja) in
  let w := roundQ (hi - lo) in
  let pr := roundQ (vr * w) in
  let d := roundQ (lo + pr) in
  let top := roundQ (lo + w) in
  (forall v, In v [ja; lo; hi; w; pr; d; top] -> - pow2 1010 <= v /\ v <= pow2 1010) /\
  lo <= d /\ d <= top /\ lo <= hi /\ vc <= hi /\ lo <= vc /\
  (vj <= 1 -> 0 <= lo /\ 0 <= d).
Proof.
  intros Hc0 Hc1 Hcr Hj0 Hj1 Hr0 Hr1 ja lo hi w pr d top.
  pose proof (pow2_pos 500) as P500.
  assert (E1000 : pow2 500 * pow2 500 == pow2 1000) by (rewrite <- pow2_add; reflexivity).
  assert (D0 : 2 * pow2 1000 == pow2 1001) by exact (pow2_double 1000).
  assert (D1 : 2 * pow2 1001 == pow2 1002) by exact (pow2_double 1001).
  assert (D2 : 2 * pow2 1002 == pow2 1003) by exact (pow2_double 1002).
  assert (D3 : 2 * pow2 1003 == pow2 1004) by exact (pow2_double 1003).
  pose proof (pow2_le 500 1000 ltac:(lia)) as L0.
  pose proof (pow2_le 1004 1010 ltac:(lia)) as L4.
  pose proof (pow2_pos 1000) as P1000.
  (* jitterAmount *)
  assert (Hja0 : 0 <= ja) by (apply roundQ_nonneg; nra).
  destruct (roundQ_bound 1000 (vc * vj) ltac:(lia) ltac:(nra) ltac:(nra)) as [_ Hja1].
  fold ja in Hja1.
  (* minDelay, maxDelay *)
  destruct (roundQ_bound 1001 (vc - ja) ltac:(lia) ltac:(lra) ltac:(lra)) as [Hlo0 Hlo1].
  destruct (roundQ_bound 1001 (vc + ja) ltac:(lia) ltac:(lra) ltac:(lra)) as [_ Hhi1].
  fold lo in Hlo0, Hlo1. fold hi in Hhi1.
  assert (Hlohi : lo <= hi) by (apply roundQ_mono; lra).
  assert (Hchi : vc <= hi).
  { assert (roundQ vc <= hi) by (apply roundQ_mono; lra). lra. }
  assert (Hloc : lo <= vc).
  { assert (lo <= roundQ vc) by (apply roundQ_mono; lra). lra. }
  (* the width of the window *)
  assert (Hw0 : 0 <= w) by (apply roundQ_nonneg; lra).
  destruct (roundQ_bound 1002 (hi - lo) ltac:(lia) ltac:(lra) ltac:(lra)) as [_ Hw1].
  fold w in Hw1.
  assert (Hwr : roundQ w == w) by apply roundQ_idem.
  assert (Hlor : roundQ lo == lo) by apply roundQ_idem.
  (* the draw *)
  assert (Hpr0 : 0 <= pr) by (apply roundQ_nonneg; nra).
  assert (Hpr1 : pr <= w).
  { assert (pr <= roundQ w) by (apply roundQ_mono; nra). lra. }
  (* the delay *)
  assert (Hd0 : lo <= d).
  { assert (roundQ lo <= d) by (apply roundQ_mono; lra). lra. }
  assert (Hd1 : d <= top) by (apply roundQ_mono; lra).
  destruct (roundQ_bound 1003 (lo + w) ltac:(lia) ltac:(lra) ltac:(lra)) as [Ht0 Ht1].
  fold top in Ht0, Ht1.
  split; [|split; [exact Hd0|split; [exact Hd1|split; [exact Hlohi|split; [exact Hchi|
          split; [exact Hloc|]]]]]].
  - intros v Hv. cbn [In] in Hv.
    destruct Hv as [<-|[<-|[<-|[<-|[<-|[<-|[<-|[]]]]]]]]; split; lra.
  - intros Hj. assert (Hjac : ja <= vc).
    { assert (ja <= roundQ vc) by (apply roundQ_mono; nra). lra. }
    assert (0 <= lo) by (apply roundQ_nonneg; lra).
    split; lra.
Qed.

Lemma Holds_zero64 : Holds zero64 0.
Proof. split; [reflexivity|]. split; reflexivity. Qed.

Lemma Holds_one64 : Holds one64 1.
Proof.
  split; [reflexivity|]. split; [vm_compute; reflexivity|].
  apply (roundQ_exact 1 0); [reflexivity|lia|reflexivity].
Qed.

Lemma Holds_huge64 : Holds huge64 (pow2 500).
Proof.
  split; [reflexivity|]. split; [|apply roundQ_pow2; lia].
  assert (E : huge64 = S754_finite false (2 ^ 52) 448) by (vm_compute; reflexivity).
  rewrite E. cbn [SF2Q cond_Zopp].
  change (Z.pos (2 ^ 52)) with (2 ^ 52)%Z.
  rewrite <- pow2_Z, <- pow2_add by lia. reflexivity.
Qed.

Lemma within_Holds (lo hi x : number) (a b : Q) :
  Holds lo a -> Holds hi b -> within lo hi x = true ->
  Holds x (SF2Q x) /\ a <= SF2Q x /\ SF2Q x <= b.
Proof.
  intros Hlo Hhi Hw. unfold within in Hw.
  apply andb_true_iff in Hw as [Hw H2]. apply andb_true_iff in Hw as [Hv H1].
  assert (Hf : isFinite x = true).
  { destruct Hlo as (Fl & _), Hhi as (Fh & _).
    destruct x as [s|s| |s m e]; try reflexivity.
    - destruct lo, hi, s; try discriminate.
    - destruct lo; discriminate. }
  destruct (valid_Holds x Hv Hf) as [Hx _].
  split; [exact Hx|]. split.
  - apply (Holds_le64 lo x a (SF2Q x) Hlo Hx). exact H1.
  - apply (Holds_le64 x hi (SF2Q x) b Hx Hhi). exact H2.
Qed.

Lemma mathMin_finite (x y : number) (a b : Q) :
  Holds x a -> Holds y b ->
  Holds (mathMin x y) (Qmin a b).
Proof.
  intros Hx Hy. pose proof (Holds_lt64 x y a b Hx Hy) as L1.
  pose proof (Holds_lt64 y x b a Hy Hx) as L2.
  assert (E : mathMin x y = if lt64 x y then x else if lt64 y x then y
                            else if signOf x then x else y).
  { destruct Hx as (Fx & _), Hy as (Fy & _). destruct x, y; try discriminate; reflexivity. }
  rewrite E. destruct (lt64 x y) eqn:E1.
  - apply (Holds_comp x a); [|exact Hx]. symmetry. apply Q.min_l.
    apply Qlt_le_weak, L1. reflexivity.
  - assert (Hba : b <= a).
    { apply Qnot_lt_le. intros H. apply L1 in H. congruence. }
    destruct (lt64 y x) eqn:E2.
    + apply (Holds_comp y b); [|exact Hy]. symmetry. apply Q.min_r. exact Hba.
    + assert (Hab : a <= b).
      { apply Qnot_lt_le. intros H. apply L2 in H. congruence. }
      destruct (signOf x).
      * apply (Holds_comp x a); [|exact Hx]. symmetry. apply Q.min_l. exact Hab.
      * apply (Holds_comp y b); [|exact Hy]. symmetry. apply Q.min_r. exact Hba.
Qed.

Lemma mathMin_infinity (y : number) :
  isFinite y = true -> mathMin (S754_infinity false) y = y.
Proof. intros Hy. destruct y; try discriminate; reflexivity. Qed.
End RoundingFacts.

(** ** The window of the delay *)

Section Window.
Local Open Scope Q_scope.
Variable mathPow : number -> number -> number.
Variables initialDelayMs maxDelayMs backoffMultiplier jitter rnd : number.
Variable currentAttempt : nat.

Local Abbreviation power :=
  (mathPow backoffMultiplier (sub64 (ofZ (Z.of_nat currentAttempt)) (ofZ 1))).
Local Abbreviation capped :=
  (cappedDelay64 mathPow initialDelayMs maxDelayMs backoffMultiplier currentAttempt).
Local Abbreviation delay :=
  (calculateDelay64 mathPow initialDelayMs maxDelayMs backoffMultiplier jitter rnd
     currentAttempt).

Hypothesis Hinit : within zero64 huge64 initialDelayMs = true.
Hypothesis Hmax : within zero64 huge64 maxDelayMs = true.
Hypothesis Hjit : within zero64 huge64 jitter = true.
Hypothesis Hrnd : within zero64 one64 rnd = true.
Hypothesis Hrnd1 : lt64 rnd one64 = true.
Hypothesis Hpow : within zero64 (S754_infinity false) power = true.
Hypothesis Hbase : isFinite power = true \/ lt64 zero64 initialDelayMs = true.

Lemma capped_Holds :
  exists vc, Holds capped vc /\ 0 <= vc /\ vc <= SF2Q maxDelayMs.
Proof.
  destruct (within_Holds _ _ _ _ _ Holds_zero64 Holds_huge64 Hinit) as (Hi & Hi0 & _).
  destruct (within_Holds _ _ _ _ _ Holds_zero64 Holds_huge64 Hmax) as (Hm & Hm0 & _).
  unfold cappedDelay64. set (p := power) in *.
  assert (Hb : mul64 initialDelayMs p = S754_infinity false \/
               exists vb, Holds (mul64 initialDelayMs p) vb /\ 0 <= vb).
  { unfold within in Hpow. apply andb_true_iff in Hpow as [Hpw _].
    apply andb_true_iff in Hpw as [Hv H0].
    destruct p as [s|s| |s m e] eqn:Ep.
    - (* zero *)
      right. destruct (valid_Holds _ Hv eq_refl) as [Hp _].
      destruct (mul64_finite initialDelayMs (S754_zero s) (proj1 Hi) eq_refl) as [z Hz].
      assert (E0 : SF2Q initialDelayMs * SF2Q (S754_zero s) == 0) by (cbn [SF2Q]; ring).
      destruct (round64_nonneg z (SF2Q initialDelayMs * SF2Q (S754_zero s))
                  ltac:(nra)) as [Hinf|Hh].
      + exfalso. pose proof (round64_spec z (SF2Q initialDelayMs * SF2Q (S754_zero s))) as Hs.
        rewrite Hinf in Hs. rewrite (roundQ_zero _ E0) in Hs.
        pose proof (pow2_pos 1024). lra.
      + rewrite Hz. eexists. split; [exact Hh|]. apply roundQ_nonneg. nra.
    - (* infinity *)
      destruct s; [discriminate|]. left.
      destruct Hbase as [Hf|Hlt]; [discriminate|].
      apply (Holds_lt64 _ _ _ _ Holds_zero64 Hi) in Hlt.
      destruct initialDelayMs as [s'|s'| |s' m' e'];
        try (destruct Hi as (F & _); discriminate F).
      + exfalso. cbn [SF2Q] in Hlt. lra.
      + destruct s'; [|reflexivity]. exfalso. cbn [SF2Q cond_Zopp] in Hlt.
        pose proof (pow2_pos e').
        assert (inject_Z (Z.opp (Zpos m')) < 0).
        { change 0 with (inject_Z 0). rewrite <- Zlt_Qlt. lia. }
        nra.
    - discriminate.
    - (* finite *)
      destruct (valid_Holds _ Hv eq_refl) as [Hp _].
      assert (Hp0 : 0 <= SF2Q (S754_finite s m e)).
      { apply (Holds_le64 _ _ _ _ Holds_zero64 Hp). exact H0. }
      destruct (mul64_finite initialDelayMs (S754_finite s m e) (proj1 Hi) eq_refl) as [z Hz].
      rewrite Hz.
      destruct (round64_nonneg z (SF2Q initialDelayMs * SF2Q (S754_finite s m e))
                  ltac:(nra)) as [Hinf|Hh]; [left; exact Hinf|].
      right. eexists. split; [exact Hh|]. apply roundQ_nonneg. nra. }
  destruct Hb as [Hinf|(vb & Hvb & Hvb0)].
  - rewrite Hinf, (mathMin_infinity _ (proj1 Hm)).
    exists (SF2Q maxDelayMs). split; [exact Hm|]. split; [exact Hm0|lra].
  - exists (Qmin vb (SF2Q maxDelayMs)). split; [apply mathMin_finite; assumption|].
    split; [apply Q.min_glb; assumption|apply Q.le_min_r].
Qed.

Lemma below_overflow (v : Q) :
  - pow2 1010 <= v /\ v <= pow2 1010 -> - pow2 1024 < v /\ v < pow2 1024.
Proof.
  intros [H1 H2]. pose proof (pow2_lt 1010 1024 ltac:(lia)). lra.
Qed.

End Window.

(** ** Without jitter *)

Section NoJitter.
Local Open Scope Q_scope.
Variable mathPow : number -> number -> number.
Variables initialDelayMs maxDelayMs backoffMultiplier rnd : number.
Variable currentAttempt : nat.
Variable zeroSign : bool.

Local Abbreviation power :=
  (mathPow backoffMultiplier (sub64 (ofZ (Z.of_nat currentAttempt)) (ofZ 1))).
Local Abbreviation capped :=
  (cappedDelay64 mathPow initialDelayMs maxDelayMs backoffMultiplier currentAttempt).
Local Abbreviation delay :=
  (calculateDelay64 mathPow initialDelayMs maxDelayMs backoffMultiplier
     (S754_zero zeroSign) rnd currentAttempt).

Hypothesis Hinit : within zero64 huge64 initialDelayMs = true.
Hypothesis Hmax : within zero64 huge64 maxDelayMs = true.
Hypothesis Hrnd : valid_binary 53 1024 rnd = true.
Hypothesis Hfin : isFinite rnd = true.
Hypothesis Hpow : within zero64 (S754_infinity false) power = true.
Hypothesis Hbase : isFinite power = true \/ lt64 zero64 initialDelayMs = true.

(** X23: with [jitter = 0] the delay is the capped backoff, as a binary64
    number, whatever finite number [Math.random()] returns: nothing is
    lost to rounding, the window has collapsed to a point. *)
Theorem calculateDelay64_without_jitter :
  isFinite delay = true /\ SF2Q delay == SF2Q capped /\
  le64 delay capped = true /\ le64 capped delay = true.
Proof.
  destruct (capped_Holds mathPow initialDelayMs maxDelayMs backoffMultiplier
              currentAttempt Hinit Hmax Hpow Hbase) as (vc & Hc & Hc0 & Hcm).
  destruct (within_Holds _ _ _ _ _ Holds_zero64 Holds_huge64 Hmax) as (Hm & _ & Hm1).
  destruct (valid_Holds rnd Hrnd Hfin) as [Hr _].
  assert (Hz : Holds (S754_zero zeroSign) 0).
  { split; [reflexivity|]. split; reflexivity. }
  pose proof (pow2_lt 500 1024 ltac:(lia)) as P. pose proof (pow2_pos 1024) as P'.
  assert (Hcr : roundQ vc == vc) by exact (proj2 (proj2 Hc)).
  assert (E0 : forall q, q == 0 -> roundQ q == 0).
  { intros q Hq. rewrite (roundQ_zero q Hq). reflexivity. }
  assert (Ec : forall q, q == vc -> roundQ q == vc).
  { intros q Hq. rewrite (roundQ_comp q vc Hq). exact Hcr. }
  set (c := capped) in *.
  unfold calculateDelay64. fold c.
  assert (Hja : Holds (mul64 c (S754_zero zeroSign)) 0).
  { apply (Holds_comp _ (roundQ (vc * 0))); [apply E0; ring|].
    apply Holds_mul; [exact Hc|exact Hz| |]; rewrite (E0 (vc * 0)) by ring; lra. }
  assert (Hlo : Holds (sub64 c (mul64 c (S754_zero zeroSign))) vc).
  { apply (Holds_comp _ (roundQ (vc - 0))); [apply Ec; ring|].
    apply Holds_sub; [exact Hc|exact Hja| |]; rewrite (Ec (vc - 0)) by ring; lra. }
  assert (Hhi : Holds (add64 c (mul64 c (S754_zero zeroSign))) vc).
  { apply (Holds_comp _ (roundQ (vc + 0))); [apply Ec; ring|].
    apply Holds_add; [exact Hc|exact Hja| |]; rewrite (Ec (vc + 0)) by ring; lra. }
  assert (Hw : Holds (sub64 (add64 c (mul64 c (S754_zero zeroSign)))
                            (sub64 c (mul64 c (S754_zero zeroSign)))) 0).
  { apply (Holds_comp _ (roundQ (vc - vc))); [apply E0; ring|].
    apply Holds_sub; [exact Hhi|exact Hlo| |]; rewrite (E0 (vc - vc)) by ring; lra. }
  assert (Hpr : Holds (mul64 rnd (sub64 (add64 c (mul64 c (S754_zero zeroSign)))
                                        (sub64 c (mul64 c (S754_zero zeroSign))))) 0).
  { apply (Holds_comp _ (roundQ (SF2Q rnd * 0))); [apply E0; ring|].
    apply Holds_mul; [exact Hr|exact Hw| |]; rewrite (E0 (SF2Q rnd * 0)) by ring; lra. }
  assert (Hd : Holds (add64 (sub64 c (mul64 c (S754_zero zeroSign)))
                        (mul64 rnd (sub64 (add64 c (mul64 c (S754_zero zeroSign)))
                                          (sub64 c (mul64 c (S754_zero zeroSign)))))) vc).
  { apply (Holds_comp _ (roundQ (vc + 0))); [apply Ec; ring|].
    apply Holds_add; [exact Hlo|exact Hpr| |]; rewrite (Ec (vc + 0)) by ring; lra. }
  split; [exact (proj1 Hd)|]. split.
  - apply (Qeq_trans _ vc); [exact (proj1 (proj2 Hd))|symmetry; exact (proj1 (proj2 Hc))].
  - split.
    + apply (Holds_le64 _ _ _ _ Hd Hc). lra.
    + apply (Holds_le64 _ _ _ _ Hc Hd). lra.
Qed.
End NoJitter.

Lemma calculateDelay64_without_jitter_witness :
  let capped := cappedDelay64 powRounded (ofZ 1000) (ofZ 30000) (ofQ (11 # 10)) 3 in
  let delay := calculateDelay64 powRounded (ofZ 1000) (ofZ 30000) (ofQ (11 # 10))
                 (S754_zero false) (ofQ (1 # 3)) 3 in
  isFinite delay = true /\ (SF2Q delay == SF2Q capped)%Q /\
  le64 delay capped = true /\ le64 capped delay = true.
Proof.
  apply (calculateDelay64_without_jitter powRounded (ofZ 1000) (ofZ 30000)
           (ofQ (11 # 10)) (ofQ (1 # 3)) 3 false);
    try (vm_compute; reflexivity).
  left. vm_compute. reflexivity.
Defined.

(** ** The model against the reference operations, and on the code's inputs *)

(** On the sample numbers, multiplication, addition, subtraction and the
    comparisons are those of the standard library's specification of
    IEEE-754 arithmetic at precision 53 and maximal exponent 1024. *)
Lemma operations_agree_with_reference :
  forallb (valid_binary 53 1024) samples = true /\
  agreeOn mul64 (SFmul 53 1024) = true /\
  agreeOn add64 (SFadd 53 1024) = true /\
  agreeOn sub64 (SFsub 53 1024) = true /\
  agreeOnTest lt64 SFltb = true /\ agreeOnTest le64 SFleb = true.
Proof. vm_compute. repeat split. Qed.

(** Rounding shows: [0.1 * 3] is not the number of [0.3], and with
    [initialDelayMs = 1000] and [backoffMultiplier = 1.1] the capped backoff
    of the third attempt is [1210.0000000000002], not [1.1] times that of
    the second. *)
Lemma rounding_is_visible :
  mul64 (ofQ (1 # 10)) (ofZ 3) = S754_finite false 5404319552844596 (-54) /\
  ofQ (3 # 10) = S754_finite false 5404319552844595 (-54) /\
  cappedDelay64 powRounded (ofZ 1000) (ofZ 30000) (ofQ (11 # 10)) 3
    = ofQ (12100000000000002 # 10000000000000) /\
  mul64 (ofQ (11 # 10))
        (cappedDelay64 powRounded (ofZ 1000) (ofZ 30000) (ofQ (11 # 10)) 2)
    = ofZ 1210 /\
  sameNumber (ofQ (12100000000000002 # 10000000000000)) (ofZ 1210) = false.
Proof. vm_compute. repeat split. Qed.

(** Overflow shows: with [initialDelayMs = 0] and [backoffMultiplier = 1e200]
    the power of the third attempt is infinite, [0 * Infinity] is NaN, and
    so are the capped backoff and the delay. *)
Lemma overflow_gives_NaN :
  let big := ofQ (inject_Z (10 ^ 200)) in
  powRounded big (sub64 (ofZ 3) (ofZ 1)) = S754_infinity false /\
  cappedDelay64 powRounded zero64 (ofZ 30000) big 3 = S754_nan /\
  calculateDelay64 powRounded zero64 (ofZ 30000) big (ofQ (1 # 10)) (ofQ (1 # 2)) 3
    = S754_nan.
Proof. vm_compute. repeat split. Qed.


